(** * Job lifecycle and status reconciliation of the jobs service

    A shallow embedding of [services/jobs/jobs/service.py] (class
    [JobService]) together with the parts of
    [services/files/files/service.py] it calls while stopping, cancelling
    and deleting a job.

    - The job database is a pair of finite maps: the committed rows and the
      session's working copy (SQLAlchemy's identity map: every
      [query(Job).filter_by(id=..).first()] of one request yields the same
      object, attribute writes stay in the session until [commit]).
    - Python exceptions are values of [PyExc]; every service method runs in
      a state-and-exception monad over [World], so the effects done before
      an exception is raised persist, as they do in Python.
    - The orchestrator (Airflow), the clock and the other RPC services are
      an environment [Env] of oracles indexed by a logical time [tick],
      which every consultation advances: the orchestrator may answer
      differently each time it is asked.
    - Timestamps are integers (naive UTC instants). *)

From Stdlib Require Import ZArith Lia.
From stdpp Require Import gmap strings list.

Local Open Scope Z_scope.

(** ** Python values and exceptions *)

Inductive PyExc : Type :=
| TypeError
| AttributeError
| ValueError
| KeyError
| IndexError
| FileNotFoundError
| FileExistsError
| RemoteError (what : string).

Inductive Outcome (A : Type) : Type :=
| Ret (a : A)
| Raise (e : PyExc)
| Hang.                 (* a loop that did not end within its fuel *)
Arguments Ret {A} a.
Arguments Raise {A} e.
Arguments Hang {A}.

Module JobStatus.
(** Modelled from the spec: [jobs/models.py] is not part of the sources;
    section 3 gives [JobStatus] as the closed enumeration below. *)
Inductive t : Type :=
| created | queued | running | canceled | error | finished.

Definition eqb (a b : t) : bool :=
  match a, b with
  | created, created | queued, queued | running, running
  | canceled, canceled | error, error | finished, finished => true
  | _, _ => false
  end.
End JobStatus.

(** What [airflow.check_dag_status] hands back: a pair of the unit's status
    (or [None]) and its last execution time (or [None]);
    [_update_job_status] unpacks it as [new_status, execution_time]. *)
Definition reading : Type := option JobStatus.t * option Z.

(** The few dynamically typed values the code compares with [==] and [!=]. *)
Inductive pyval : Type :=
| PyNone
| PyInt (z : Z)
| PyEnum (s : JobStatus.t)
| PyTuple (r : reading)
| PyList (l : list string).

Definition option_eqb {A} (f : A -> A -> bool) (a b : option A) : bool :=
  match a, b with
  | Some x, Some y => f x y
  | None, None => true
  | _, _ => false
  end.

Definition reading_eqb (a b : reading) : bool :=
  option_eqb JobStatus.eqb (fst a) (fst b) && option_eqb Z.eqb (snd a) (snd b).

(** Python's [==]: values of different types are never equal. *)
Definition py_eq (a b : pyval) : bool :=
  match a, b with
  | PyNone, PyNone => true
  | PyInt x, PyInt y => x =? y
  | PyEnum s, PyEnum s' => JobStatus.eqb s s'
  | PyTuple r, PyTuple r' => reading_eqb r r'
  | PyList l, PyList l' => bool_decide (l = l')
  | _, _ => false
  end.

Definition py_ne (a b : pyval) : bool := negb (py_eq a b).

(** [x in [a, b, ...]] for an optional status: [None] is in no such list. *)
Definition status_in (s : option JobStatus.t) (l : list JobStatus.t) : bool :=
  match s with
  | Some x => existsb (JobStatus.eqb x) l
  | None => false
  end.

(** Truth value of an optional enum member: only [None] is falsy. *)
Definition truthy {A} (o : option A) : bool :=
  match o with Some _ => true | None => false end.

(** Python's [max] over a list: the first element is the start value and a
    later one replaces it only when strictly greater; comparing with [None]
    raises [TypeError], an empty list raises [ValueError]. *)
Fixpoint py_max_from (cur : option Z) (l : list (option Z)) : Outcome (option Z) :=
  match l with
  | [] => Ret cur
  | x :: l' =>
      match x, cur with
      | Some b, Some a => py_max_from (if a <? b then x else cur) l'
      | _, _ => Raise TypeError
      end
  end.

Definition py_max (l : list (option Z)) : Outcome (option Z) :=
  match l with
  | [] => Raise ValueError
  | x :: l' => py_max_from x l'
  end.

(** [list.index(v)]: position of the first element equal to [v]. *)
Fixpoint py_index (l : list (option Z)) (v : option Z) : Outcome nat :=
  match l with
  | [] => Raise ValueError
  | x :: l' =>
      if option_eqb Z.eqb x v then Ret 0%nat
      else match py_index l' v with
           | Ret i => Ret (S i)
           | Raise e => Raise e
           | Hang => Hang
           end
  end.

(** [l[i]] for a non-negative index. *)
Definition py_getitem {A} (l : list A) (i : nat) : Outcome A :=
  match l !! i with
  | Some x => Ret x
  | None => Raise IndexError
  end.

(** ** The job record *)

(** Modelled from the spec: [jobs/models.py] is not part of the sources;
    the fields are those [service.py] reads and writes, with the types of
    section 3: [status] may be unset (the reconciler tests it with
    [not job.status]), [status_updated_at] is always set (the reconciler
    calls [.replace] on it without a test). *)
Record Job : Type := mkJob {
  job_id : string;
  user_id : string;
  process_graph_id : string;
  status : option JobStatus.t;
  status_updated_at : Z;
  title : option string;
  description : option string;
  plan : option string;
  budget : option Z;
  error : string;
}.

Definition set_status (s : option JobStatus.t) (j : Job) : Job :=
  mkJob (job_id j) (user_id j) (process_graph_id j) s (status_updated_at j)
        (title j) (description j) (plan j) (budget j) (error j).

Definition set_status_updated_at (t : Z) (j : Job) : Job :=
  mkJob (job_id j) (user_id j) (process_graph_id j) (status j) t
        (title j) (description j) (plan j) (budget j) (error j).

Definition set_process_graph_id (g : string) (j : Job) : Job :=
  mkJob (job_id j) (user_id j) g (status j) (status_updated_at j)
        (title j) (description j) (plan j) (budget j) (error j).

Definition set_meta (t d p : option string) (b : option Z) (j : Job) : Job :=
  mkJob (job_id j) (user_id j) (process_graph_id j) (status j)
        (status_updated_at j) t d p b (error j).

(** ** Status reconciliation: the pure core of [_update_job_status] *)

(** The condition under which the loop appends a unit's reading
    (service.py, lines 611-620). *)
Definition eligible (job : Job) (r : reading) : bool :=
  let '(new_status, execution_time) := r in
  truthy new_status
  && (negb (truthy (status job))
      || status_in (status job)
           [JobStatus.created; JobStatus.queued; JobStatus.running; JobStatus.error]
      || match execution_time with
         | Some t => status_updated_at job <? t
         | None => false
         end).

(** The merge of the collected lists (lines 626-631); the lists are known
    to be non-empty here, [s0] is [all_status[0]]. *)
Definition merge_status (s0 : JobStatus.t) (all_status : list JobStatus.t)
    (all_execution_time : list (option Z)) : Outcome JobStatus.t :=
  if forallb (fun s => JobStatus.eqb s s0) all_status then Ret s0
  else
    match py_max all_execution_time with
    | Ret m =>
        match py_index all_execution_time m with
        | Ret idx => py_getitem all_status idx
        | Raise e => Raise e
        | Hang => Hang
        end
    | Raise e => Raise e
    | Hang => Hang
    end.

(** ** The world the service acts on *)

(** A job's folder on disk: the files of its [result] sub-folder and every
    other entry of the job folder (the [STOP] marker among them). *)
Record JobFolder : Type := mkFolder {
  result_files : list string;
  other_files : list string;
}.

(** Work handed to [threading.Thread]: the target and its arguments.  The
    first argument of [_delayed_delete] is whatever the caller passed for
    [user]. *)
Inductive PyUser : Type :=
| UserDict (id_field : string)   (* a dict with an "id" entry *)
| UserStr (s : string).          (* a plain string *)

Inductive Thread : Type :=
| DelayedDelete (user : PyUser) (job : string).

(** Effects on collaborators that are not modelled as state. *)
Inductive Effect : Type :=
| CheckDagStatus (unit_id : string)
| UploadStopFile (user job : string)
| Sleep (seconds : Z)
| RemoveAllDags (job : string)
| AirflowDeleteDag (dag : string)
| WriteDag (job : string)
| TriggerDag (dag : string)
| ThreadStart (th : Thread)
| DbCommit.

Record World : Type := mkWorld {
  committed : gmap string Job;             (* rows as persisted *)
  working : gmap string Job;               (* the session's view *)
  folders : gmap (string * string) JobFolder;   (* (user, job) -> folder *)
  backups : gmap (string * string) (list string); (* <user>/<job>_backup *)
  threads : list Thread;                   (* started, not yet run *)
  trace : list Effect;                     (* oldest first *)
  tick : nat;                              (* logical time of the oracles *)
}.

Definition with_committed c (w : World) : World :=
  mkWorld c (working w) (folders w) (backups w) (threads w) (trace w) (tick w).
Definition with_working k (w : World) : World :=
  mkWorld (committed w) k (folders w) (backups w) (threads w) (trace w) (tick w).
Definition with_folders f (w : World) : World :=
  mkWorld (committed w) (working w) f (backups w) (threads w) (trace w) (tick w).
Definition with_backups b (w : World) : World :=
  mkWorld (committed w) (working w) (folders w) b (threads w) (trace w) (tick w).
Definition with_threads t (w : World) : World :=
  mkWorld (committed w) (working w) (folders w) (backups w) t (trace w) (tick w).
Definition with_trace t (w : World) : World :=
  mkWorld (committed w) (working w) (folders w) (backups w) (threads w) t (tick w).
Definition with_tick n (w : World) : World :=
  mkWorld (committed w) (working w) (folders w) (backups w) (threads w) (trace w) n.

(** ** State and exception monad *)

Definition M (A : Type) : Type := World -> Outcome A * World.

Definition ret {A} (a : A) : M A := fun w => (Ret a, w).
Definition raise {A} (e : PyExc) : M A := fun w => (Raise e, w).
Definition bind {A B} (m : M A) (k : A -> M B) : M B :=
  fun w => match m w with
           | (Ret a, w') => k a w'
           | (Raise e, w') => (Raise e, w')
           | (Hang, w') => (Hang, w')
           end.
Definition hang {A} : M A := fun w => (Hang, w).
Definition lift {A} (o : Outcome A) : M A := fun w => (o, w).

Notation "'let!' x ':=' m 'in' k" := (bind m (fun x => k))
  (at level 10, x pattern, m at level 100, k at level 200).
Notation "m ';;' k" := (bind m (fun _ => k))
  (at level 100, k at level 200, right associativity).

Definition emit (e : Effect) : M unit :=
  fun w => (Ret tt, with_trace (trace w ++ [e]) w).

(** Consult an oracle: hand out the current logical time and advance it. *)
Definition next_tick : M nat :=
  fun w => (Ret (tick w), with_tick (S (tick w)) w).

(** [self.db.query(Job).filter_by(id=job_id).first()] *)
Definition db_query_first (job : string) : M (option Job) :=
  fun w => (Ret (working w !! job), w).

(** An attribute assignment on the job object of the session. *)
Definition db_assign (job : string) (f : Job -> Job) : M unit :=
  fun w => (Ret tt, with_working (alter f job (working w)) w).

(** [self.db.delete(job)] *)
Definition db_delete (job : string) : M unit :=
  fun w => (Ret tt, with_working (delete job (working w)) w).

(** [self.db.commit()] *)
Definition db_commit : M unit :=
  fun w => (Ret tt, with_trace (trace w ++ [DbCommit]) (with_committed (working w) w)).

Definition sleep (seconds : Z) : M unit := emit (Sleep seconds).

(** ** The files service (services/files/files/service.py) *)

Module FilesService.

(** [setup_jobs_result_folder]: create the job's result folder unless it
    exists. *)
Definition setup_jobs_result_folder (user job : string) : M unit :=
  fun w =>
    match folders w !! (user, job) with
    | Some _ => (Ret tt, w)
    | None => (Ret tt, with_folders (<[(user, job) := mkFolder [] []]> (folders w)) w)
    end.

(** [upload_stop_job_file]: [open(<job folder>/STOP, 'a').close()]. *)
Definition upload_stop_job_file (user job : string) : M unit :=
  fun w =>
    match folders w !! (user, job) with
    | None => (Raise FileNotFoundError, w)
    | Some f =>
        let others :=
          if bool_decide ("STOP"%string ∈ other_files f) then other_files f
          else (other_files f ++ ["STOP"%string]) in
        (Ret tt,
         with_trace (trace w ++ [UploadStopFile user job])
           (with_folders (<[(user, job) := mkFolder (result_files f) others]> (folders w)) w))
    end.

(** [delete_complete_job]: [shutil.rmtree(<job folder>)]. *)
Definition delete_complete_job (user job : string) : M unit :=
  fun w =>
    match folders w !! (user, job) with
    | None => (Raise FileNotFoundError, w)
    | Some _ => (Ret tt, with_folders (delete (user, job) (folders w)) w)
    end.

(** [os.listdir(<job folder>/result)] *)
Definition listdir_result (user job : string) : M (list string) :=
  fun w =>
    match folders w !! (user, job) with
    | None => (Raise FileNotFoundError, w)
    | Some f => (Ret (result_files f), w)
    end.

(** [os.makedirs(<user folder>/<job>_backup)] *)
Definition makedirs_backup (user job : string) : M unit :=
  fun w =>
    match backups w !! (user, job) with
    | Some _ => (Raise FileExistsError, w)
    | None => (Ret tt, with_backups (<[(user, job) := []]> (backups w)) w)
    end.

(** [os.rename(job_result_folder, bak_result_folder)]: the result folder
    replaces the (empty) backup folder. *)
Definition rename_result_to_backup (user job : string) : M unit :=
  fun w =>
    match folders w !! (user, job) with
    | None => (Raise FileNotFoundError, w)
    | Some f =>
        (Ret tt,
         with_backups (<[(user, job) := result_files f]> (backups w))
           (with_folders (<[(user, job) := mkFolder [] (other_files f)]> (folders w)) w))
    end.

(** [os.rename(bak_result_folder, job_result_folder)]: the backup folder
    replaces the (empty) result folder and is gone afterwards. *)
Definition rename_backup_to_result (user job : string) : M unit :=
  fun w =>
    match backups w !! (user, job), folders w !! (user, job) with
    | Some saved, Some f =>
        (Ret tt,
         with_backups (delete (user, job) (backups w))
           (with_folders (<[(user, job) := mkFolder saved (other_files f)]> (folders w)) w))
    | _, _ => (Raise FileNotFoundError, w)
    end.

(** [if os.path.isdir(bak_result_folder): shutil.rmtree(bak_result_folder)] *)
Definition rmtree_backup_if_dir (user job : string) : M unit :=
  fun w => (Ret tt, with_backups (delete (user, job) (backups w)) w).

(** [delete_job_without_results].  Both tests compare the list returned
    by [os.listdir] with the integer [0]. *)
Definition delete_job_without_results (user job : string) : M bool :=
  let! listing := listdir_result user job in
  (if py_eq (PyList listing) (PyInt 0) then
     delete_complete_job user job ;;
     setup_jobs_result_folder user job
   else
     makedirs_backup user job ;;
     rename_result_to_backup user job ;;
     delete_complete_job user job ;;
     setup_jobs_result_folder user job ;;
     rename_backup_to_result user job ;;
     rmtree_backup_if_dir user job) ;;
  let! listing' := listdir_result user job in
  ret (py_ne (PyList listing') (PyInt 0)).

End FilesService.

(** ** Responses and service exceptions *)

(** The texts of the messages, kept structured: each f-string of
    [service.py] is one constructor. *)
Inductive Msg : Type :=
| MsgNotExist (job : string)
| MsgNotAllowed (job : string)
| MsgCurrently (job : string) (st : option JobStatus.t)
| MsgAlready (job : string) (st : option JobStatus.t)
| MsgCouldNotStart (job : string)
| MsgWasCanceled (job : string)
| MsgNotFinished (job : string)
| MsgJobError (detail : string)
| MsgOfExc (e : PyExc)
| MsgText (s : string).

(** The serialized error of section 6:
    [{service, code, user_id, msg, internal, links}]. *)
Record ErrorDict : Type := mkErr {
  err_service : string;
  err_code : Z;
  err_user_id : string;
  err_msg : Msg;
  err_internal : bool;
  err_links : list string;
}.

(** Modelled from the spec: [jobs/exceptions.py] is not part of the
    sources.  A [ServiceException] carries the fields of the error envelope
    of section 6 and [to_dict] serializes them unchanged under the service
    name; [internal] defaults to [True] (section 7: an unexpected fault is
    [internal=true]). *)
Record ServiceException : Type := mkExc {
  exc_code : Z;
  exc_user_id : string;
  exc_msg : Msg;
  exc_internal : bool;
  exc_links : list string;
}.

Definition service_name : string := "jobs".
Definition default_internal : bool := true.

Definition to_dict (e : ServiceException) : ErrorDict :=
  mkErr service_name (exc_code e) (exc_user_id e) (exc_msg e) (exc_internal e) (exc_links e).

(** Modelled from the spec: the class [JobLocked] of [jobs/exceptions.py]
    is not part of the sources.  It is built like a [ServiceException];
    [modify] does not pass [internal], so the flag of its error is the
    class's own default, which is taken as the parameter
    [internal_default] (section 4.2 gives the "locked" condition as
    non-internal). *)
Definition JobLocked (internal_default : bool) (code : Z) (user : string) (msg : Msg)
    (links : list string) : ServiceException :=
  mkExc code user msg internal_default links.

(** Modelled from the spec: the class [JobNotFinished] of
    [jobs/exceptions.py] is not part of the sources; it is called with the
    job id in place of a message and builds the text itself (section 7:
    results requested before completion). *)
Definition JobNotFinished (code : Z) (user job : string) (internal : bool)
  : ServiceException :=
  mkExc code user (MsgNotFinished job) internal [].

(** A process graph: node name -> node.  Only what [_get_in_filepaths]
    reads is kept; a missing [arguments] entry stands for any missing key. *)
Record LoadArgs : Type := mkLoadArgs {
  collection_id : string;
  south : Z; east : Z; north : Z; west : Z;
  temporal_extent : list string;
}.

Record Node : Type := mkNode {
  process_id : string;
  arguments : option LoadArgs;
}.

Definition ProcessGraph : Type := list (string * Node).

(** A reply of another service: either an error dict
    ([reply["status"] == "error"]) or the payload under ["data"]. *)
Inductive Reply (A : Type) : Type :=
| ReplyError (d : ErrorDict)
| ReplyData (data : A).
Arguments ReplyError {A} d.
Arguments ReplyData {A} data.

Record JobOutput : Type := mkOutput {
  file_list : list string;
  metadata_file : option string;
}.

Record Asset : Type := mkAsset { href : string; name : string }.

Record ApiSpec : Type := mkApiSpec {
  servers : list string;          (* the [url] of each server entry *)
  stac_version : string;
}.

Inductive Body : Type :=
| NoBody
| JobInfo (job : Job) (process : ProcessGraph)
| Results (job : Job) (assets : list Asset) (stac : string) (metadata : list (string * string)).

(** What a public method returns: a success envelope, the dict of an
    exception built by this service, or the error dict of another service
    returned as it came. *)
Inductive Response : Type :=
| Success (code : Z) (body : Body)
| Error (d : ErrorDict)
| Forwarded (d : ErrorDict).

(** Arguments of [modify]: an absent key is [None]. *)
Record ProcessArgs : Type := mkProcessArgs {
  given_id : option string;
  given_graph : ProcessGraph;
}.

Record JobArgs : Type := mkJobArgs {
  arg_process : option ProcessArgs;
  arg_title : option (option string);
  arg_description : option (option string);
  arg_plan : option (option string);
  arg_budget : option Z;
}.

(** ** The environment: orchestrator, clock and the other services *)

Record Env : Type := mkEnv {
  (* dag_handler *)
  get_all_dag_ids : string -> list string;
  get_preparation_dag_id : string -> string;
  (* airflow *)
  check_dag_status : nat -> string -> reading;
  trigger_dag : nat -> string -> Outcome bool;
  (* datetime.utcnow() *)
  utcnow : nat -> Z;
  (* settings *)
  SYNC_DEL_DELAY : Z;
  OPENEO_VERSION : string;
  (* processes service *)
  get_user_defined : nat -> string -> string -> Outcome (Reply ProcessGraph);
  put_user_defined : nat -> string -> string -> ProcessArgs -> Outcome (Reply unit);
  get_all_predefined : nat -> Outcome (Reply (list string));
  (* data service *)
  get_filepaths : nat -> LoadArgs -> Outcome (Reply (list string));
  (* dag writer and the job-run calls of the files service *)
  get_latest_job_run_folder_name : nat -> string -> string -> Outcome string;
  write_and_move_job : nat -> string -> ProcessGraph -> Outcome unit;
  delete_old_job_runs : nat -> string -> string -> Outcome unit;
  get_job_output : nat -> string -> string -> Outcome (Reply JobOutput);
  load_metadata : nat -> string -> Outcome (list (string * string));
  (* random.choices *)
  generate_alphanumeric_id : nat -> string;
  (* jobs/exceptions.py: the default of [internal] in class JobLocked *)
  JobLocked_internal : bool;
}.

(** ** Path helpers ([os.path.join], [os.path.basename]) *)

Definition slash : Ascii.ascii := Ascii.ascii_of_nat 47.

Fixpoint ends_with_slash (s : string) : bool :=
  match s with
  | EmptyString => false
  | String c EmptyString => Ascii.eqb c slash
  | String _ s' => ends_with_slash s'
  end.

Definition starts_with_slash (s : string) : bool :=
  match s with
  | String c _ => Ascii.eqb c slash
  | EmptyString => false
  end.

Definition os_path_join2 (a b : string) : string :=
  if starts_with_slash b then b
  else if String.eqb a "" || ends_with_slash a then a +:+ b
  else a +:+ "/" +:+ b.

Definition os_path_join (a : string) (parts : list string) : string :=
  fold_left os_path_join2 parts a.

Fixpoint basename_from (cur s : string) : string :=
  match s with
  | EmptyString => cur
  | String c s' =>
      if Ascii.eqb c slash then basename_from "" s'
      else basename_from (cur +:+ String c EmptyString) s'
  end.

Definition os_path_basename (s : string) : string := basename_from "" s.

(** ** The jobs service (services/jobs/jobs/service.py)

    A user is passed as the value of its ["id"] entry. *)

Section JobService.

Variable env : Env.

Definition check_stop_interval : Z := 5.

(** [self.airflow.check_dag_status(dag_id)] *)
Definition airflow_check_dag_status (dag_id : string) : M reading :=
  let! t := next_tick in
  emit (CheckDagStatus dag_id) ;;
  ret (check_dag_status env t dag_id).

(** [datetime.utcnow()] *)
Definition datetime_utcnow : M Z :=
  let! t := next_tick in ret (utcnow env t).

(** A call of another service, which may raise.  It consults the
    environment and leaves no event in the trace: the trace records what
    is done to the orchestrator, to the job folders, to threads and to the
    database, not the requests sent to the processes, data and files
    services, whatever those do on their side. *)
Definition call {A} (f : nat -> Outcome A) : M A :=
  let! t := next_tick in lift (f t).

(** [job.<attr>]: the job object is the session's; [None.<attr>] raises. *)
Definition job_attr {A} (job_id : string) (f : Job -> A) : M A :=
  fun w => match working w !! job_id with
           | Some j => (Ret (f j), w)
           | None => (Raise AttributeError, w)
           end.

Definition authorize (user job_id : string) (job : option Job)
  : option ServiceException :=
  match job with
  | None =>
      Some (mkExc 400 user (MsgNotExist job_id) false
              ["#tag/Job-Management/paths/~1data/get"%string])
  | Some j =>
      if negb (String.eqb (user_id j) user) then
        Some (mkExc 401 user (MsgNotAllowed job_id) false
                ["#tag/Job-Management/paths/~1data/get"%string])
      else None
  end.

Definition _set_job_status (job_id : string) (new_status : JobStatus.t) : M unit :=
  let! job := db_query_first job_id in
  match job with
  | None => raise AttributeError
  | Some _ =>
      db_assign job_id (set_status (Some new_status)) ;;
      let! t := datetime_utcnow in
      db_assign job_id (set_status_updated_at t) ;;
      db_commit
  end.

(** The loop of [_update_job_status] over the job's execution units. *)
Fixpoint collect (job : option Job) (dag_ids : list string)
    (all_status : list JobStatus.t) (all_execution_time : list (option Z))
  : M (list JobStatus.t * list (option Z)) :=
  match dag_ids with
  | [] => ret (all_status, all_execution_time)
  | dag_id :: rest =>
      let! r := airflow_check_dag_status dag_id in
      match fst r with
      | None => collect job rest all_status all_execution_time
      | Some new_status =>
          match job with
          | None => raise AttributeError
          | Some j =>
              if eligible j r then
                collect job rest (all_status ++ [new_status])
                        (all_execution_time ++ [snd r])
              else collect job rest all_status all_execution_time
          end
      end
  end.

Definition _update_job_status (job_id : string) : M unit :=
  let! job := db_query_first job_id in
  let dag_ids := get_all_dag_ids env job_id in
  let! found := collect job dag_ids [] [] in
  let '(all_status, all_execution_time) := found in
  match all_status with
  | [] => ret tt
  | s0 :: _ =>
      let! new_status := lift (merge_status s0 all_status all_execution_time) in
      db_assign job_id (set_status (Some new_status)) ;;
      let! t := datetime_utcnow in
      db_assign job_id (set_status_updated_at t) ;;
      db_commit
  end ;;
  (* LOGGER.debug(f"... {job.status}") *)
  match job with
  | None => raise AttributeError
  | Some _ => ret tt
  end.

(** The [while not job_stopped] loop of [_stop_airflow_job]; the value
    returned by [check_dag_status] is compared with [JobStatus.running]
    as it is. *)
Fixpoint wait_stopped (fuel : nat) (job_id : string) (job_stopped : bool) : M unit :=
  if job_stopped then ret tt
  else
    match fuel with
    | O => hang
    | S fuel' =>
        sleep check_stop_interval ;;
        let! r := airflow_check_dag_status job_id in
        wait_stopped fuel' job_id (py_ne (PyTuple r) (PyEnum JobStatus.running))
    end.

Definition _stop_airflow_job (fuel : nat) (user job_id : string) : M unit :=
  FilesService.upload_stop_job_file user job_id ;;
  wait_stopped fuel job_id false.

(** [_delayed_delete(user, job_id)] reads [user["id"]]. *)
Definition _delayed_delete (user : PyUser) (job_id : string) : M unit :=
  sleep (SYNC_DEL_DELAY env) ;;
  match user with
  | UserDict uid => FilesService.delete_complete_job uid job_id
  | UserStr _ => raise TypeError
  end.

(** [threading.Thread(target=..., args=...).start()] *)
Definition thread_start (th : Thread) : M unit :=
  fun w => (Ret tt, with_trace (trace w ++ [ThreadStart th])
                      (with_threads (threads w ++ [th]) w)).

(** Running a started thread. *)
Definition run_thread (th : Thread) : M unit :=
  match th with
  | DelayedDelete user job => _delayed_delete user job
  end.

(** [try: ... except Exception as exp: return ServiceException(500, ...)] *)
Definition handle (user : string) (links : list string) (body : M Response) : M Response :=
  fun w => match body w with
           | (Raise e, w') =>
               (Ret (Error (to_dict (mkExc 500 user (MsgOfExc e) default_internal links))), w')
           | r => r
           end.

(** The common prologue: look the job up and authorize the user. *)
Definition authorized (user job_id : string) (k : M Response) : M Response :=
  let! job := db_query_first job_id in
  match authorize user job_id job with
  | Some response => ret (Error (to_dict response))
  | None => k
  end.

Definition get (user job_id : string) : M Response :=
  handle user [] (
    authorized user job_id (
      _update_job_status job_id ;;
      let! graph_id := job_attr job_id process_graph_id in
      let! process_response := call (fun t => get_user_defined env t user graph_id) in
      match process_response with
      | ReplyError d => ret (Forwarded d)
      | ReplyData data =>
          let! j := job_attr job_id (fun j => j) in
          ret (Success 200 (JobInfo j data))
      end)).

(** [modify].  The budget of the request is taken as an integer [b] and
    stored as [b * 100]; the source stores [int(budget * 100)] of a JSON
    number, which differs for a fractional budget and for one that does
    not fit the column.  Only a request without budget, or with 0, is
    modelled exactly. *)
Definition modify (user job_id : string) (job_args : JobArgs) : M Response :=
  handle user [] (
    authorized user job_id (
      _update_job_status job_id ;;
      let! st := job_attr job_id status in
      if status_in st [JobStatus.queued; JobStatus.running] then
        ret (Error (to_dict (JobLocked (JobLocked_internal env) 400 user
                               (MsgCurrently job_id st) [])))
      else
        let! failed :=
          match arg_process job_args with
          | Some process_graph_args =>
              let! process_graph_id :=
                match given_id process_graph_args with
                | Some i => ret i
                | None => call (fun t => Ret (generate_alphanumeric_id env t))
                end in
              let! process_response :=
                call (fun t => put_user_defined env t user process_graph_id process_graph_args) in
              match process_response with
              | ReplyError d => ret (Some d)
              | ReplyData _ =>
                  db_assign job_id (set_process_graph_id process_graph_id) ;;
                  ret None
              end
          | None => ret None
          end in
        match failed with
        | Some d => ret (Forwarded d)
        | None =>
            db_assign job_id (fun j =>
              set_meta (default (title j) (arg_title job_args))
                       (default (description j) (arg_description job_args))
                       (default (plan j) (arg_plan job_args))
                       (match arg_budget job_args with
                        | Some b => if b =? 0 then budget j else Some (b * 100)
                        | None => budget j
                        end) j) ;;
            db_commit ;;
            ret (Success 204 NoBody)
        end)).

Definition delete (fuel : nat) (user job_id : string) (delayed : bool) : M Response :=
  handle user [] (
    authorized user job_id (
      _update_job_status job_id ;;
      let! st := job_attr job_id status in
      (if status_in st [JobStatus.running; JobStatus.queued] then
         _stop_airflow_job fuel user job_id
       else ret tt) ;;
      (if delayed then thread_start (DelayedDelete (UserStr user) job_id)
       else FilesService.delete_complete_job user job_id) ;;
      emit (RemoveAllDags job_id) ;;
      fold_right (fun dag_id k => emit (AirflowDeleteDag dag_id) ;; k) (ret tt)
                 (get_all_dag_ids env job_id) ;;
      db_delete job_id ;;
      db_commit ;;
      ret (Success 204 NoBody))).

Fixpoint _get_in_filepaths (process_graph : ProcessGraph)
    (in_filepaths : list (string * list string))
  : M (ErrorDict + list (string * list string)) :=
  match process_graph with
  | [] => ret (inr in_filepaths)
  | (node, n) :: rest =>
      if String.eqb (process_id n) "load_collection" then
        match arguments n with
        | None => raise KeyError
        | Some a =>
            let! data_response := call (fun t => get_filepaths env t a) in
            match data_response with
            | ReplyError d => ret (inl d)
            | ReplyData data => _get_in_filepaths rest (in_filepaths ++ [(node, data)])
            end
        end
      else _get_in_filepaths rest in_filepaths
  end.

(** [process].  The dag writer and the job-run calls of the files service
    ([get_latest_job_run_folder_name], [write_and_move_job],
    [delete_old_job_runs]) are not part of the sources: they are consulted
    for their answer only, and what they do to the job folders is not
    modelled. *)
Definition process (user job_id : string) : M Response :=
  handle user [] (
    authorized user job_id (
      _update_job_status job_id ;;
      let! st := job_attr job_id status in
      if status_in st [JobStatus.queued; JobStatus.running] then
        ret (Error (to_dict (mkExc 400 user (MsgAlready job_id st) false [])))
      else
        FilesService.setup_jobs_result_folder user job_id ;;
        let! process_response := call (get_all_predefined env) in
        match process_response with
        | ReplyError d => ret (Forwarded d)
        | ReplyData backend_processes =>
            let! graph_id := job_attr job_id process_graph_id in
            let! process_graph_response :=
              call (fun t => get_user_defined env t user graph_id) in
            match process_graph_response with
            | ReplyError d => ret (Forwarded d)
            | ReplyData process_graph =>
                let! in_filepaths := _get_in_filepaths process_graph [] in
                match in_filepaths with
                | inl d => ret (Forwarded d)
                | inr _ =>
                    call (fun t => get_latest_job_run_folder_name env t user job_id) ;;
                    call (fun t => write_and_move_job env t job_id process_graph) ;;
                    emit (WriteDag job_id) ;;
                    emit (TriggerDag (get_preparation_dag_id env job_id)) ;;
                    let! trigger_worked :=
                      call (fun t => trigger_dag env t (get_preparation_dag_id env job_id)) in
                    if negb trigger_worked then
                      ret (Error (to_dict (mkExc 500 user (MsgCouldNotStart job_id)
                                             default_internal [])))
                    else
                      _update_job_status job_id ;;
                      call (fun t => delete_old_job_runs env t user job_id) ;;
                      ret (Success 202 NoBody)
                end
            end
        end)).

Definition cancel_processing (fuel : nat) (user job_id : string) : M Response :=
  handle user ["#tag/Job-Management/paths/~1jobs~1{job_id}~1results/delete"%string] (
    authorized user job_id (
      _update_job_status job_id ;;
      let! st := job_attr job_id status in
      (if status_in st [JobStatus.running; JobStatus.queued] then
         _stop_airflow_job fuel user job_id ;;
         let! results_exists := FilesService.delete_job_without_results user job_id in
         let! st' := job_attr job_id status in
         (if option_eqb JobStatus.eqb st' (Some JobStatus.running) && results_exists then
            _set_job_status job_id JobStatus.canceled
          else
            _set_job_status job_id JobStatus.created) ;;
         db_commit
       else ret tt) ;;
      ret (Success 204 NoBody))).

Definition _get_download_url (base_url public_path : string) : string :=
  os_path_join base_url [OPENEO_VERSION env; "downloads"%string; public_path].

(** [get_results].  The body [Results j assets stac metadata] holds the
    parts of the answer before they are merged: the source dumps the job
    with its assets and stac version, updates that dict with [metadata]
    and reads its ['type'] entry.  The update and the lookup are not
    carried out here, so the model is exact only for a metadata file that
    has a ['type'] entry and no ['assets'] entry. *)
Definition get_results (user job_id : string) (api_spec : ApiSpec) : M Response :=
  handle user [] (
    authorized user job_id (
      _update_job_status job_id ;;
      let! st := job_attr job_id status in
      if option_eqb JobStatus.eqb st (Some JobStatus.error) then
        let! detail := job_attr job_id error in
        ret (Error (to_dict (mkExc 424 user (MsgJobError detail) false [])))
      else if option_eqb JobStatus.eqb st (Some JobStatus.canceled) then
        ret (Error (to_dict (mkExc 400 user (MsgWasCanceled job_id) false [])))
      else if status_in st [JobStatus.created; JobStatus.queued; JobStatus.running] then
        ret (Error (to_dict (JobNotFinished 400 user job_id false)))
      else
        let! output := call (fun t => get_job_output env t user job_id) in
        match output with
        | ReplyError d => ret (Forwarded d)
        | ReplyData out =>
            match metadata_file out with
            | None => raise KeyError
            | Some file =>
                let! metadata := call (fun t => load_metadata env t file) in
                let! assets :=
                  match file_list out, servers api_spec with
                  | [], _ => ret []
                  | _ :: _, [] => raise IndexError
                  | files, url :: _ =>
                      ret (map (fun f => mkAsset (_get_download_url url f)
                                                 (os_path_basename f)) files)
                  end in
                let! j := job_attr job_id (fun j => j) in
                ret (Success 200 (Results j assets (stac_version api_spec) metadata))
            end
        end)).

End JobService.

(** The result assets a response carries. *)
Definition assets_of (r : Response) : list Asset :=
  match r with
  | Success _ (Results _ assets _ _) => assets
  | _ => []
  end.

(** ** Vocabulary of the statements *)

(** The readings the loop of [_update_job_status] obtains, in order, when it
    starts at logical time [t]. *)
Fixpoint readings_from (env : Env) (t : nat) (dag_ids : list string) : list reading :=
  match dag_ids with
  | [] => []
  | dag_id :: rest => check_dag_status env t dag_id :: readings_from env (S t) rest
  end.

(** One pass of the loop body on a reading: what it appends, if anything. *)
Definition pick (job : Job) (r : reading) : option (JobStatus.t * option Z) :=
  match fst r with
  | Some s => if eligible job r then Some (s, snd r) else None
  | None => None
  end.

(** The candidates: [all_status] and [all_execution_time] side by side. *)
Fixpoint candidates (job : Job) (rs : list reading) : list (JobStatus.t * option Z) :=
  match rs with
  | [] => []
  | r :: rest =>
      match pick job r with
      | Some c => c :: candidates job rest
      | None => candidates job rest
      end
  end.

(** The world after one, and after several, status reads. *)
Definition after_read (dag_id : string) (w : World) : World :=
  with_trace (trace w ++ [CheckDagStatus dag_id]) (with_tick (S (tick w)) w).

Definition after_reads (dag_ids : list string) (w : World) : World :=
  with_trace (trace w ++ map CheckDagStatus dag_ids)
    (with_tick (tick w + length dag_ids)%nat w).

(** The world after a status was assigned, stamped with [now] and
    committed. *)
Definition store_status (now : Z) (job_id : string) (s : JobStatus.t) (w : World) : World :=
  let rows := alter (set_status_updated_at now) job_id
                (alter (set_status (Some s)) job_id (working w)) in
  mkWorld rows rows (folders w) (backups w) (threads w) (trace w ++ [DbCommit]) (S (tick w)).

(** [_update_job_status] in closed form, for a job that exists. *)
Definition reconciled (env : Env) (job_id : string) (job : Job) (w : World)
  : Outcome unit * World :=
  let dag_ids := get_all_dag_ids env job_id in
  let cs := candidates job (readings_from env (tick w) dag_ids) in
  let w1 := after_reads dag_ids w in
  match cs.*1 with
  | [] => (Ret tt, w1)
  | s0 :: _ =>
      match merge_status s0 cs.*1 cs.*2 with
      | Ret s => (Ret tt, store_status (utcnow env (tick w1)) job_id s w1)
      | Raise e => (Raise e, w1)
      | Hang => (Hang, w1)
      end
  end.

(** The eligibility rule in the words of section 4.1 of the specification:
    the reported status is non-empty and (a) the job has no status yet, or
    (b) its status is one of created, queued, running, error, or (c) the
    reported execution time is strictly newer than [status_updated_at]. *)
Definition qualifies (job : Job) (r : reading) : Prop :=
  fst r ≠ None
  ∧ (status job = None
     ∨ (∃ s, status job = Some s
             ∧ s ∈ [JobStatus.created; JobStatus.queued; JobStatus.running; JobStatus.error])
     ∨ (∃ t, snd r = Some t ∧ status_updated_at job < t)).

(** Candidate number [i], with status [s] and time [m], is the first one
    whose execution time is maximal. *)
Definition first_latest (cs : list (JobStatus.t * option Z)) (i : nat)
    (s : JobStatus.t) (m : Z) : Prop :=
  cs !! i = Some (s, Some m)
  ∧ (∀ j c t, cs !! j = Some (c, Some t) → t ≤ m)
  ∧ (∀ j c t, (j < i)%nat → cs !! j = Some (c, Some t) → t < m).

(** Two candidates report different statuses. *)
Definition disagree (cs : list (JobStatus.t * option Z)) : Prop :=
  ∃ c c', c ∈ cs ∧ c' ∈ cs ∧ c.1 ≠ c'.1.

(** A candidate whose execution time is the maximum of the times reported. *)
Definition latest (cs : list (JobStatus.t * option Z)) (c : JobStatus.t * option Z) : Prop :=
  c ∈ cs ∧ ∃ m, c.2 = Some m ∧ ∀ c' t, c' ∈ cs → c'.2 = Some t → t ≤ m.

(** The status of a job in a table of rows. *)
Definition status_of (rows : gmap string Job) (job_id : string) : option JobStatus.t :=
  rows !! job_id ≫= status.

(** The third rule of the merge read literally: whenever the candidates
    disagree, the stored status becomes that of a latest candidate. *)
Definition latest_wins_as_stated (env : Env) (job_id : string) (job : Job) (w : World) : Prop :=
  let cs := candidates job (readings_from env (tick w) (get_all_dag_ids env job_id)) in
  disagree cs →
  ∃ c, latest cs c
       ∧ status_of (working (_update_job_status env job_id w).2) job_id = Some c.1.

Definition locked_status (st : option JobStatus.t) : Prop :=
  st = Some JobStatus.queued ∨ st = Some JobStatus.running.

(** An outcome that is the "locked" error: built by this service, code 400,
    not internal. *)
Definition is_locked_error (o : Outcome Response) : Prop :=
  ∃ d, o = Ret (Error d) ∧ err_code d = 400 ∧ err_internal d = false.

(** No error of this service with a code other than 500 comes out of [m],
    and an exception it raises is left to the handler. *)
Definition only_500 (m : M Response) : Prop :=
  ∀ w d w', m w = (Ret (Error d), w') → err_code d = 500.

(** The deferred-delete sentence of section 4.2 read literally: when
    [delete(delayed=true)] returns, no execution unit was removed from the
    orchestrator and the row is still there while the delayed step is
    pending. *)
Definition delayed_delete_as_stated (env : Env) (fuel : nat) (user job_id : string)
    (w : World) : Prop :=
  ∀ r w', delete env fuel user job_id true w = (Ret r, w') →
    (∀ dag_id, AirflowDeleteDag dag_id ∉ trace w')
    ∧ ((∃ u, DelayedDelete u job_id ∈ threads w') → is_Some (committed w' !! job_id)).

(** The job folder once the [STOP] marker is in it. *)
Definition marked (f : JobFolder) : JobFolder :=
  mkFolder (result_files f)
    (if bool_decide ("STOP"%string ∈ other_files f) then other_files f
     else other_files f ++ ["STOP"%string]).

(** The world after the stop marker was written and the orchestrator was
    polled once. *)
Definition stopped (user job_id : string) (f : JobFolder) (w : World) : World :=
  mkWorld (committed w) (working w)
    (<[(user, job_id) := marked f]> (folders w))
    (backups w) (threads w)
    (trace w ++ [UploadStopFile user job_id; Sleep check_stop_interval;
                 CheckDagStatus job_id])
    (S (tick w)).

(** ** Sample data for the closed examples *)

Definition sample_env (answers : nat -> string -> reading) : Env :=
  mkEnv (fun j => [j +:+ "_prep"; j +:+ "_parallel"]) (fun j => j +:+ "_prep")
        answers (fun _ _ => Ret true) (fun t => 100 + Z.of_nat t) 300 "v1.0"
        (fun _ _ _ => Ret (ReplyData [])) (fun _ _ _ _ => Ret (ReplyData tt))
        (fun _ => Ret (ReplyData [])) (fun _ _ => Ret (ReplyData []))
        (fun _ _ _ => Ret "run1"%string) (fun _ _ _ => Ret tt) (fun _ _ _ => Ret tt)
        (fun _ _ _ => Ret (ReplyData (mkOutput [] None))) (fun _ _ => Ret [])
        (fun _ => "abcdefgh"%string) false.

Definition sample_job (st : option JobStatus.t) : Job :=
  mkJob "j1" "alice" "pg1" st 10 None None None None "".

Definition sample_world (st : option JobStatus.t) (results : list string) : World :=
  mkWorld {[ "j1"%string := sample_job st ]} {[ "j1"%string := sample_job st ]}
          {[ ("alice"%string, "j1"%string) := mkFolder results ["dag.py"%string] ]}
          ∅ [] [] 0.

(** The orchestrator knows nothing about the job's units. *)
Definition silent : nat -> string -> reading := fun _ _ => (None, None).

(** Every unit is reported running, last executed at 50. *)
Definition all_running : nat -> string -> reading :=
  fun _ _ => (Some JobStatus.running, Some 50).

(** The preparation unit runs (executed at 50); the parallel unit exists
    but never ran. *)
Definition prep_running : nat -> string -> reading :=
  fun _ dag_id =>
    if String.eqb dag_id "j1_prep" then (Some JobStatus.running, Some 50)
    else (Some JobStatus.created, None).

(** The preparation unit finished at 50 and the parallel one is running
    since 60. *)
Definition parallel_running : nat -> string -> reading :=
  fun _ dag_id =>
    if String.eqb dag_id "j1_prep" then (Some JobStatus.finished, Some 50)
    else (Some JobStatus.running, Some 60).

Definition no_args : JobArgs := mkJobArgs None None None None None.

(** ** Further parts of the jobs service *)

(** [map_output_format]: the table of synonyms, searched in order. *)
Definition out_map : list (list string * string) :=
  [ (["Gtiff"; "GTiff"; "tif"; "tiff"], "Gtiff");
    (["jpg"; "jpeg"], "jpeg");
    (["png"], "png") ]%string.

Fixpoint first_synonym (table : list (list string * string)) (output_format : string)
  : Outcome string :=
  match table with
  | [] => Raise ValueError
  | (synonyms, out_name) :: rest =>
      if bool_decide (output_format ∈ synonyms) then Ret out_name
      else first_synonym rest output_format
  end.

Definition map_output_format (output_format : string) : Outcome string :=
  first_synonym out_map output_format.

(** The [type_map] of [process_sync] and [d[key]] on it. *)
Record TypeMap : Type := mkTypeMap { file_extension : string; content_type : string }.

Definition type_map : list (string * TypeMap) :=
  [ ("Gtiff", mkTypeMap "tif" "image/tiff");
    ("png", mkTypeMap "png" "image/png");
    ("jpeg", mkTypeMap "jpeg" "image/jpeg") ]%string.

Fixpoint dict_getitem {A} (d : list (string * A)) (key : string) : Outcome A :=
  match d with
  | [] => Raise KeyError
  | (k, v) :: rest => if String.eqb k key then Ret v else dict_getitem rest key
  end.

(** ** Vocabulary of the further statements *)

Definition is_load_collection (n : Node) : bool :=
  String.eqb (process_id n) "load_collection".

(** The [load_collection] nodes of a process graph, in order. *)
Definition load_nodes (g : ProcessGraph) : ProcessGraph :=
  List.filter (λ p, is_load_collection p.2) g.

(** The effects of a reconciliation: status reads and commits. *)
Definition is_reconcile_event (e : Effect) : bool :=
  match e with
  | CheckDagStatus _ | DbCommit => true
  | _ => false
  end.

(** From [w] to [w'] nothing happened to folders, backups and threads, and
    the trace grew by status reads and commits only. *)
Definition extends_quietly (w w' : World) : Prop :=
  folders w' = folders w ∧ backups w' = backups w ∧ threads w' = threads w
  ∧ ∃ added, trace w' = trace w ++ added ∧ forallb is_reconcile_event added = true.

Definition quiet {A} (m : M A) : Prop :=
  ∀ w o w', m w = (o, w') → extends_quietly w w'.

(** The same environment with another data service. *)
Definition with_get_filepaths (f : nat → LoadArgs → Outcome (Reply (list string)))
    (env : Env) : Env :=
  mkEnv (get_all_dag_ids env) (get_preparation_dag_id env) (check_dag_status env)
        (trigger_dag env) (utcnow env) (SYNC_DEL_DELAY env) (OPENEO_VERSION env)
        (get_user_defined env) (put_user_defined env) (get_all_predefined env)
        f (get_latest_job_run_folder_name env) (write_and_move_job env)
        (delete_old_job_runs env) (get_job_output env) (load_metadata env)
        (generate_alphanumeric_id env) (JobLocked_internal env).

Definition sample_area : LoadArgs :=
  mkLoadArgs "s2a_prd_msil1c" 46 12 47 11 ["2018-01-01"; "2018-01-08"]%string.

(** A graph with two [load_collection] nodes around an [ndvi] node. *)
Definition sample_graph : ProcessGraph :=
  [ ("dc", mkNode "load_collection" (Some sample_area));
    ("ndvi", mkNode "ndvi" None);
    ("dc2", mkNode "load_collection" (Some sample_area)) ]%string.

Definition sample_error : ErrorDict :=
  mkErr "data" 400 "alice" (MsgText "no such collection") false [].

(** The same environment with other answers of the processes service, of
    the orchestrator's trigger and of the files service. *)
Definition with_put_user_defined
    (f : nat → string → string → ProcessArgs → Outcome (Reply unit)) (env : Env) : Env :=
  mkEnv (get_all_dag_ids env) (get_preparation_dag_id env) (check_dag_status env)
        (trigger_dag env) (utcnow env) (SYNC_DEL_DELAY env) (OPENEO_VERSION env)
        (get_user_defined env) f (get_all_predefined env)
        (get_filepaths env) (get_latest_job_run_folder_name env) (write_and_move_job env)
        (delete_old_job_runs env) (get_job_output env) (load_metadata env)
        (generate_alphanumeric_id env) (JobLocked_internal env).

Definition with_get_user_defined
    (f : nat → string → string → Outcome (Reply ProcessGraph)) (env : Env) : Env :=
  mkEnv (get_all_dag_ids env) (get_preparation_dag_id env) (check_dag_status env)
        (trigger_dag env) (utcnow env) (SYNC_DEL_DELAY env) (OPENEO_VERSION env)
        f (put_user_defined env) (get_all_predefined env)
        (get_filepaths env) (get_latest_job_run_folder_name env) (write_and_move_job env)
        (delete_old_job_runs env) (get_job_output env) (load_metadata env)
        (generate_alphanumeric_id env) (JobLocked_internal env).

Definition with_trigger_dag (f : nat → string → Outcome bool) (env : Env) : Env :=
  mkEnv (get_all_dag_ids env) (get_preparation_dag_id env) (check_dag_status env)
        f (utcnow env) (SYNC_DEL_DELAY env) (OPENEO_VERSION env)
        (get_user_defined env) (put_user_defined env) (get_all_predefined env)
        (get_filepaths env) (get_latest_job_run_folder_name env) (write_and_move_job env)
        (delete_old_job_runs env) (get_job_output env) (load_metadata env)
        (generate_alphanumeric_id env) (JobLocked_internal env).

Definition with_get_job_output
    (f : nat → string → string → Outcome (Reply JobOutput)) (env : Env) : Env :=
  mkEnv (get_all_dag_ids env) (get_preparation_dag_id env) (check_dag_status env)
        (trigger_dag env) (utcnow env) (SYNC_DEL_DELAY env) (OPENEO_VERSION env)
        (get_user_defined env) (put_user_defined env) (get_all_predefined env)
        (get_filepaths env) (get_latest_job_run_folder_name env) (write_and_move_job env)
        (delete_old_job_runs env) f (load_metadata env)
        (generate_alphanumeric_id env) (JobLocked_internal env).

(** The same environment with another content of the metadata file. *)
Definition with_load_metadata
    (f : nat → string → Outcome (list (string * string))) (env : Env) : Env :=
  mkEnv (get_all_dag_ids env) (get_preparation_dag_id env) (check_dag_status env)
        (trigger_dag env) (utcnow env) (SYNC_DEL_DELAY env) (OPENEO_VERSION env)
        (get_user_defined env) (put_user_defined env) (get_all_predefined env)
        (get_filepaths env) (get_latest_job_run_folder_name env) (write_and_move_job env)
        (delete_old_job_runs env) (get_job_output env) f
        (generate_alphanumeric_id env) (JobLocked_internal env).

Definition sample_output : JobOutput :=
  mkOutput ["alice/jobs/j1/result/ndvi.tif"; "alice/jobs/j1/result/ndvi.png"]%string
           (Some "/data/alice/jobs/j1/result/results_metadata.json"%string).

Definition sample_api : ApiSpec := mkApiSpec ["https://openeo.example.org"%string] "0.9.0".

Definition sample_process : ProcessArgs := mkProcessArgs (Some "pg2"%string) sample_graph.

(** The world after [setup_jobs_result_folder]. *)
Definition with_result_folder (user job_id : string) (w : World) : World :=
  match folders w !! (user, job_id) with
  | Some _ => w
  | None => with_folders (<[(user, job_id) := mkFolder [] []]> (folders w)) w
  end.

(** The world in which [process] has written the job's units and asked
    the orchestrator to trigger the preparation unit: the result folder is
    set up, [asked] requests went to other services since reconciliation,
    and the trace shows the write and the trigger. *)
Definition triggered (env : Env) (user job_id : string) (asked : nat) (w1 : World) : World :=
  with_trace (trace w1 ++ [WriteDag job_id; TriggerDag (get_preparation_dag_id env job_id)])
    (with_tick (tick w1 + asked)%nat (with_result_folder user job_id w1)).

(** The orchestrator learns of the units only after the trigger: silent
    for the first two reads, queued afterwards. *)
Definition queued_after_trigger : nat → string → reading :=
  λ t _, if (t <? 2)%nat then (None, None) else (Some JobStatus.queued, Some 120).

(** A job that was created and never processed: a row, no folder. *)
Definition unprocessed_world : World :=
  mkWorld {[ "j1"%string := sample_job (Some JobStatus.created) ]}
          {[ "j1"%string := sample_job (Some JobStatus.created) ]}
          ∅ ∅ [] [] 0.

(** The order in which [process] may act on the orchestrator: status reads
    and commits, then the writing of the job's units, directly followed by
    the trigger of the preparation unit, then status reads and commits
    again.  Every other effect is out of order. *)
Inductive Phase : Type := preparing | written | started.

Definition process_phase (job_id preparation : string) (p : Phase) (e : Effect)
  : option Phase :=
  match p, e with
  | preparing, (CheckDagStatus _ | DbCommit) => Some preparing
  | preparing, WriteDag j => if String.eqb j job_id then Some written else None
  | written, TriggerDag d => if String.eqb d preparation then Some started else None
  | started, (CheckDagStatus _ | DbCommit) => Some started
  | _, _ => None
  end.

Fixpoint run_phases (step : Phase → Effect → option Phase) (p : Phase)
    (events : list Effect) : option Phase :=
  match events with
  | [] => Some p
  | e :: rest =>
      match step p e with
      | Some p' => run_phases step p' rest
      | None => None
      end
  end.

(** From [w] to [w'] no folder was removed or changed, no backup folder
    and no thread was touched, and the events added to the trace lead the
    protocol from phase [p] to phase [q]. *)
Definition advances (step : Phase → Effect → option Phase) (p q : Phase)
    (w w' : World) : Prop :=
  backups w' = backups w ∧ threads w' = threads w
  ∧ (∀ k f, folders w !! k = Some f → folders w' !! k = Some f)
  ∧ ∃ added, trace w' = trace w ++ added ∧ run_phases step p added = Some q.

(** [m] leads from phase [p] to phase [p'] when it returns, and to some
    phase in any case. *)
Definition follows {A} (step : Phase → Effect → option Phase) (p p' : Phase)
    (m : M A) : Prop :=
  ∀ w o w', m w = (o, w') →
    ∃ q, advances step p q w w' ∧ ∀ a, o = Ret a → q = p'.

Definition within {A} (step : Phase → Effect → option Phase) (p : Phase)
    (m : M A) : Prop :=
  ∀ w o w', m w = (o, w') → ∃ q, advances step p q w w'.

(** From [w] to [w'] the rows of all jobs but [jid] are as they were in
    the session, and persisted either as before or as the session has
    them. *)
Definition others_untouched (jid : string) (w w' : World) : Prop :=
  ∀ other, other ≠ jid →
    working w' !! other = working w !! other
    ∧ (committed w' !! other = committed w !! other
       ∨ committed w' !! other = working w !! other).

(** Two rows with the same identifier and the same owner. *)
Definition same_identity (j j' : Job) : Prop :=
  job_id j' = job_id j ∧ user_id j' = user_id j.

(** From [w] to [w'] the row of job [jid], if there is one, is still in
    the session and has the identifier and the owner it had. *)
Definition row_survives (jid : string) (w w' : World) : Prop :=
  ∀ j, working w !! jid = Some j →
    ∃ j', working w' !! jid = Some j' ∧ same_identity j j'.

(** Every run of [m] relates the world before to the world after by [R]. *)
Definition keeps {A} (R : World → World → Prop) (m : M A) : Prop :=
  ∀ w o w', m w = (o, w') → R w w'.

(** [m] leaves rows and session alone. *)
Definition db_frame {A} (m : M A) : Prop :=
  ∀ w o w', m w = (o, w') → working w' = working w ∧ committed w' = committed w.

(** ** The files service: paths of user files
    (services/files/files/service.py)

    The operating system and [werkzeug]'s [safe_join] are an interface
    [Os] over an abstract disk: the service only threads the disk through
    them.  The exceptions the service builds are serialized under the
    service name ["files"]. *)

Module UserFiles.

(** [s.split(sep)] for a separator of one character. *)
Fixpoint py_split (sep : Ascii.ascii) (s : string) : list string :=
  match s with
  | EmptyString => [EmptyString]
  | String c s' =>
      if Ascii.eqb c sep then EmptyString :: py_split sep s'
      else match py_split sep s' with
           | part :: parts => String c part :: parts
           | [] => [String c EmptyString]
           end
  end.

(** [parts.pop(-1)]: the last element and the list left. *)
Fixpoint pop_last (parts : list string) : option (list string * string) :=
  match parts with
  | [] => None
  | [x] => Some ([], x)
  | x :: rest =>
      match pop_last rest with
      | Some (init, y) => Some (x :: init, y)
      | None => None
      end
  end.

(** [s.replace(old, '')]: the occurrences of [old] are removed from left
    to right, the search going on after each one; [skip] counts the
    characters of an occurrence still to drop. *)
Fixpoint remove_from (old : string) (skip : nat) (s : string) : string :=
  match s with
  | EmptyString => EmptyString
  | String c s' =>
      match skip with
      | S k => remove_from old k s'
      | O =>
          if String.prefix old s then remove_from old (Nat.pred (String.length old)) s'
          else String c (remove_from old 0 s')
      end
  end.

Definition py_remove (old s : string) : string :=
  match old with
  | EmptyString => s
  | _ => remove_from old 0 s
  end.

(** *** The two name patterns *)

Definition between (lo hi : nat) (c : Ascii.ascii) : bool :=
  (lo <=? Ascii.nat_of_ascii c)%nat && (Ascii.nat_of_ascii c <=? hi)%nat.

(** The class [[a-zA-Z0-9]]. *)
Definition alnum (c : Ascii.ascii) : bool :=
  between 97 122 c || between 65 90 c || between 48 57 c.

(** The class [[a-zA-Z0-9_-]]. *)
Definition name_char (c : Ascii.ascii) : bool :=
  alnum c || between 95 95 c || between 45 45 c.

Definition dot : Ascii.ascii := Ascii.ascii_of_nat 46.

Fixpoint all_chars (p : Ascii.ascii → bool) (s : string) : bool :=
  match s with
  | EmptyString => true
  | String c s' => p c && all_chars p s'
  end.

(** [re.fullmatch] of a class repeated [{lo,hi}] times. *)
Definition repeated (p : Ascii.ascii → bool) (lo hi : nat) (s : string) : bool :=
  all_chars p s && (lo <=? String.length s)%nat && (String.length s <=? hi)%nat.

(** [s] cut at its first [sep]. *)
Fixpoint cut (sep : Ascii.ascii) (s : string) : option (string * string) :=
  match s with
  | EmptyString => None
  | String c s' =>
      if Ascii.eqb c sep then Some (EmptyString, s')
      else match cut sep s' with
           | Some (before, after) => Some (String c before, after)
           | None => None
           end
  end.

(** [re.fullmatch(allowed_dirname, s) is not None], for
    [allowed_dirname = [a-zA-Z0-9_-]{1,200}]. *)
Definition allowed_dirname (s : string) : bool := repeated name_char 1 200 s.

(** [re.fullmatch(allowed_filename, s) is not None], for
    [allowed_filename = [a-zA-Z0-9_-]{1,200}\.[a-zA-Z0-9]{1,10}]: neither
    class has the dot, so the dot of the pattern is the first one of [s]
    and the only one. *)
Definition allowed_filename (s : string) : bool :=
  match cut dot s with
  | Some (stem, extension) => repeated name_char 1 200 stem && repeated alnum 1 10 extension
  | None => false
  end.

Definition files_folder : string := "files".
Definition jobs_folder : string := "jobs".
Definition result_folder : string := "result".

(** *** [os.path.split] *)

(** [s] cut after its last slash, if it has one. *)
Fixpoint cut_last_slash (s : string) : option (string * string) :=
  match s with
  | EmptyString => None
  | String c s' =>
      match cut_last_slash s' with
      | Some (head, tail) => Some (String c head, tail)
      | None => if Ascii.eqb c slash then Some (String c EmptyString, s') else None
      end
  end.

(** [s.rstrip('/')] *)
Fixpoint rstrip_slash (s : string) : string :=
  match s with
  | EmptyString => EmptyString
  | String c s' =>
      match rstrip_slash s' with
      | EmptyString => if Ascii.eqb c slash then EmptyString else String c EmptyString
      | r => String c r
      end
  end.

Definition os_path_split (p : string) : string * string :=
  match cut_last_slash p with
  | None => (EmptyString, p)
  | Some (head, tail) =>
      (if all_chars (Ascii.eqb slash) head then head else rstrip_slash head, tail)
  end.

(** *** The operating system, the settings and [safe_join] *)

Record Os (Disk : Type) : Type := mkOs {
  OPENEO_FILES_DIR : string;                          (* settings *)
  path_exists : Disk → string → bool;                 (* os.path.exists *)
  path_isdir : Disk → string → bool;                  (* os.path.isdir *)
  makedirs : string → Disk → Outcome unit * Disk;     (* os.makedirs *)
  remove : string → Disk → Outcome unit * Disk;       (* os.remove *)
  rename : string → string → Disk → Outcome unit * Disk;  (* os.rename *)
  getsize : Disk → string → Outcome Z;                (* os.path.getsize *)
  getmtime : Disk → string → Outcome Z;               (* os.path.getmtime *)
  glob : Disk → string → list string;                 (* glob.glob *)
  safe_join : string → list string → option string;   (* werkzeug.security *)
}.
Arguments mkOs {Disk}.
Arguments OPENEO_FILES_DIR {Disk} _.
Arguments path_exists {Disk} _.
Arguments path_isdir {Disk} _.
Arguments makedirs {Disk} _.
Arguments remove {Disk} _.
Arguments rename {Disk} _.
Arguments getsize {Disk} _.
Arguments getmtime {Disk} _.
Arguments glob {Disk} _.
Arguments safe_join {Disk} _.

(** *** Exceptions and replies of the files service *)

(** [ServiceException.to_dict] (lines 22-61). *)
Definition to_dict (e : ServiceException) : ErrorDict :=
  mkErr "files" (exc_code e) (exc_user_id e) (exc_msg e) (exc_internal e) (exc_links e).

(** The default of [internal] in [ServiceException.__init__]. *)
Definition internal_default : bool := true.

(** [FileOperationUnsupported] passes its arguments on to
    [ServiceException]. *)
Definition FileOperationUnsupported (code : Z) (user : string) (msg : string)
    (internal : bool) (links : list string) : ServiceException :=
  mkExc code user (MsgText msg) internal links.

Inductive FileReply : Type :=
| Download (file : string)                           (* 200, octet-stream *)
| Deleted                                            (* 204 *)
| Uploaded (path : string) (size : Z) (modified : Z) (* 200 *)
| Failed (d : ErrorDict).

Section Service.

Context {Disk : Type} (os : Os Disk).

(** The service's methods thread the disk and may raise. *)
Definition F (A : Type) : Type := Disk → Outcome A * Disk.

Definition unit_ {A} (a : A) : F A := λ d, (Ret a, d).
Definition fail {A} (e : PyExc) : F A := λ d, (Raise e, d).
Definition and_then {A B} (m : F A) (k : A → F B) : F B :=
  λ d, match m d with
       | (Ret a, d') => k a d'
       | (Raise e, d') => (Raise e, d')
       | (Hang, d') => (Hang, d')
       end.
Definition look {A} (f : Disk → A) : F A := λ d, (Ret (f d), d).
Definition look_or_raise {A} (f : Disk → Outcome A) : F A := λ d, (f d, d).

(** [try: ... except Exception as exp:
     return ServiceException(500, user["id"], str(exp), links=[]).to_dict()] *)
Definition guarded (user : string) (body : F FileReply) : F FileReply :=
  λ d, match body d with
       | (Raise e, d') =>
           (Ret (Failed (to_dict (mkExc 500 user (MsgOfExc e) internal_default []))), d')
       | r => r
       end.

Definition get_user_folder (user_id : string) : string :=
  os_path_join2 (OPENEO_FILES_DIR os) user_id.

Definition get_job_id_folder (user_id job_id : string) : string :=
  os_path_join (get_user_folder user_id) [jobs_folder; job_id].

Definition get_job_results_folder (user_id job_id : string) : string :=
  os_path_join2 (get_job_id_folder user_id job_id) result_folder.

Definition create_unless_exists (d : string) : F unit :=
  and_then (look (λ disk, path_exists os disk d))
    (λ there, if there then unit_ tt else makedirs os d).

(** [setup_user_folder] returns the two paths, [files] first. *)
Definition setup_user_folder (user_id : string) : F (string * string) :=
  let user_dir := get_user_folder user_id in
  let files_dir := os_path_join2 user_dir files_folder in
  let jobs_dir := os_path_join2 user_dir jobs_folder in
  and_then (create_unless_exists files_dir) (λ _,
  and_then (create_unless_exists jobs_dir) (λ _,
  unit_ (files_dir, jobs_dir))).

Definition get_allowed_path (user_id : string) (parts : list string) (source_dir : string)
  : F (option string) :=
  and_then (setup_user_folder user_id) (λ '(files_dir, jobs_dir),
  let out_dir := if String.eqb source_dir "files" then files_dir else jobs_dir in
  match pop_last parts with
  | None => fail IndexError
  | Some (dirs, filename) =>
      if negb (forallb allowed_dirname dirs) then unit_ None
      else if negb (allowed_filename filename) then unit_ None
      else unit_ (safe_join os out_dir (dirs ++ [filename]))
  end).

(** [x if x else default] for an optional string: [None] and the empty
    string are falsy. *)
Definition or_else (x : option string) (default : string) : string :=
  match x with
  | None | Some EmptyString => default
  | Some s => s
  end.

Definition authorize_file (user_id path : string) (source_dir : option string)
  : F (ServiceException + string) :=
  let source_dir := or_else source_dir files_folder in
  and_then (get_allowed_path user_id (py_split slash path) source_dir) (λ complete_path,
  match complete_path with
  | None | Some EmptyString =>
      unit_ (inl (FileOperationUnsupported 401 user_id
                    (path +:+ ": This path is not valid.") false []))
  | Some complete =>
      and_then (look (λ disk, path_isdir os disk complete)) (λ is_dir,
      if is_dir then
        unit_ (inl (FileOperationUnsupported 400 user_id
                      (path +:+ ": Must be a file, no directory.") false []))
      else unit_ (inr complete))
  end).

Definition authorize_existing_file (user_id path : string) (source_dir : string)
  : F (ServiceException + string) :=
  and_then (authorize_file user_id path (Some source_dir)) (λ response,
  match response with
  | inr complete =>
      and_then (look (λ disk, path_exists os disk complete)) (λ there,
      if there then unit_ response
      else unit_ (inl (FileOperationUnsupported 404 user_id
                         (path +:+ ": No such file or directory.") false [])))
  | inl _ => unit_ response
  end).

Definition complete_to_public_path (user_id complete_path : string) : string :=
  py_remove (get_user_folder user_id +:+ "/" +:+ files_folder +:+ "/") complete_path.

Definition download (user path : string) (source_dir : option string) : F FileReply :=
  guarded user (
    let source_dir := or_else source_dir files_folder in
    and_then (authorize_existing_file user path source_dir) (λ response,
    match response with
    | inl exc => unit_ (Failed (to_dict exc))
    | inr file => unit_ (Download file)
    end)).

Definition download_result (user path : string) : F FileReply :=
  download user path (Some "jobs"%string).

Definition delete (user path : string) : F FileReply :=
  guarded user (
    and_then (authorize_existing_file user path "files") (λ response,
    match response with
    | inl exc => unit_ (Failed (to_dict exc))
    | inr file => and_then (remove os file) (λ _, unit_ Deleted)
    end)).

Definition upload (user path tmp_path : string) : F FileReply :=
  guarded user (
    and_then (authorize_file user path None) (λ response,
    match response with
    | inl exc => and_then (remove os tmp_path) (λ _, unit_ (Failed (to_dict exc)))
    | inr complete_path =>
        let dirs := (os_path_split complete_path).1 in
        and_then (look (λ disk, path_exists os disk dirs)) (λ there,
        and_then (if there then unit_ tt else makedirs os dirs) (λ _,
        and_then (rename os tmp_path complete_path) (λ _,
        and_then (look_or_raise (λ disk, getsize os disk complete_path)) (λ size,
        and_then (look_or_raise (λ disk, getmtime os disk complete_path)) (λ modified,
        unit_ (Uploaded (complete_to_public_path user complete_path) size modified))))))
    end)).

(** [get_job_output]: nothing in its [try] block raises here. *)
Definition get_job_output (user_id job_id : string) : F (Reply JobOutput) :=
  and_then (look (λ disk, glob os disk
                            (os_path_join2 (get_job_results_folder user_id job_id) "*")))
    (λ file_list,
     match file_list with
     | [] =>
         unit_ (ReplyError (to_dict (mkExc 400 user_id
                  (MsgText "Job output folder is empty. No files generated.")
                  internal_default [])))
     | _ =>
         unit_ (ReplyData (mkOutput (map (complete_to_public_path user_id) file_list) None))
     end).

End Service.

End UserFiles.

(** *** Vocabulary of the statements on paths *)

(** ["/".join(parts)] *)
Fixpoint py_join (parts : list string) : string :=
  match parts with
  | [] => EmptyString
  | [part] => part
  | part :: rest => part +:+ "/" +:+ py_join rest
  end.

(** A name that is made of letters, digits, [_], [-] and dots and is none
    of the empty name, [.] and [..]: the names [safe_join] joins as they
    are. *)
Definition plain (part : string) : Prop :=
  UserFiles.all_chars (λ c, UserFiles.name_char c || Ascii.eqb c UserFiles.dot) part = true
  ∧ part ≠ ""%string ∧ part ≠ "."%string ∧ part ≠ ".."%string.

(** [safe_join] on plain names is [posixpath.join]. *)
Definition joins_plain_names {Disk} (os : UserFiles.Os Disk) : Prop :=
  ∀ directory parts, Forall plain parts →
    UserFiles.safe_join os directory parts = Some (os_path_join directory parts).

(** The folder below which a request for [source_dir] is served. *)
Definition out_dir {Disk} (os : UserFiles.Os Disk) (user source_dir : string) : string :=
  os_path_join2 (UserFiles.get_user_folder os user)
    (if String.eqb source_dir "files" then "files" else "jobs").

(** [old] occurs in [s]. *)
Definition occurs (old s : string) : Prop := ∃ a b, s = a +:+ old +:+ b.

(** A disk given by the paths of its files, for the closed examples:
    nothing is a directory, creating one changes nothing. *)
Definition sample_os : UserFiles.Os (list string) :=
  UserFiles.mkOs "/data"
    (λ disk p, bool_decide (p ∈ disk)) (λ _ _, false)
    (λ _ disk, (Ret tt, disk))
    (λ p disk, if bool_decide (p ∈ disk) then (Ret tt, List.filter (λ q, negb (String.eqb q p)) disk)
               else (Raise FileNotFoundError, disk))
    (λ a b disk, if bool_decide (a ∈ disk)
                 then (Ret tt, b :: List.filter (λ q, negb (String.eqb q a)) disk)
                 else (Raise FileNotFoundError, disk))
    (λ disk p, if bool_decide (p ∈ disk) then Ret 1 else Raise FileNotFoundError)
    (λ disk p, if bool_decide (p ∈ disk) then Ret 0 else Raise FileNotFoundError)
    (λ disk pattern, List.filter (String.prefix (UserFiles.os_path_split pattern).1) disk)
    (λ directory parts, Some (os_path_join directory parts)).

(** ** Creating a job and running one synchronously
    ([create] and [process_sync] of services/jobs/jobs/service.py) *)

(** Modelled from the spec: [jobs/schema.py] and [jobs/models.py] are not
    part of the sources.  [JobCreateSchema().load(job_args)] is given the
    job arguments left after [pop("process")], the two flags
    [process_sync] adds, the process graph id and the user id; it yields
    the job object, taken here with the identifier it gets at creation
    (section 3: a unique job identifier, generated at creation), or
    raises.  The other entries are what [create] and [process_sync]
    consult besides [Env]: the orchestrator, the dag handler and
    [get_job_output(user_id, job_id, internal=True)] of the files
    service. *)
Record Backend : Type := mkBackend {
  JobCreateSchema_load :
    nat → JobArgs → option bool → option bool → string → string → Outcome Job;
  unpause_dag : nat → string → bool → Outcome unit;
  get_non_parallel_dag_id : string → string;
  get_job_output_internal : nat → string → string → Outcome (Reply JobOutput);
}.

(** What [create] and [process_sync] return: one of the envelopes of the
    other methods, or a success envelope with headers. *)
Inductive Envelope : Type :=
| Plain (r : Response)
| Created (location identifier : string)                    (* 201 *)
| File (content_type : string) (costs : Z) (file : string). (* 200 *)

(** [l[-1]] *)
Definition py_last {A} (l : list A) : Outcome A :=
  match last l with
  | Some x => Ret x
  | None => Raise IndexError
  end.

(** Modelled from the spec: [str(job.status)] in the message of
    [process_sync], for the enumeration of section 3. *)
Definition status_str (st : option JobStatus.t) : string :=
  match st with
  | None => "None"
  | Some JobStatus.created => "JobStatus.created"
  | Some JobStatus.queued => "JobStatus.queued"
  | Some JobStatus.running => "JobStatus.running"
  | Some JobStatus.canceled => "JobStatus.canceled"
  | Some JobStatus.error => "JobStatus.error"
  | Some JobStatus.finished => "JobStatus.finished"
  end.

(** Modelled from the spec: [self.db.add(job)] for a new job object puts
    the row under the job's identifier; the identifier is unique
    (section 3), so one the table already has is refused. *)
Definition db_add (job : Job) : M unit :=
  λ w, match working w !! job_id job with
       | Some _ => (Raise (RemoteError "IntegrityError"), w)
       | None => (Ret tt, with_working (<[job_id job := job]> (working w)) w)
       end.

Section SyncService.

Variable env : Env.
Variable backend : Backend.

(** [try: ... except Exception as exp: return ServiceException(500, ...)]
    around a method that returns an envelope with headers. *)
Definition handle_envelope (user : string) (links : list string) (body : M Envelope)
  : M Envelope :=
  λ w, match body w with
       | (Raise e, w') =>
           (Ret (Plain (Error (to_dict (mkExc 500 user (MsgOfExc e) default_internal links)))),
            w')
       | r => r
       end.

(** [create]; [vrt_flag] and [add_parallel_sensor] are the two entries
    [process_sync] adds to [job_args]. *)
Definition create (user : string) (job_args : JobArgs)
    (vrt_flag add_parallel_sensor : option bool) : M Envelope :=
  handle_envelope user ["#tag/Job-Management/paths/~1jobs/post"%string] (
    match arg_process job_args with
    | None => raise KeyError
    | Some process =>
        let! process_graph_id :=
          match given_id process with
          | Some i => ret i
          | None => call (λ t, Ret (generate_alphanumeric_id env t))
          end in
        let! process_response :=
          call (λ t, put_user_defined env t user process_graph_id process) in
        match process_response with
        | ReplyError d => ret (Plain (Forwarded d))
        | ReplyData _ =>
            let! job :=
              call (λ t, JobCreateSchema_load backend t job_args vrt_flag
                           add_parallel_sensor process_graph_id user) in
            db_add job ;;
            db_commit ;;
            (* the second [self.db.add(job)] finds the job in the session *)
            db_commit ;;
            ret (Created ("jobs/" +:+ job_id job) (job_id job))
        end
    end).

(** The loop [while job.status in [queued, running]] of [process_sync];
    [job] is the object queried before [process] was called. *)
Fixpoint sync_wait (fuel : nat) (job : option Job) (job_id : string) : M unit :=
  let! st :=
    match job with
    | None => raise AttributeError
    | Some _ => job_attr job_id status
    end in
  if status_in st [JobStatus.queued; JobStatus.running] then
    match fuel with
    | O => hang
    | S fuel' =>
        sleep 10 ;;
        _update_job_status env job_id ;;
        sync_wait fuel' job job_id
    end
  else ret tt.

Definition process_sync (fuel : nat) (user : string) (job_args : JobArgs) : M Envelope :=
  handle_envelope user [] (
    let! response_create := create user job_args (Some false) (Some false) in
    match response_create with
    | Plain (Error _) | Plain (Forwarded _) => ret response_create
    | Plain (Success _ _) | File _ _ _ => raise KeyError
    | Created location _ =>
        let! job_id := lift (py_last (UserFiles.py_split slash location)) in
        let! job := db_query_first job_id in
        let! response_process := process env user job_id in
        match response_process with
        | Error _ | Forwarded _ => ret (Plain response_process)
        | Success _ _ =>
            _update_job_status env job_id ;;
            sync_wait fuel job job_id ;;
            let! st :=
              match job with
              | None => raise AttributeError
              | Some _ => job_attr job_id status
              end in
            if status_in st [JobStatus.error; JobStatus.canceled] then
              ret (Plain (Error (to_dict
                     (mkExc 400 user
                        (MsgText ("Job " +:+ job_id +:+ " has status: "
                                  +:+ status_str st +:+ "."))
                        default_internal []))))
            else
              call (λ t, unpause_dag backend t (get_non_parallel_dag_id backend job_id) false) ;;
              let! response_files :=
                call (λ t, get_job_output_internal backend t user job_id) in
              match response_files with
              | ReplyError d => ret (Plain (Forwarded d))
              | ReplyData out =>
                  let! filepath := lift (py_getitem (file_list out) 0) in
                  let! fmt :=
                    lift (match py_last (UserFiles.py_split UserFiles.dot filepath) with
                          | Ret extension => map_output_format extension
                          | Raise e => Raise e
                          | Hang => Hang
                          end) in
                  delete env fuel user job_id true ;;
                  let! entry := lift (dict_getitem type_map fmt) in
                  ret (File (content_type entry) 0 filepath)
              end
        end
    end).

End SyncService.

(** The job's units run until logical time [n] and are finished from then
    on. *)
Definition finished_from (n : nat) : nat → string → reading :=
  λ t _, if (t <? n)%nat then (Some JobStatus.running, Some 50)
         else (Some JobStatus.finished, Some 60).

(** A backend whose files service lists one result. *)
Definition sample_backend (result : string) : Backend :=
  mkBackend (λ _ _ _ _ graph user,
               Ret (mkJob "j2" user graph (Some JobStatus.created) 10 None None None None ""))
            (λ _ _ _, Ret tt) (λ j, j +:+ "_prep")
            (λ _ _ _, Ret (ReplyData (mkOutput [result] None))).

(** The orchestrator knows nothing of the job's units before logical time
    [n] and reports them finished from then on. *)
Definition unknown_until (n : nat) : nat → string → reading :=
  λ t _, if (t <? n)%nat then (None, None) else (Some JobStatus.finished, Some 60).

(** From [w] to [w'] no thread was started and no row left the session. *)
Definition nothing_dropped (w w' : World) : Prop :=
  threads w' = threads w
  ∧ ∀ id, is_Some (working w !! id) → is_Some (working w' !! id).

(** [m] starts no thread and leaves the session's rows alone. *)
Definition idle {A} (m : M A) : Prop :=
  ∀ w o w', m w = (o, w') → threads w' = threads w ∧ working w' = working w.

(** Every run of [m] that does not answer with a file relates the world
    before to the world after by [R]. *)
Definition unless_file (R : World → World → Prop) (m : M Envelope) : Prop :=
  ∀ w o w', m w = (o, w') → (∀ ct costs file, o ≠ Ret (File ct costs file)) → R w w'.

(** The readings that carry a status, as the pairs the loop of
    [_update_job_status] would append for them. *)
Fixpoint reported (rs : list reading) : list (JobStatus.t * option Z) :=
  match rs with
  | [] => []
  | r :: rest =>
      match fst r with
      | Some s => (s, snd r) :: reported rest
      | None => reported rest
      end
  end.

(** Whether the loop appends a reported pair for [job]. *)
Definition admits (job : Job) (c : JobStatus.t * option Z) : bool :=
  eligible job (Some c.1, c.2).

(** * Properties *)

(** ** Basic facts *)

Lemma JobStatus_eqb_eq a b : JobStatus.eqb a b = true <-> a = b.
Proof. destruct a, b; simpl; split; intros H; try reflexivity; discriminate H. Qed.

Lemma JobStatus_eqb_refl a : JobStatus.eqb a a = true.
Proof. now destruct a. Qed.

Lemma JobStatus_eqb_neq a b : JobStatus.eqb a b = false <-> a ≠ b.
Proof.
  split.
  - intros H ->. now rewrite JobStatus_eqb_refl in H.
  - intros H. destruct (JobStatus.eqb a b) eqn:E; [|reflexivity].
    now apply JobStatus_eqb_eq in E.
Qed.

Lemma after_reads_cons d rest w :
  after_reads (d :: rest) w = after_reads rest (after_read d w).
Proof.
  destruct w; unfold after_reads, after_read, with_trace, with_tick; cbn.
  rewrite <- app_assoc. cbn. f_equal. lia.
Qed.

Lemma after_reads_nil w : after_reads [] w = w.
Proof.
  destruct w; unfold after_reads, with_trace, with_tick; cbn.
  rewrite app_nil_r, Nat.add_0_r. reflexivity.
Qed.

(** ** The eligibility rule *)

Lemma eligible_qualifies job r : eligible job r = true ↔ qualifies job r.
Proof.
  destruct r as [s t]. unfold eligible, qualifies. cbn [fst snd].
  rewrite andb_true_iff, !orb_true_iff. split.
  - intros [Hs Hc]. split; [destruct s; [discriminate|discriminate Hs]|].
    destruct Hc as [[Hc|Hc]|Hc].
    + left. destruct (status job); [discriminate Hc|reflexivity].
    + right; left. destruct (status job) as [x|]; [|discriminate Hc].
      exists x. split; [reflexivity|]. cbn in Hc.
      destruct x; cbn in Hc; try discriminate Hc;
        apply list_elem_of_In; cbn; tauto.
    + right; right. destruct t as [t|]; [|discriminate Hc].
      exists t. split; [reflexivity|]. now apply Z.ltb_lt.
  - intros [Hs Hc]. split; [destruct s; [reflexivity|congruence]|].
    destruct Hc as [Hc|[(x & Hx & Hin)|(t' & -> & Hlt)]].
    + left; left. now rewrite Hc.
    + left; right. rewrite Hx. cbn.
      apply list_elem_of_In in Hin. cbn in Hin.
      destruct x; try reflexivity; exfalso; intuition discriminate.
    + right. now apply Z.ltb_lt.
Qed.

Lemma pick_Some job r c :
  pick job r = Some c ↔ r = (Some c.1, c.2) ∧ qualifies job r.
Proof.
  rewrite <- eligible_qualifies. unfold pick. destruct r as [[s|] t]; cbn [fst snd].
  - destruct (eligible job (Some s, t)) eqn:E.
    + split.
      * intros [= <-]. now split.
      * intros [[= -> ->] _]. now destruct c.
    + split; [discriminate|]. intros [_ H]. discriminate H.
  - split; [discriminate|]. intros [H _]. discriminate H.
Qed.

Lemma elem_of_candidates job rs c :
  c ∈ candidates job rs ↔ ∃ r, r ∈ rs ∧ pick job r = Some c.
Proof.
  induction rs as [|r rs IH]; cbn.
  - split; [intros H; inversion H|intros (r & H & _); inversion H].
  - destruct (pick job r) as [c'|] eqn:E.
    + rewrite elem_of_cons, IH. split.
      * intros [->|(r' & Hr' & Hp)]; [exists r; split; [left|exact E]|].
        exists r'. split; [now right|exact Hp].
      * intros (r' & Hr' & Hp). apply elem_of_cons in Hr' as [->|Hr'].
        -- left. congruence.
        -- right. now exists r'.
    + rewrite IH. split.
      * intros (r' & Hr' & Hp). exists r'. split; [now right|exact Hp].
      * intros (r' & Hr' & Hp). apply elem_of_cons in Hr' as [->|Hr']; [congruence|].
        now exists r'.
Qed.

Lemma elem_of_readings_from env dag_ids : ∀ t r,
  r ∈ readings_from env t dag_ids ↔
  ∃ k dag_id, dag_ids !! k = Some dag_id ∧ r = check_dag_status env (t + k) dag_id.
Proof.
  induction dag_ids as [|d rest IH]; intros t r; cbn.
  - split; [intros H; inversion H|intros (k & x & H & _); discriminate H].
  - rewrite elem_of_cons, IH. split.
    + intros [->|(k & x & Hk & ->)].
      * exists 0%nat, d. split; [reflexivity|]. now rewrite Nat.add_0_r.
      * exists (S k), x. split; [exact Hk|]. now rewrite Nat.add_succ_r.
    + intros ([|k] & x & Hk & ->); cbn in Hk.
      * left. injection Hk as ->. now rewrite Nat.add_0_r.
      * right. exists k, x. split; [exact Hk|]. now rewrite Nat.add_succ_r.
Qed.

(** ** The loop and the closed form of [_update_job_status] *)

Lemma collect_cons env job d rest ss ts w :
  collect env (Some job) (d :: rest) ss ts w =
  match pick job (check_dag_status env (tick w) d) with
  | Some c => collect env (Some job) rest (ss ++ [c.1]) (ts ++ [c.2]) (after_read d w)
  | None => collect env (Some job) rest ss ts (after_read d w)
  end.
Proof.
  unfold pick. cbn [collect]. unfold bind at 1. unfold airflow_check_dag_status.
  unfold bind, next_tick, emit, ret. cbn [fst snd tick trace].
  change (with_trace _ (with_tick _ w)) with (after_read d w).
  destruct (check_dag_status env (tick w) d) as [[s|] t]; cbn [fst snd]; [|reflexivity].
  destruct (eligible job (Some s, t)); reflexivity.
Qed.

Lemma collect_candidates env job dag_ids : ∀ all_status all_execution_time w,
  collect env (Some job) dag_ids all_status all_execution_time w =
  (Ret (all_status ++ (candidates job (readings_from env (tick w) dag_ids)).*1,
        all_execution_time ++ (candidates job (readings_from env (tick w) dag_ids)).*2),
   after_reads dag_ids w).
Proof.
  induction dag_ids as [|d rest IH]; intros ss ts w.
  - cbn. rewrite !app_nil_r, after_reads_nil. reflexivity.
  - rewrite collect_cons, after_reads_cons.
    cbn [readings_from candidates].
    destruct (pick job (check_dag_status env (tick w) d)) as [c|]; rewrite IH.
    + cbn. rewrite <- !app_assoc. reflexivity.
    + reflexivity.
Qed.

Lemma set_job_status_eq env job_id job s w :
  working w !! job_id = Some job →
  _set_job_status env job_id s w = (Ret tt, store_status (utcnow env (tick w)) job_id s w).
Proof.
  intros H. unfold _set_job_status, bind, db_query_first. rewrite H.
  destruct w; reflexivity.
Qed.

Lemma update_job_status_eq env job_id job w :
  working w !! job_id = Some job →
  _update_job_status env job_id w = reconciled env job_id job w.
Proof.
  intros H. unfold _update_job_status, reconciled.
  unfold bind at 1. unfold db_query_first. rewrite H.
  unfold bind at 1. rewrite collect_candidates. cbn [app].
  destruct ((candidates job _).*1) as [|s0 ss] eqn:E.
  - unfold bind, ret. reflexivity.
  - set (ts := (candidates job _).*2).
    unfold bind at 1. unfold bind at 1. unfold lift.
    destruct (merge_status s0 (s0 :: ss) ts) as [s|e|]; reflexivity.
Qed.

Lemma store_status_working now job_id s job w :
  working w !! job_id = Some job →
  working (store_status now job_id s w) !! job_id
  = Some (set_status_updated_at now (set_status (Some s) job)).
Proof.
  intros H. cbn. rewrite !lookup_alter_eq, H. reflexivity.
Qed.

Lemma store_status_committed now job_id s w :
  committed (store_status now job_id s w) = working (store_status now job_id s w).
Proof. reflexivity. Qed.

(** C2. During reconciliation, a unit's reported (status, time) pair is
    collected as a candidate if and only if the status is non-empty and
    the job has no status yet, or its status is one of created, queued,
    running, error, or the reported time is strictly newer than the job's
    [status_updated_at]; and nothing but such reported pairs is collected. *)
Theorem candidate_iff_qualifies env job dag_ids w :
  ∃ all_status all_execution_time w',
    collect env (Some job) dag_ids [] [] w = (Ret (all_status, all_execution_time), w')
    ∧ length all_status = length all_execution_time
    ∧ (∀ k dag_id, dag_ids !! k = Some dag_id →
         let r := check_dag_status env (tick w + k) dag_id in
         (∃ s, r.1 = Some s ∧ (s, r.2) ∈ zip all_status all_execution_time)
         ↔ qualifies job r)
    ∧ (∀ s t, (s, t) ∈ zip all_status all_execution_time →
         ∃ k dag_id, dag_ids !! k = Some dag_id
                     ∧ check_dag_status env (tick w + k) dag_id = (Some s, t)).
Proof.
  set (cs := candidates job (readings_from env (tick w) dag_ids)).
  exists cs.*1, cs.*2, (after_reads dag_ids w).
  split; [apply collect_candidates|].
  split; [now rewrite !length_fmap|].
  rewrite zip_fst_snd. split.
  - intros k d Hk r. split.
    + intros (s & Hs & Hin). apply elem_of_candidates in Hin as (r' & _ & Hp).
      apply pick_Some in Hp as [-> Hq]. cbn in Hq.
      destruct r as [r1 r2]. cbn in Hs. subst r1. exact Hq.
    + intros Hq. destruct r as [[s|] t] eqn:Er; [|now destruct Hq].
      exists s. split; [reflexivity|]. apply elem_of_candidates.
      exists (Some s, t). split.
      * apply elem_of_readings_from. exists k, d. now split.
      * apply pick_Some. now split.
  - intros s t Hin. apply elem_of_candidates in Hin as (r & Hr & Hp).
    apply pick_Some in Hp as [-> _].
    apply elem_of_readings_from in Hr as (k & d & Hk & Hr). now exists k, d.
Qed.

(** ** The merge of the candidates *)

Lemma py_max_from_present (zs : list Z) : ∀ a,
  py_max_from (Some a) (Some <$> zs) = Ret (Some (fold_left Z.max zs a)).
Proof.
  induction zs as [|b zs IH]; intros a; cbn; [reflexivity|].
  destruct (Z.ltb_spec a b).
  - rewrite IH. now rewrite Z.max_r by lia.
  - rewrite IH. now rewrite Z.max_l by lia.
Qed.

Lemma fold_max_bounds (zs : list Z) : ∀ a,
  a ≤ fold_left Z.max zs a
  ∧ (∀ z, z ∈ zs → z ≤ fold_left Z.max zs a)
  ∧ (fold_left Z.max zs a = a ∨ fold_left Z.max zs a ∈ zs).
Proof.
  induction zs as [|b zs IH]; intros a; cbn.
  - split; [lia|]. split; [|now left]. intros z Hz. inversion Hz.
  - destruct (IH (Z.max a b)) as (H1 & H2 & H3). split; [lia|]. split.
    + intros z Hz. apply elem_of_cons in Hz as [->|Hz]; [lia|auto].
    + destruct H3 as [H3|H3].
      * rewrite H3. destruct (Z.max_spec a b) as [[_ ->]|[_ ->]];
          [right; left | now left].
      * right. now right.
Qed.

Lemma py_index_present (zs : list Z) (m : Z) :
  m ∈ zs →
  ∃ i, py_index (Some <$> zs) (Some m) = Ret i
       ∧ zs !! i = Some m
       ∧ ∀ j z, (j < i)%nat → zs !! j = Some z → z ≠ m.
Proof.
  induction zs as [|b zs IH]; intros Hm; [inversion Hm|].
  cbn. destruct (Z.eqb_spec b m) as [->|Hne].
  - exists 0%nat. split; [reflexivity|]. split; [reflexivity|]. intros; lia.
  - apply elem_of_cons in Hm as [->|Hm]; [congruence|].
    destruct (IH Hm) as (i & -> & Hi & Hlt). exists (S i).
    split; [reflexivity|]. split; [exact Hi|].
    intros [|j] z Hj Hz; cbn in Hz.
    + congruence.
    + apply (Hlt j); [lia|exact Hz].
Qed.

Lemma all_present_fmap (cs : list (JobStatus.t * option Z)) :
  (∀ c, c ∈ cs → is_Some c.2) → ∃ zs, cs.*2 = Some <$> zs.
Proof.
  induction cs as [|[s t] cs IH]; intros H.
  - now exists [].
  - destruct IH as [zs IH]; [intros c Hc; apply H; now right|].
    destruct (H (s, t)) as [z Hz]; [left|]. cbn in Hz. subst t.
    exists (z :: zs). cbn. now rewrite IH.
Qed.

Lemma merge_status_latest (cs : list (JobStatus.t * option Z)) s0 :
  cs ≠ [] →
  (∀ c, c ∈ cs → is_Some c.2) →
  forallb (λ s, JobStatus.eqb s s0) cs.*1 = false →
  ∃ i s m, merge_status s0 cs.*1 cs.*2 = Ret s ∧ first_latest cs i s m.
Proof.
  intros Hne Hall Hdis.
  destruct (all_present_fmap cs Hall) as [zs Hzs].
  unfold merge_status. rewrite Hdis, Hzs.
  destruct zs as [|a zs]; [destruct cs; [congruence|discriminate]|].
  cbn [fmap list_fmap py_max].
  rewrite (py_max_from_present zs a).
  set (m := fold_left Z.max zs a).
  assert (Hin : m ∈ a :: zs).
  { destruct (fold_max_bounds zs a) as (_ & _ & [H|H]); [rewrite <- H; left | now right]. }
  assert (Hub : ∀ z, z ∈ a :: zs → z ≤ m).
  { destruct (fold_max_bounds zs a) as (H1 & H2 & _).
    intros z Hz. apply elem_of_cons in Hz as [->|Hz]; [exact H1|auto]. }
  destruct (py_index_present (a :: zs) m Hin) as (i & Hidx & Hi & Hlt).
  change (Some a :: (Some <$> zs)) with (Some <$> (a :: zs)). rewrite Hidx.
  assert (Ht : cs.*2 !! i = Some (Some m)).
  { rewrite Hzs, list_lookup_fmap, Hi. reflexivity. }
  rewrite list_lookup_fmap in Ht.
  destruct (cs !! i) as [[s t]|] eqn:Hc; [|discriminate].
  cbn in Ht. injection Ht as ->.
  exists i, s, m. split.
  { unfold py_getitem. rewrite list_lookup_fmap, Hc. reflexivity. }
  assert (Hz : ∀ j c t, cs !! j = Some (c, Some t) → (a :: zs) !! j = Some t).
  { intros j c t Hj.
    assert (H : cs.*2 !! j = Some (Some t)) by (rewrite list_lookup_fmap, Hj; reflexivity).
    rewrite Hzs, list_lookup_fmap in H.
    destruct ((a :: zs) !! j); cbn in H; congruence. }
  split; [exact Hc|]. split.
  - intros j c t Hj. apply Hub. eapply list_elem_of_lookup_2, Hz, Hj.
  - intros j c t Hji Hj. pose proof (Hz _ _ _ Hj) as Hj'.
    assert (t ≤ m) by (apply Hub; eapply list_elem_of_lookup_2, Hj').
    pose proof (Hlt _ _ Hji Hj'). lia.
Qed.

Lemma forallb_same (cs : list (JobStatus.t * option Z)) s0 :
  forallb (λ s, JobStatus.eqb s s0) cs.*1 = true ↔ ∀ c, c ∈ cs → c.1 = s0.
Proof.
  induction cs as [|c cs IH]; cbn.
  - split; [intros _ c H; inversion H|reflexivity].
  - rewrite andb_true_iff, IH, JobStatus_eqb_eq. split.
    + intros [H1 H2] c' Hc'. apply elem_of_cons in Hc' as [->|Hc']; auto.
    + intros H. split; [apply H; left|]. intros c' Hc'. apply H. now right.
Qed.

Lemma disagree_forallb (cs : list (JobStatus.t * option Z)) s0 :
  disagree cs → forallb (λ s, JobStatus.eqb s s0) cs.*1 = false.
Proof.
  intros (c & c' & Hc & Hc' & Hne).
  destruct (forallb _ cs.*1) eqn:E; [|reflexivity].
  rewrite forallb_same in E. rewrite (E c Hc), (E c' Hc') in Hne. congruence.
Qed.

Lemma status_of_store now job_id s job w :
  working w !! job_id = Some job →
  status_of (working (store_status now job_id s w)) job_id = Some s.
Proof.
  intros H. unfold status_of. now rewrite (store_status_working _ _ _ job).
Qed.

(** The merge where it returns: with no candidate the job's rows are left
    as they were; when all candidates report the same status, that status
    is stored; when candidates disagree and every candidate carries an
    execution time, the status stored is that of the first candidate whose
    execution time is maximal.  In the last two cases the change is
    committed. *)
Theorem reconcile_merge env job_id job w :
  working w !! job_id = Some job →
  let cs := candidates job (readings_from env (tick w) (get_all_dag_ids env job_id)) in
  let out := _update_job_status env job_id w in
  (cs = [] → out.1 = Ret tt ∧ working out.2 = working w ∧ committed out.2 = committed w)
  ∧ (∀ s, cs ≠ [] → (∀ c, c ∈ cs → c.1 = s) →
       out.1 = Ret tt ∧ status_of (working out.2) job_id = Some s
       ∧ committed out.2 = working out.2)
  ∧ (disagree cs → (∀ c, c ∈ cs → is_Some c.2) →
       ∃ i s m, first_latest cs i s m
                ∧ out.1 = Ret tt ∧ status_of (working out.2) job_id = Some s
                ∧ committed out.2 = working out.2).
Proof.
  intros Hjob cs out. subst out. rewrite (update_job_status_eq _ _ job) by exact Hjob.
  unfold reconciled. fold cs. split; [|split].
  - intros ->. cbn. auto.
  - intros s Hne Hsame. destruct cs as [|[s0 t0] cs'] eqn:Ecs; [congruence|].
    cbn [fmap list_fmap fst].
    change (s0 :: cs'.*1) with (((s0, t0) :: cs').*1).
    assert (Hs0 : s0 = s) by (apply (Hsame (s0, t0)); left). subst s0.
    unfold merge_status.
    replace (forallb _ _) with true by (symmetry; apply forallb_same; exact Hsame).
    cbn [fst snd]. split; [reflexivity|]. split; [|reflexivity].
    now apply (status_of_store _ _ _ job).
  - intros Hdis Hall. destruct cs as [|[s0 t0] cs'] eqn:Ecs.
    { destruct Hdis as (c & _ & Hc & _). inversion Hc. }
    destruct (merge_status_latest ((s0, t0) :: cs') s0) as (i & s & m & Hm & Hfl);
      [congruence|exact Hall|now apply disagree_forallb|].
    exists i, s, m. split; [exact Hfl|].
    cbn [fmap list_fmap fst snd] in Hm |- *. rewrite Hm.
    cbn [fst snd]. split; [reflexivity|]. split; [|reflexivity].
    now apply (status_of_store _ _ _ job).
Qed.

Lemma reconcile_merge_witness :
  working (sample_world (Some JobStatus.created) []) !! "j1"%string
  = Some (sample_job (Some JobStatus.created))
  ∧ ∃ i s m,
      first_latest
        (candidates (sample_job (Some JobStatus.created))
           (readings_from (sample_env parallel_running)
              (tick (sample_world (Some JobStatus.created) []))
              (get_all_dag_ids (sample_env parallel_running) "j1")))
        i s m
      ∧ (_update_job_status (sample_env parallel_running) "j1"
           (sample_world (Some JobStatus.created) [])).1 = Ret tt
      ∧ status_of
          (working (_update_job_status (sample_env parallel_running) "j1"
                      (sample_world (Some JobStatus.created) [])).2) "j1"
        = Some s
      ∧ committed (_update_job_status (sample_env parallel_running) "j1"
                     (sample_world (Some JobStatus.created) [])).2
        = working (_update_job_status (sample_env parallel_running) "j1"
                     (sample_world (Some JobStatus.created) [])).2.
Proof.
  split; [reflexivity|].
  apply (reconcile_merge (sample_env parallel_running) "j1"
           (sample_job (Some JobStatus.created))
           (sample_world (Some JobStatus.created) []) eq_refl).
  - exists (JobStatus.finished, Some 50), (JobStatus.running, Some 60).
    split; [|split]; [apply list_elem_of_In; vm_compute; tauto ..|discriminate].
  - intros c Hc. apply list_elem_of_In in Hc. vm_compute in Hc.
    destruct Hc as [<-|[<-|[]]]; eexists; reflexivity.
Defined.

(** Two disagreeing candidates, one of them without an execution time:
    [max] raises and the job keeps the status it had. *)
Example update_raises_without_time :
  (_update_job_status (sample_env prep_running) "j1"
     (sample_world (Some JobStatus.created) [])).1 = Raise TypeError.
Proof. vm_compute. reflexivity. Qed.

(** The rule "the latest candidate wins" fails on this input.  The job is
    [created]; its preparation unit reports (running, 50) and its parallel
    unit (created, no time).  Both readings qualify and disagree, the only
    latest candidate is the running one, yet the job's status does not
    become running. *)
Lemma latest_wins_counterexample :
  ¬ latest_wins_as_stated (sample_env prep_running) "j1"
      (sample_job (Some JobStatus.created))
      (sample_world (Some JobStatus.created) []).
Proof.
  unfold latest_wins_as_stated. intros H.
  destruct H as (c & [Hin (m & Hm & _)] & Hst).
  - exists (JobStatus.running, Some 50), (JobStatus.created, None).
    split; [|split]; [apply list_elem_of_In; vm_compute; tauto ..|discriminate].
  - apply list_elem_of_In in Hin. vm_compute in Hin. vm_compute in Hst.
    destruct Hin as [<-|[<-|[]]]; cbn in Hm, Hst; discriminate.
Qed.

Lemma py_max_from_none (l : list (option Z)) : ∀ cur,
  None ∈ l → py_max_from cur l = Raise TypeError.
Proof.
  induction l as [|x l IH]; intros cur H; [inversion H|].
  cbn. destruct x as [b|]; [|reflexivity]. destruct cur as [a|]; [|reflexivity].
  apply IH. apply elem_of_cons in H as [H|H]; [discriminate H|exact H].
Qed.

Lemma py_max_none (x y : option Z) (l : list (option Z)) :
  None ∈ x :: y :: l → py_max (x :: y :: l) = Raise TypeError.
Proof.
  intros H. cbn [py_max]. destruct x as [a|].
  - apply py_max_from_none. apply elem_of_cons in H as [H|H]; [discriminate H|exact H].
  - cbn. now destruct y.
Qed.

(** C1 (what the code does).  When the candidates disagree and one of them
    carries no execution time, [_update_job_status] raises [TypeError] in
    [max] and stores nothing: the job keeps the status it had, whatever
    the latest candidate reports. *)
Theorem reconcile_raises_without_time env job_id job w :
  working w !! job_id = Some job →
  let cs := candidates job (readings_from env (tick w) (get_all_dag_ids env job_id)) in
  let out := _update_job_status env job_id w in
  disagree cs → (∃ c, c ∈ cs ∧ c.2 = None) →
  out.1 = Raise TypeError
  ∧ working out.2 = working w ∧ committed out.2 = committed w.
Proof.
  intros Hjob cs out Hdis (c & Hc & Hnone). subst out.
  rewrite (update_job_status_eq _ _ job) by exact Hjob.
  unfold reconciled. fold cs.
  destruct cs as [|[s0 t0] [|[s1 t1] cs']] eqn:Ecs.
  - inversion Hc.
  - destruct Hdis as (a & b & Ha & Hb & Hne).
    apply list_elem_of_singleton in Ha, Hb. congruence.
  - pose proof (disagree_forallb _ s0 Hdis) as Hf.
    cbn [fmap list_fmap fst snd] in Hf |- *.
    unfold merge_status. rewrite Hf.
    rewrite py_max_none; [now cbn|].
    change (t0 :: t1 :: cs'.*2) with (((s0, t0) :: (s1, t1) :: cs').*2).
    apply list_elem_of_fmap. exists c. now split.
Qed.

(** A created job whose preparation unit reports (running, 50) and whose
    parallel unit reports (created, no time): the running candidate is
    the latest one, and the job stays created. *)
Lemma reconcile_raises_without_time_witness :
  let env := sample_env prep_running in
  let w := sample_world (Some JobStatus.created) [] in
  let cs := candidates (sample_job (Some JobStatus.created))
              (readings_from env (tick w) (get_all_dag_ids env "j1")) in
  cs = [(JobStatus.running, Some 50); (JobStatus.created, None)]
  ∧ latest cs (JobStatus.running, Some 50)
  ∧ (_update_job_status env "j1" w).1 = Raise TypeError
  ∧ status_of (working (_update_job_status env "j1" w).2) "j1" = Some JobStatus.created.
Proof.
  intros env w cs.
  assert (cs = [(JobStatus.running, Some 50); (JobStatus.created, None)]) as Ecs
    by (vm_compute; reflexivity).
  split; [exact Ecs|]. split.
  { rewrite Ecs. split; [left|]. exists 50. split; [reflexivity|].
    intros c' t Hc' Ht. apply list_elem_of_In in Hc'. cbn in Hc'.
    destruct Hc' as [<-|[<-|[]]]; cbn in Ht; [injection Ht as <-; lia|discriminate]. }
  destruct (reconcile_raises_without_time env "j1" (sample_job (Some JobStatus.created)) w
              eq_refl) as (Hraise & Hw & _).
  - fold cs. rewrite Ecs.
    exists (JobStatus.running, Some 50), (JobStatus.created, None).
    split; [left|]. split; [right; left|discriminate].
  - fold cs. rewrite Ecs. exists (JobStatus.created, None). split; [right; left|reflexivity].
  - split; [exact Hraise|]. unfold status_of. now rewrite Hw.
Defined.

(** ** Status and timestamp are committed together *)

(** C9. Each of the two operations that change a job's persisted status,
    [_set_job_status] and [_update_job_status], assigns the status, sets
    [status_updated_at] to the current time and then commits once, so the
    committed row receives both fields together; when reconciliation does
    not commit, the rows are exactly as before. *)
Theorem status_stamped_on_commit env job_id job w :
  working w !! job_id = Some job →
  (∀ new_status,
     ∃ w', _set_job_status env job_id new_status w = (Ret tt, w')
           ∧ committed w' !! job_id
             = Some (set_status_updated_at (utcnow env (tick w))
                       (set_status (Some new_status) job))
           ∧ trace w' = trace w ++ [DbCommit])
  ∧ (let out := _update_job_status env job_id w in
     let dag_ids := get_all_dag_ids env job_id in
     (committed out.2 = committed w ∧ working out.2 = working w
      ∧ trace out.2 = trace w ++ map CheckDagStatus dag_ids)
     ∨ (∃ s, out.1 = Ret tt
             ∧ committed out.2 !! job_id
               = Some (set_status_updated_at (utcnow env (tick w + length dag_ids)%nat)
                         (set_status (Some s) job))
             ∧ trace out.2 = trace w ++ map CheckDagStatus dag_ids ++ [DbCommit])).
Proof.
  intros Hjob. split.
  - intros s. eexists. split; [apply (set_job_status_eq _ _ job), Hjob|].
    split; [|reflexivity].
    rewrite store_status_committed. now apply store_status_working.
  - cbn zeta. rewrite (update_job_status_eq _ _ job) by exact Hjob.
    unfold reconciled.
    destruct ((candidates job _).*1) as [|s0 ss]; [left; now cbn|].
    destruct (merge_status _ _ _) as [s|e|]; [|left; now cbn ..].
    right. exists s. split; [reflexivity|]. split.
    + cbn [snd]. rewrite store_status_committed.
      now apply store_status_working.
    + cbn. now rewrite <- app_assoc.
Qed.

Lemma status_stamped_on_commit_witness :
  working (sample_world (Some JobStatus.running) []) !! "j1"%string
  = Some (sample_job (Some JobStatus.running))
  ∧ ∃ w', _set_job_status (sample_env silent) "j1" JobStatus.canceled
            (sample_world (Some JobStatus.running) []) = (Ret tt, w')
          ∧ committed w' !! "j1"%string
            = Some (set_status_updated_at 100
                      (set_status (Some JobStatus.canceled)
                         (sample_job (Some JobStatus.running))))
          ∧ trace w' = [DbCommit].
Proof.
  split; [reflexivity|].
  exact (proj1 (status_stamped_on_commit (sample_env silent) "j1"
                  (sample_job (Some JobStatus.running))
                  (sample_world (Some JobStatus.running) []) eq_refl)
               JobStatus.canceled).
Defined.

(** ** Authorization *)

Lemma authorized_pass user job_id job k w :
  working w !! job_id = Some job → user_id job = user →
  authorized user job_id k w = k w.
Proof.
  intros Hjob Hown. unfold authorized, bind, db_query_first. rewrite Hjob.
  unfold authorize. rewrite Hown, String.eqb_refl. reflexivity.
Qed.

Lemma authorized_reject user job_id exc k w :
  authorize user job_id (working w !! job_id) = Some exc →
  authorized user job_id k w = (Ret (Error (to_dict exc)), w).
Proof.
  intros H. unfold authorized, bind, db_query_first. now rewrite H.
Qed.

Lemma handle_ret user links m w r w' :
  m w = (Ret r, w') → handle user links m w = (Ret r, w').
Proof. intros H. unfold handle. now rewrite H. Qed.

Lemma authorize_rejects user job_id (row : option Job) :
  row = None ∨ (∃ job, row = Some job ∧ user_id job ≠ user) →
  ∃ exc, authorize user job_id row = Some exc
         ∧ exc_internal exc = false
         ∧ (row = None → exc_code exc = 400)
         ∧ (is_Some row → exc_code exc = 401).
Proof.
  intros [->|(job & -> & Hne)]; cbn.
  - eexists. split; [reflexivity|]. cbn. split; [reflexivity|].
    split; [reflexivity|]. intros [? H]. discriminate H.
  - apply String.eqb_neq in Hne. rewrite Hne. cbn.
    eexists. split; [reflexivity|]. cbn. split; [reflexivity|].
    split; [discriminate|reflexivity].
Qed.

(** C10. Each public operation taking a job id ([get], [modify], [delete],
    [process], [cancel_processing], [get_results]) answers a missing job
    with an error envelope of code 400 and a job of another user with one
    of code 401, both with [internal = false], and leaves the world as it
    was. *)
Theorem unauthorized_rejected env fuel user job_id job_args delayed api_spec w :
  working w !! job_id = None
  ∨ (∃ job, working w !! job_id = Some job ∧ user_id job ≠ user) →
  ∃ d,
    get env user job_id w = (Ret (Error d), w)
    ∧ modify env user job_id job_args w = (Ret (Error d), w)
    ∧ delete env fuel user job_id delayed w = (Ret (Error d), w)
    ∧ process env user job_id w = (Ret (Error d), w)
    ∧ cancel_processing env fuel user job_id w = (Ret (Error d), w)
    ∧ get_results env user job_id api_spec w = (Ret (Error d), w)
    ∧ err_internal d = false
    ∧ (working w !! job_id = None → err_code d = 400)
    ∧ (is_Some (working w !! job_id) → err_code d = 401).
Proof.
  intros H. destruct (authorize_rejects user job_id _ H) as (exc & Ha & Hi & H0 & H1).
  exists (to_dict exc).
  repeat (split; [apply handle_ret, authorized_reject, Ha|]).
  split; [exact Hi|]. split; [exact H0|exact H1].
Qed.

Lemma unauthorized_rejected_witness :
  (working (sample_world (Some JobStatus.finished) []) !! "j1"%string = None
   ∨ (∃ job, working (sample_world (Some JobStatus.finished) []) !! "j1"%string = Some job
             ∧ user_id job ≠ "bob"%string))
  ∧ ∃ d,
      get (sample_env silent) "bob" "j1" (sample_world (Some JobStatus.finished) [])
      = (Ret (Error d), sample_world (Some JobStatus.finished) [])
      ∧ err_code d = 401 ∧ err_internal d = false.
Proof.
  assert (H : working (sample_world (Some JobStatus.finished) []) !! "j1"%string = None
              ∨ (∃ job, working (sample_world (Some JobStatus.finished) []) !! "j1"%string
                        = Some job ∧ user_id job ≠ "bob"%string)).
  { right. eexists. split; [reflexivity|]. discriminate. }
  split; [exact H|].
  destruct (unauthorized_rejected (sample_env silent) 1 "bob" "j1" no_args false
              (mkApiSpec [] "1.0.0") _ H) as (d & Hget & _ & _ & _ & _ & _ & Hi & _ & H1).
  exists d. split; [exact Hget|]. split; [|exact Hi].
  apply H1. eexists. reflexivity.
Defined.

(** ** Guards on the reconciled status *)

Lemma status_in_queued_running st :
  status_in st [JobStatus.queued; JobStatus.running] = true ↔ locked_status st.
Proof.
  unfold locked_status. destruct st as [[]|]; cbn; split; intros H;
    try discriminate H; try tauto; destruct H as [H|H]; discriminate H.
Qed.

Lemma status_in_running_queued st :
  status_in st [JobStatus.running; JobStatus.queued] = true ↔ locked_status st.
Proof.
  unfold locked_status. destruct st as [[]|]; cbn; split; intros H;
    try discriminate H; try tauto; destruct H as [H|H]; discriminate H.
Qed.

Lemma status_in_running_queued_false st :
  ¬ locked_status st → status_in st [JobStatus.running; JobStatus.queued] = false.
Proof.
  intros Hn. destruct (status_in st _) eqn:E; [|reflexivity].
  exfalso. now apply Hn, status_in_running_queued.
Qed.

Lemma status_in_queued_running_false st :
  ¬ locked_status st → status_in st [JobStatus.queued; JobStatus.running] = false.
Proof.
  intros Hn. destruct (status_in st _) eqn:E; [|reflexivity].
  exfalso. now apply Hn, status_in_queued_running.
Qed.

(** C5. On a job of the caller whose reconciled status is neither running
    nor queued, [cancel_processing] answers success with code 204 and ends
    in the very world reconciliation left: no stop marker written, no
    sleep, no poll, no status change. *)
Theorem cancel_idle_is_noop env fuel user job_id job w w1 j1 :
  working w !! job_id = Some job → user_id job = user →
  _update_job_status env job_id w = (Ret tt, w1) →
  working w1 !! job_id = Some j1 →
  status j1 ≠ Some JobStatus.running → status j1 ≠ Some JobStatus.queued →
  cancel_processing env fuel user job_id w = (Ret (Success 204 NoBody), w1).
Proof.
  intros Hjob Hown Hup Hj1 Hr Hq. unfold cancel_processing.
  apply handle_ret. rewrite (authorized_pass _ _ job) by assumption.
  unfold bind at 1. rewrite Hup.
  unfold bind at 1. unfold job_attr. rewrite Hj1.
  rewrite status_in_running_queued_false; [reflexivity|].
  intros [H|H]; congruence.
Qed.

Lemma cancel_idle_is_noop_witness :
  working (sample_world (Some JobStatus.finished) ["out.tif"%string]) !! "j1"%string
  = Some (sample_job (Some JobStatus.finished))
  ∧ cancel_processing (sample_env silent) 0 "alice" "j1"
      (sample_world (Some JobStatus.finished) ["out.tif"%string])
    = (Ret (Success 204 NoBody),
       after_reads ["j1_prep"%string; "j1_parallel"%string]
         (sample_world (Some JobStatus.finished) ["out.tif"%string])).
Proof.
  split; [reflexivity|].
  apply (cancel_idle_is_noop (sample_env silent) 0 "alice" "j1"
           (sample_job (Some JobStatus.finished)) _ _
           (sample_job (Some JobStatus.finished)));
    first [reflexivity | discriminate].
Defined.

(** C8. On a job of the caller whose reconciled status is created, queued
    or running, [get_results] answers with the NotFinished error, code 400
    and [internal = false], and carries no result asset. *)
Theorem unfinished_results_refused env user job_id api_spec job w w1 j1 :
  working w !! job_id = Some job → user_id job = user →
  _update_job_status env job_id w = (Ret tt, w1) →
  working w1 !! job_id = Some j1 →
  status j1 = Some JobStatus.created ∨ status j1 = Some JobStatus.queued
  ∨ status j1 = Some JobStatus.running →
  ∃ d, get_results env user job_id api_spec w = (Ret (Error d), w1)
       ∧ d = to_dict (JobNotFinished 400 user job_id false)
       ∧ err_code d = 400 ∧ err_internal d = false
       ∧ assets_of (Error d) = [].
Proof.
  intros Hjob Hown Hup Hj1 Hst. eexists. split; [|repeat split].
  unfold get_results. apply handle_ret.
  rewrite (authorized_pass _ _ job) by assumption.
  unfold bind at 1. rewrite Hup.
  unfold bind at 1. unfold job_attr. rewrite Hj1.
  destruct Hst as [-> | [-> | ->]]; reflexivity.
Qed.

(** A freshly created job whose units the orchestrator has never seen. *)
Lemma unfinished_results_refused_witness :
  working (sample_world (Some JobStatus.created) []) !! "j1"%string
  = Some (sample_job (Some JobStatus.created))
  ∧ ∃ d, get_results (sample_env silent) "alice" "j1" (mkApiSpec [] "1.0.0")
           (sample_world (Some JobStatus.created) [])
         = (Ret (Error d),
            after_reads ["j1_prep"%string; "j1_parallel"%string]
              (sample_world (Some JobStatus.created) []))
         ∧ d = to_dict (JobNotFinished 400 "alice" "j1" false)
         ∧ err_code d = 400 ∧ err_internal d = false
         ∧ assets_of (Error d) = [].
Proof.
  split; [reflexivity|].
  apply (unfinished_results_refused (sample_env silent) "alice" "j1" (mkApiSpec [] "1.0.0")
           (sample_job (Some JobStatus.created)) _ _
           (sample_job (Some JobStatus.created)));
    first [reflexivity | now left].
Defined.

(** ** The lock on queued and running jobs *)

(** Every guarded operation starts alike: authorize, reconcile, read the
    status; an exception of the reconciliation goes to the handler. *)
Lemma guarded_eq env user links job_id job (body : option JobStatus.t → M Response) w :
  working w !! job_id = Some job → user_id job = user →
  handle user links
    (authorized user job_id
       (_update_job_status env job_id ;;
        let! st := job_attr job_id status in body st)) w
  = match _update_job_status env job_id w with
    | (Ret _, w1) =>
        match working w1 !! job_id with
        | Some j1 => handle user links (body (status j1)) w1
        | None =>
            (Ret (Error (to_dict (mkExc 500 user (MsgOfExc AttributeError)
                                    default_internal links))), w1)
        end
    | (Raise e, w1) =>
        (Ret (Error (to_dict (mkExc 500 user (MsgOfExc e) default_internal links))), w1)
    | (Hang, w1) => (Hang, w1)
    end.
Proof.
  intros Hjob Hown. unfold handle at 1.
  rewrite (authorized_pass _ _ job) by assumption.
  unfold bind at 1. destruct (_update_job_status env job_id w) as [[[]|e|] w1];
    [|reflexivity ..].
  unfold bind at 1. unfold job_attr. destruct (working w1 !! job_id); reflexivity.
Qed.

Lemma only_500_ret_success code body : only_500 (ret (Success code body)).
Proof. intros w d w' H. discriminate H. Qed.

Lemma only_500_ret_forwarded d : only_500 (ret (Forwarded d)).
Proof. intros w d' w' H. discriminate H. Qed.

Lemma only_500_ret_error d : err_code d = 500 → only_500 (ret (Error d)).
Proof. intros Hd w d' w' H. injection H as <- _. exact Hd. Qed.

Lemma only_500_raise e : only_500 (raise e).
Proof. intros w d w' H. discriminate H. Qed.

Lemma only_500_bind {A} (m : M A) (k : A → M Response) :
  (∀ a, only_500 (k a)) → only_500 (bind m k).
Proof.
  intros Hk w d w' H. unfold bind in H.
  destruct (m w) as [[a|e|] w1]; [|discriminate H ..].
  exact (Hk a _ _ _ H).
Qed.

Lemma only_500_handle user links m : only_500 m → only_500 (handle user links m).
Proof.
  intros Hm w d w' H. unfold handle in H.
  destruct (m w) as [[r|e|] w1] eqn:E.
  - injection H as -> ->. exact (Hm _ _ _ E).
  - injection H as <- _. reflexivity.
  - discriminate H.
Qed.

Ltac only_500 :=
  repeat first
    [ apply only_500_ret_success
    | apply only_500_ret_forwarded
    | apply only_500_ret_error; reflexivity
    | apply only_500_raise
    | apply only_500_bind; intros ?
    | match goal with
      | |- only_500 (match ?x with _ => _ end) => destruct x
      | |- only_500 (if ?x then _ else _) => destruct x
      end ].

Lemma guarded_locked_iff env user links job_id job
    (body : option JobStatus.t → M Response) (lock_error : option JobStatus.t → ErrorDict) w :
  working w !! job_id = Some job → user_id job = user →
  (∀ st, locked_status st → body st = ret (Error (lock_error st))) →
  (∀ st, err_code (lock_error st) = 400 ∧ err_internal (lock_error st) = false) →
  (∀ st, ¬ locked_status st → only_500 (body st)) →
  is_locked_error
    (handle user links
       (authorized user job_id
          (_update_job_status env job_id ;;
           let! st := job_attr job_id status in body st)) w).1
  ↔ ∃ w1 j1, _update_job_status env job_id w = (Ret tt, w1)
             ∧ working w1 !! job_id = Some j1 ∧ locked_status (status j1).
Proof.
  intros Hjob Hown Hlock Hcode Hrest.
  rewrite (guarded_eq _ _ _ _ job) by assumption.
  destruct (_update_job_status env job_id w) as [[[]|e|] w1].
  - destruct (working w1 !! job_id) as [j1|] eqn:Hj1.
    + destruct (status_in (status j1) [JobStatus.queued; JobStatus.running]) eqn:E.
      * apply status_in_queued_running in E. split.
        -- intros _. now exists w1, j1.
        -- intros _. rewrite (Hlock _ E). eexists. split; [reflexivity|]. apply Hcode.
      * assert (Hn : ¬ locked_status (status j1)).
        { intros Hl. apply status_in_queued_running in Hl. congruence. }
        split.
        -- intros (d & Hd & H400 & _). exfalso.
           pose proof (only_500_handle user links _ (Hrest _ Hn)) as H500.
           destruct (handle user links (body (status j1)) w1) as [o w'] eqn:Hh.
           cbn in Hd. subst o. apply H500 in Hh. lia.
        -- intros (w1' & j1' & [= <-] & Hj & Hl). congruence.
    + split.
      * intros (d & [= <-] & H400 & _). discriminate H400.
      * intros (w1' & j1' & [= <-] & Hj & _). congruence.
  - split.
    + intros (d & [= <-] & H400 & _). discriminate H400.
    + intros (w1' & j1' & H & _). discriminate H.
  - split.
    + intros (d & H & _). discriminate H.
    + intros (w1' & j1' & H & _). discriminate H.
Qed.

(** C3. On a job of the caller, [modify] and [process] answer with the
    "locked" error (code 400, [internal = false]) exactly when
    reconciliation returns and leaves the job queued or running.  For
    [modify] the flag is the default of class [JobLocked], non-internal as
    the specification has it; [process] passes [internal=False] itself. *)
Theorem locked_iff_queued_or_running env user job_id job job_args w :
  working w !! job_id = Some job → user_id job = user →
  JobLocked_internal env = false →
  let locked :=
    ∃ w1 j1, _update_job_status env job_id w = (Ret tt, w1)
             ∧ working w1 !! job_id = Some j1 ∧ locked_status (status j1) in
  (is_locked_error (modify env user job_id job_args w).1 ↔ locked)
  ∧ (is_locked_error (process env user job_id w).1 ↔ locked).
Proof.
  intros Hjob Hown Hdefault locked. subst locked. split.
  - unfold modify.
    apply (guarded_locked_iff env user [] job_id job _
             (λ st, to_dict (JobLocked (JobLocked_internal env) 400 user
                               (MsgCurrently job_id st) [])));
      try assumption.
    + intros st Hl. apply status_in_queued_running in Hl. now rewrite Hl.
    + intros st. split; [reflexivity|exact Hdefault].
    + intros st Hn. rewrite (status_in_queued_running_false _ Hn). only_500.
  - unfold process.
    apply (guarded_locked_iff env user [] job_id job _
             (λ st, to_dict (mkExc 400 user (MsgAlready job_id st) false [])));
      try assumption.
    + intros st Hl. apply status_in_queued_running in Hl. now rewrite Hl.
    + intros st. now split.
    + intros st Hn. rewrite (status_in_queued_running_false _ Hn). only_500.
Qed.

Lemma locked_iff_queued_or_running_witness :
  working (sample_world (Some JobStatus.created) []) !! "j1"%string
  = Some (sample_job (Some JobStatus.created))
  ∧ JobLocked_internal (sample_env all_running) = false
  ∧ is_locked_error
      (modify (sample_env all_running) "alice" "j1" no_args
         (sample_world (Some JobStatus.created) [])).1
  ∧ is_locked_error
      (process (sample_env all_running) "alice" "j1"
         (sample_world (Some JobStatus.created) [])).1.
Proof.
  split; [reflexivity|]. split; [reflexivity|].
  destruct (locked_iff_queued_or_running (sample_env all_running) "alice" "j1"
              (sample_job (Some JobStatus.created)) no_args
              (sample_world (Some JobStatus.created) []) eq_refl eq_refl eq_refl)
    as [Hm Hp].
  assert (H : ∃ w1 j1,
             _update_job_status (sample_env all_running) "j1"
               (sample_world (Some JobStatus.created) []) = (Ret tt, w1)
             ∧ working w1 !! "j1"%string = Some j1 ∧ locked_status (status j1)).
  { eexists _, _. split; [vm_compute; reflexivity|].
    split; [vm_compute; reflexivity|]. now right. }
  split; [apply Hm, H|apply Hp, H].
Defined.

(** ** The stop protocol and the files service *)

Ltac wsimpl :=
  cbn [committed working folders backups threads trace tick
       with_committed with_working with_folders with_backups with_threads
       with_trace with_tick].

Lemma stop_airflow_job_eq env fuel user job_id f w :
  folders w !! (user, job_id) = Some f →
  _stop_airflow_job env (S fuel) user job_id w = (Ret tt, stopped user job_id f w).
Proof.
  intros Hf. unfold _stop_airflow_job.
  unfold bind at 1. unfold FilesService.upload_stop_job_file. rewrite Hf.
  cbn [wait_stopped]. unfold bind at 1. unfold sleep, emit.
  unfold bind at 1. unfold airflow_check_dag_status, bind, next_tick, emit, ret.
  wsimpl. cbn [py_ne py_eq negb].
  destruct fuel; cbn [wait_stopped]; unfold ret, stopped, marked; wsimpl;
    rewrite <- !app_assoc; reflexivity.
Qed.

(** C7 (what the code does).  [_stop_airflow_job] writes the stop marker,
    sleeps [check_stop_interval] once, polls once and returns, also when
    that poll reads the unit as running: the pair handed back by
    [check_dag_status] is compared with [JobStatus.running] and the two
    are never equal. *)
Theorem stop_returns_while_running env fuel user job_id f t w :
  folders w !! (user, job_id) = Some f →
  check_dag_status env (tick w) job_id = (Some JobStatus.running, t) →
  _stop_airflow_job env (S fuel) user job_id w = (Ret tt, stopped user job_id f w)
  ∧ trace (stopped user job_id f w)
    = trace w ++ [UploadStopFile user job_id; Sleep 5; CheckDagStatus job_id].
Proof.
  intros Hf _. split; [now apply stop_airflow_job_eq|reflexivity].
Qed.

Lemma stop_returns_while_running_witness :
  folders (sample_world (Some JobStatus.running) []) !! ("alice"%string, "j1"%string)
  = Some (mkFolder [] ["dag.py"%string])
  ∧ check_dag_status (sample_env all_running)
      (tick (sample_world (Some JobStatus.running) [])) "j1"
    = (Some JobStatus.running, Some 50)
  ∧ _stop_airflow_job (sample_env all_running) 1 "alice" "j1"
      (sample_world (Some JobStatus.running) [])
    = (Ret tt, stopped "alice" "j1" (mkFolder [] ["dag.py"%string])
                 (sample_world (Some JobStatus.running) []))
  ∧ trace (stopped "alice" "j1" (mkFolder [] ["dag.py"%string])
             (sample_world (Some JobStatus.running) []))
    = [] ++ [UploadStopFile "alice" "j1"; Sleep 5; CheckDagStatus "j1"].
Proof.
  split; [reflexivity|]. split; [reflexivity|].
  apply (stop_returns_while_running (sample_env all_running) 0 "alice" "j1"
           (mkFolder [] ["dag.py"%string]) (Some 50)
           (sample_world (Some JobStatus.running) [])); reflexivity.
Defined.

Lemma delete_job_without_results_eq user job f w :
  folders w !! (user, job) = Some f → backups w !! (user, job) = None →
  ∃ w', FilesService.delete_job_without_results user job w = (Ret true, w')
        ∧ folders w' !! (user, job) = Some (mkFolder (result_files f) [])
        ∧ committed w' = committed w ∧ working w' = working w
        ∧ threads w' = threads w ∧ trace w' = trace w ∧ tick w' = tick w.
Proof.
  intros Hf Hb. unfold FilesService.delete_job_without_results.
  unfold bind at 1. unfold FilesService.listdir_result at 1. rewrite Hf.
  cbn [py_eq].
  unfold bind at 1. unfold bind at 1.
  unfold FilesService.makedirs_backup. rewrite Hb.
  unfold bind at 1. unfold FilesService.rename_result_to_backup. wsimpl. rewrite Hf.
  unfold bind at 1. unfold FilesService.delete_complete_job. wsimpl.
  rewrite lookup_insert_eq.
  unfold bind at 1. unfold FilesService.setup_jobs_result_folder. wsimpl.
  rewrite lookup_delete_eq.
  unfold bind at 1. unfold FilesService.rename_backup_to_result. wsimpl.
  rewrite !lookup_insert_eq.
  unfold FilesService.rmtree_backup_if_dir. wsimpl.
  unfold bind, FilesService.listdir_result. wsimpl.
  rewrite lookup_insert_eq. unfold ret. cbn [py_ne py_eq negb result_files].
  eexists. split; [reflexivity|]. wsimpl.
  rewrite lookup_insert_eq. cbn. repeat split; reflexivity.
Qed.

(** Whatever the result folder holds, [delete_job_without_results] never
    answers [False]. *)
Lemma delete_job_without_results_never_false user job w b w' :
  FilesService.delete_job_without_results user job w = (Ret b, w') → b = true.
Proof.
  unfold FilesService.delete_job_without_results. intros H.
  unfold bind in H.
  repeat match type of H with
         | context [match ?m ?x with _ => _ end] =>
             destruct (m x) as [[?|?|] ?]; try discriminate H
         end.
  unfold ret in H. now injection H as <- _.
Qed.

(** ** Cancelling a running job *)

(** C4 (what the code does).  Cancelling a running job of the caller whose
    folder exists stops it, removes everything but the results and sets
    the status to canceled, whatever the result folder holds, an empty one
    included. *)
Theorem cancel_running_sets_canceled env fuel user job_id job w w1 j1 f :
  working w !! job_id = Some job → user_id job = user →
  _update_job_status env job_id w = (Ret tt, w1) →
  working w1 !! job_id = Some j1 → status j1 = Some JobStatus.running →
  folders w1 !! (user, job_id) = Some f → backups w1 !! (user, job_id) = None →
  ∃ w', cancel_processing env (S fuel) user job_id w = (Ret (Success 204 NoBody), w')
        ∧ status_of (committed w') job_id = Some JobStatus.canceled
        ∧ folders w' !! (user, job_id) = Some (mkFolder (result_files f) []).
Proof.
  intros Hjob Hown Hup Hj1 Hrun Hf Hb.
  unfold cancel_processing.
  rewrite (guarded_eq _ _ _ _ job) by assumption. rewrite Hup, Hj1, Hrun.
  cbn [status_in existsb JobStatus.eqb orb].
  destruct (delete_job_without_results_eq user job_id (marked f) (stopped user job_id f w1))
    as (w2 & Hdel & Hf2 & Hc2 & Hw2 & Hth2 & Htr2 & Htk2).
  { cbn. apply lookup_insert_eq. }
  { exact Hb. }
  assert (Hj2 : working w2 !! job_id = Some j1) by (rewrite Hw2; exact Hj1).
  eexists. split.
  - apply handle_ret. unfold bind at 1. unfold bind at 1.
    rewrite (stop_airflow_job_eq _ _ _ _ f) by exact Hf.
    unfold bind at 1. rewrite Hdel.
    unfold bind at 1. unfold job_attr. rewrite Hj2, Hrun.
    cbn [option_eqb JobStatus.eqb andb].
    unfold bind at 1. rewrite (set_job_status_eq _ _ j1) by exact Hj2.
    unfold bind, db_commit, ret. reflexivity.
  - unfold store_status. wsimpl. split.
    + unfold status_of. rewrite !lookup_alter_eq, Hj2. reflexivity.
    + exact Hf2.
Qed.

(** A running job that has produced no result yet. *)
Lemma cancel_running_sets_canceled_witness :
  working (sample_world (Some JobStatus.running) []) !! "j1"%string
  = Some (sample_job (Some JobStatus.running))
  ∧ ∃ w', cancel_processing (sample_env all_running) 1 "alice" "j1"
            (sample_world (Some JobStatus.running) [])
          = (Ret (Success 204 NoBody), w')
          ∧ status_of (committed w') "j1" = Some JobStatus.canceled
          ∧ folders w' !! ("alice"%string, "j1"%string) = Some (mkFolder [] []).
Proof.
  split; [reflexivity|].
  apply (cancel_running_sets_canceled (sample_env all_running) 0 "alice" "j1"
           (sample_job (Some JobStatus.running))
           (sample_world (Some JobStatus.running) [])
           (_update_job_status (sample_env all_running) "j1"
              (sample_world (Some JobStatus.running) [])).2
           (set_status_updated_at 102 (sample_job (Some JobStatus.running)))
           (mkFolder [] ["dag.py"%string]));
    vm_compute; reflexivity.
Defined.

(** ** Deferred deletion *)

Lemma delete_dags_eq (dag_ids : list string) : ∀ w,
  fold_right (λ dag_id k, emit (AirflowDeleteDag dag_id) ;; k) (ret tt) dag_ids w
  = (Ret tt, with_trace (trace w ++ map AirflowDeleteDag dag_ids) w).
Proof.
  induction dag_ids as [|d rest IH]; intros w; cbn [fold_right map].
  - unfold ret. destruct w; unfold with_trace; cbn. now rewrite app_nil_r.
  - unfold bind at 1. unfold emit at 1. rewrite IH.
    destruct w; unfold with_trace; cbn. now rewrite <- app_assoc.
Qed.

(** The delayed step sleeps and then works on the file system only: rows,
    threads and orchestrator are as before. *)
Lemma run_thread_frame env th w :
  let out := run_thread env th w in
  committed out.2 = committed w ∧ working out.2 = working w
  ∧ threads out.2 = threads w
  ∧ trace out.2 = trace w ++ [Sleep (SYNC_DEL_DELAY env)].
Proof.
  destruct th as [[uid|s] job]; cbn [run_thread]; unfold _delayed_delete, bind, sleep, emit.
  - unfold FilesService.delete_complete_job. wsimpl.
    destruct (folders w !! (uid, job)); now cbn.
  - now cbn.
Qed.

(** The thread started by [delete] is handed the user's id, a string;
    [_delayed_delete] indexes it with ["id"]. *)
Example delayed_step_on_user_id env user job_id w :
  (run_thread env (DelayedDelete (UserStr user) job_id) w).1 = Raise TypeError.
Proof. reflexivity. Qed.

(** C6 (amended).  [delete] with [delayed = true] on a job of the caller
    defers the file-system cleanup only: it starts one thread for it, and
    the job folder with its results is still there when [delete] returns.
    The thread first sleeps [SYNC_DEL_DELAY] and touches neither rows nor
    orchestrator.  The removal of the job's units (dag files and
    orchestrator entries) and of the database row, with its commit, is
    done by [delete] itself before it returns. *)
Theorem delayed_delete_defers_files_only env fuel user job_id job w w1 j1 :
  working w !! job_id = Some job → user_id job = user →
  _update_job_status env job_id w = (Ret tt, w1) →
  working w1 !! job_id = Some j1 →
  (locked_status (status j1) → is_Some (folders w1 !! (user, job_id))) →
  ∃ w',
    delete env (S fuel) user job_id true w = (Ret (Success 204 NoBody), w')
    ∧ threads w' = threads w1 ++ [DelayedDelete (UserStr user) job_id]
    ∧ (∀ f, folders w1 !! (user, job_id) = Some f →
         ∃ f', folders w' !! (user, job_id) = Some f' ∧ result_files f' = result_files f)
    ∧ committed w' !! job_id = None
    ∧ (∃ before,
         trace w' = before
                    ++ [ThreadStart (DelayedDelete (UserStr user) job_id);
                        RemoveAllDags job_id]
                    ++ map AirflowDeleteDag (get_all_dag_ids env job_id)
                    ++ [DbCommit])
    ∧ (∀ th wx,
         committed (run_thread env th wx).2 = committed wx
         ∧ working (run_thread env th wx).2 = working wx
         ∧ threads (run_thread env th wx).2 = threads wx
         ∧ trace (run_thread env th wx).2 = trace wx ++ [Sleep (SYNC_DEL_DELAY env)]).
Proof.
  intros Hjob Hown Hup Hj1 Hfolder.
  unfold delete. rewrite (guarded_eq _ _ _ _ job) by assumption. rewrite Hup, Hj1.
  destruct (status_in (status j1) [JobStatus.running; JobStatus.queued]) eqn:E.
  - apply status_in_running_queued in E. destruct (Hfolder E) as [f Hf].
    eexists. split.
    { apply handle_ret. unfold bind at 1.
      rewrite (stop_airflow_job_eq _ _ _ _ f) by exact Hf.
      unfold bind at 1. unfold thread_start at 1.
      unfold bind at 1. unfold emit at 1.
      unfold bind at 1. rewrite delete_dags_eq.
      unfold bind, db_delete, db_commit, ret. reflexivity. }
    unfold stopped. wsimpl. split; [reflexivity|]. split; [|split; [|split]].
    + intros f0 Hf0. rewrite lookup_insert_eq. eexists. split; [reflexivity|].
      cbn. congruence.
    + apply lookup_delete_eq.
    + exists (trace w1 ++ [UploadStopFile user job_id; Sleep check_stop_interval;
                           CheckDagStatus job_id]).
      rewrite <- !app_assoc. reflexivity.
    + intros th wx. apply (run_thread_frame env th wx).
  - eexists. split.
    { apply handle_ret. unfold bind at 1. unfold ret at 1.
      unfold bind at 1. unfold thread_start at 1.
      unfold bind at 1. unfold emit at 1.
      unfold bind at 1. rewrite delete_dags_eq.
      unfold bind, db_delete, db_commit, ret. reflexivity. }
    wsimpl. split; [reflexivity|]. split; [|split; [|split]].
    + intros f0 Hf0. now exists f0.
    + apply lookup_delete_eq.
    + exists (trace w1). rewrite <- !app_assoc. reflexivity.
    + intros th wx. apply (run_thread_frame env th wx).
Qed.

Lemma delayed_delete_defers_files_only_witness :
  working (sample_world (Some JobStatus.finished) ["out.tif"%string]) !! "j1"%string
  = Some (sample_job (Some JobStatus.finished))
  ∧ ∃ w',
      delete (sample_env silent) 1 "alice" "j1" true
        (sample_world (Some JobStatus.finished) ["out.tif"%string])
      = (Ret (Success 204 NoBody), w')
      ∧ threads w' = [] ++ [DelayedDelete (UserStr "alice") "j1"]
      ∧ committed w' !! "j1"%string = None.
Proof.
  split; [reflexivity|].
  destruct (delayed_delete_defers_files_only (sample_env silent) 0 "alice" "j1"
              (sample_job (Some JobStatus.finished))
              (sample_world (Some JobStatus.finished) ["out.tif"%string])
              (after_reads ["j1_prep"%string; "j1_parallel"%string]
                 (sample_world (Some JobStatus.finished) ["out.tif"%string]))
              (sample_job (Some JobStatus.finished))
              eq_refl eq_refl eq_refl eq_refl)
    as (w' & Hd & Hth & _ & Hrow & _).
  - intros [H|H]; discriminate H.
  - exists w'. split; [exact Hd|]. split; [exact Hth|exact Hrow].
Defined.

(** What [delete(delayed=true)] leaves behind on a finished job: the row
    is gone and the units are removed while the delayed step is still
    pending and the results are still on disk. *)
Example delayed_delete_on_finished_job :
  let w' := (delete (sample_env silent) 1 "alice" "j1" true
               (sample_world (Some JobStatus.finished) ["out.tif"%string])).2 in
  committed w' !! "j1"%string = None
  ∧ threads w' = [DelayedDelete (UserStr "alice") "j1"]
  ∧ folders w' !! ("alice"%string, "j1"%string)
    = Some (mkFolder ["out.tif"%string] ["dag.py"%string])
  ∧ trace w' = [CheckDagStatus "j1_prep"; CheckDagStatus "j1_parallel";
                ThreadStart (DelayedDelete (UserStr "alice") "j1");
                RemoveAllDags "j1"; AirflowDeleteDag "j1_prep";
                AirflowDeleteDag "j1_parallel"; DbCommit].
Proof. vm_compute. repeat split; reflexivity. Qed.

(** C6, counterexample.  A finished job with a result file: when
    [delete(delayed=true)] returns, the delayed step is still pending, yet
    the row is gone (and the units were removed from the orchestrator). *)
Lemma delayed_delete_counterexample :
  ¬ delayed_delete_as_stated (sample_env silent) 1 "alice" "j1"
      (sample_world (Some JobStatus.finished) ["out.tif"%string]).
Proof.
  intros H.
  destruct (H (Success 204 NoBody)
              (delete (sample_env silent) 1 "alice" "j1" true
                 (sample_world (Some JobStatus.finished) ["out.tif"%string])).2)
    as [_ Hrow]; [vm_compute; reflexivity|].
  destruct Hrow as [row Hrow].
  - exists (UserStr "alice"). apply list_elem_of_In. vm_compute. tauto.
  - vm_compute in Hrow. discriminate Hrow.
Qed.

(** * Further properties *)

(** ** Output formats *)

Lemma map_output_format_cases s o :
  map_output_format s = Ret o →
  o = "Gtiff"%string ∨ o = "jpeg"%string ∨ o = "png"%string.
Proof.
  unfold map_output_format. cbn.
  repeat case_bool_decide; intros [= <-]; auto.
Qed.

(** X1. A name returned by [map_output_format] is mapped to itself: the
    canonical names are among their own synonyms. *)
Theorem map_output_format_fixed_point s o :
  map_output_format s = Ret o → map_output_format o = Ret o.
Proof.
  intros H. destruct (map_output_format_cases s o H) as [-> | [-> | ->]];
    vm_compute; reflexivity.
Qed.

Lemma map_output_format_fixed_point_witness :
  map_output_format "tiff" = Ret "Gtiff"%string
  ∧ map_output_format "Gtiff" = Ret "Gtiff"%string.
Proof.
  split; [reflexivity|].
  apply (map_output_format_fixed_point "tiff" "Gtiff"). reflexivity.
Defined.

(** X2. Whatever [map_output_format] returns is a key of the [type_map] of
    [process_sync]: the lookup of the content type cannot raise. *)
Theorem type_map_covers_formats s fmt :
  map_output_format s = Ret fmt →
  ∃ t, dict_getitem type_map fmt = Ret t.
Proof.
  intros H. destruct (map_output_format_cases s fmt H) as [-> | [-> | ->]];
    eexists; vm_compute; reflexivity.
Qed.

Lemma type_map_covers_formats_witness :
  map_output_format "jpg" = Ret "jpeg"%string
  ∧ ∃ t, dict_getitem type_map "jpeg" = Ret t.
Proof.
  split; [reflexivity|].
  apply (type_map_covers_formats "jpg" "jpeg"). reflexivity.
Defined.

(** ** Download urls *)

Lemma append_nonempty a c b : a +:+ String c b ≠ ""%string.
Proof. destruct a; discriminate. Qed.

Lemma ends_with_slash_cons x s :
  s ≠ ""%string → ends_with_slash (String x s) = ends_with_slash s.
Proof. destruct s; [congruence|reflexivity]. Qed.

Lemma ends_with_slash_app a c b :
  ends_with_slash (a +:+ String c b) = ends_with_slash (String c b).
Proof.
  induction a as [|x a IH]; [reflexivity|].
  change (String x a +:+ String c b)%string with (String x (a +:+ String c b)).
  rewrite (ends_with_slash_cons x (a +:+ String c b)) by apply append_nonempty.
  exact IH.
Qed.

Lemma basename_from_slash a p : ∀ cur,
  basename_from cur (a +:+ String slash p) = basename_from "" p.
Proof.
  induction a as [|x a IH]; intros cur; [reflexivity|].
  change (String x a +:+ String slash p)%string with (String x (a +:+ String slash p)).
  cbn [basename_from]. destruct (Ascii.eqb x slash); apply IH.
Qed.

Lemma string_app_assoc (a b c : string) : (a +:+ b) +:+ c = a +:+ b +:+ c.
Proof.
  induction a as [|x a IH]; [reflexivity|].
  change ((String x a +:+ b) +:+ c) with (String x ((a +:+ b) +:+ c)).
  now rewrite IH.
Qed.

Lemma os_path_join2_downloads y :
  os_path_join2 y "downloads" ≠ ""%string
  ∧ ends_with_slash (os_path_join2 y "downloads") = false.
Proof.
  assert (∃ c s, "downloads"%string = String c s ∧ ends_with_slash (String c s) = false)
    as (c & s & Hd & He) by (eexists _, _; split; reflexivity).
  assert (∃ z, os_path_join2 y "downloads" = z +:+ String c s) as [z ->].
  { rewrite <- Hd. unfold os_path_join2. cbn [starts_with_slash].
    change (Ascii.eqb _ slash) with false. cbn match.
    destruct (String.eqb y "" || ends_with_slash y).
    - now exists y.
    - exists (y +:+ "/"). now rewrite string_app_assoc. }
  split; [apply append_nonempty|]. now rewrite ends_with_slash_app.
Qed.

Lemma download_url_relative env base_url public_path :
  starts_with_slash public_path = false →
  ∃ x, _get_download_url env base_url public_path = x +:+ String slash public_path.
Proof.
  intros E. unfold _get_download_url, os_path_join. cbn [fold_left].
  destruct (os_path_join2_downloads (os_path_join2 base_url (OPENEO_VERSION env)))
    as [Hne Hend].
  set (x := os_path_join2 (os_path_join2 base_url (OPENEO_VERSION env)) "downloads") in *.
  exists x. unfold os_path_join2. rewrite E.
  apply String.eqb_neq in Hne. rewrite Hne, Hend. reflexivity.
Qed.

Lemma download_url_absolute env base_url public_path :
  starts_with_slash public_path = true →
  _get_download_url env base_url public_path = public_path.
Proof.
  intros E. unfold _get_download_url, os_path_join. cbn [fold_left].
  unfold os_path_join2 at 1. now rewrite E.
Qed.

Lemma basename_of_download_url env base_url public_path :
  os_path_basename (_get_download_url env base_url public_path)
  = os_path_basename public_path.
Proof.
  destruct (starts_with_slash public_path) eqn:E.
  - now rewrite download_url_absolute.
  - destruct (download_url_relative env base_url public_path E) as [x ->].
    apply basename_from_slash.
Qed.

(** X3. The url built for a result file ends in the file's own last path
    component; a public path that starts with a slash replaces the base
    url altogether, any other is appended after a slash. *)
Theorem download_url_shape env base_url public_path :
  os_path_basename (_get_download_url env base_url public_path)
  = os_path_basename public_path
  ∧ (starts_with_slash public_path = true →
     _get_download_url env base_url public_path = public_path)
  ∧ (starts_with_slash public_path = false →
     ∃ x, _get_download_url env base_url public_path = x +:+ "/" +:+ public_path).
Proof.
  split; [apply basename_of_download_url|].
  split; [apply download_url_absolute|apply download_url_relative].
Qed.

(** ** Input file paths of a process graph *)

Lemma call_eq {A} (f : nat → Outcome A) w :
  call (A:=A) f w = (f (tick w), with_tick (S (tick w)) w).
Proof. unfold call, bind, next_tick, lift. reflexivity. Qed.

Lemma in_filepaths_nil env acc w :
  _get_in_filepaths env [] acc w = (Ret (inr acc), w).
Proof. reflexivity. Qed.

Lemma in_filepaths_skip env name n rest acc w :
  is_load_collection n = false →
  _get_in_filepaths env ((name, n) :: rest) acc w = _get_in_filepaths env rest acc w.
Proof. unfold is_load_collection. intros H. cbn [_get_in_filepaths]. now rewrite H. Qed.

Lemma in_filepaths_load env name n a rest acc w :
  is_load_collection n = true → arguments n = Some a →
  _get_in_filepaths env ((name, n) :: rest) acc w
  = match get_filepaths env (tick w) a with
    | Ret (ReplyData data) =>
        _get_in_filepaths env rest (acc ++ [(name, data)]) (with_tick (S (tick w)) w)
    | Ret (ReplyError d) => (Ret (inl d), with_tick (S (tick w)) w)
    | Raise e => (Raise e, with_tick (S (tick w)) w)
    | Hang => (Hang, with_tick (S (tick w)) w)
    end.
Proof.
  unfold is_load_collection. intros H Ha. cbn [_get_in_filepaths]. rewrite H, Ha.
  unfold bind at 1. rewrite call_eq.
  destruct (get_filepaths env (tick w) a) as [[d|data]|e|]; reflexivity.
Qed.

(** A prefix of the graph whose lookups all succeed is passed over, one
    oracle consultation per [load_collection] node. *)
Lemma in_filepaths_prefix env (pre : ProcessGraph) :
  (∀ name n, (name, n) ∈ pre → is_load_collection n = true →
     ∃ a, arguments n = Some a
          ∧ ∀ t, ∃ data, get_filepaths env t a = Ret (ReplyData data)) →
  ∀ acc w, ∃ found,
    found.*1 = (load_nodes pre).*1
    ∧ ∀ rest, _get_in_filepaths env (pre ++ rest) acc w
              = _get_in_filepaths env rest (acc ++ found)
                  (with_tick (tick w + length (load_nodes pre))%nat w).
Proof.
  induction pre as [|[name n] pre IH]; intros Hok acc w.
  - exists []. split; [reflexivity|]. intros rest. cbn.
    rewrite app_nil_r, Nat.add_0_r. now destruct w.
  - assert (Hpre : ∀ name' n', (name', n') ∈ pre → is_load_collection n' = true →
               ∃ a, arguments n' = Some a
                    ∧ ∀ t, ∃ data, get_filepaths env t a = Ret (ReplyData data)).
    { intros name' n' Hin. apply (Hok name' n'). now right. }
    destruct (is_load_collection n) eqn:E.
    + destruct (Hok name n) as (a & Ha & Hdata); [left|exact E|].
      destruct (Hdata (tick w)) as [data Hd].
      destruct (IH Hpre (acc ++ [(name, data)]) (with_tick (S (tick w)) w))
        as (found & Hkeys & Heq).
      exists ((name, data) :: found). split.
      * unfold load_nodes. cbn [List.filter snd]. rewrite E. cbn. f_equal. exact Hkeys.
      * intros rest. cbn [app]. rewrite (in_filepaths_load _ _ _ a) by assumption.
        rewrite Hd, Heq. rewrite <- app_assoc. cbn [app].
        unfold load_nodes. cbn [List.filter snd]. rewrite E. cbn [length].
        f_equal. destruct w; unfold with_tick; cbn. f_equal. lia.
    + destruct (IH Hpre acc w) as (found & Hkeys & Heq).
      exists found. split.
      * unfold load_nodes. cbn [List.filter snd]. rewrite E. exact Hkeys.
      * intros rest. cbn [app]. rewrite in_filepaths_skip by exact E.
        rewrite Heq. unfold load_nodes. cbn [List.filter snd]. now rewrite E.
Qed.

Lemma in_filepaths_found env (process_graph : ProcessGraph) w :
  (∀ name n, (name, n) ∈ process_graph → is_load_collection n = true →
     ∃ a, arguments n = Some a
          ∧ ∀ t, ∃ data, get_filepaths env t a = Ret (ReplyData data)) →
  ∃ in_filepaths,
    _get_in_filepaths env process_graph [] w
    = (Ret (inr in_filepaths),
       with_tick (tick w + length (load_nodes process_graph))%nat w)
    ∧ in_filepaths.*1 = (load_nodes process_graph).*1.
Proof.
  intros Hok. destruct (in_filepaths_prefix env process_graph Hok [] w)
    as (found & Hkeys & Heq).
  exists found. split; [|exact Hkeys].
  specialize (Heq []). rewrite app_nil_r in Heq. rewrite Heq. reflexivity.
Qed.

(** X4. When every [load_collection] node has its arguments and the data
    service finds files for each, [_get_in_filepaths] returns one entry per
    [load_collection] node, under the node's name and in the order of the
    graph; it asks the data service once per such node and for no other
    node, and changes nothing else. *)
Theorem in_filepaths_all_found env (process_graph : ProcessGraph) w :
  (∀ name n, (name, n) ∈ process_graph → is_load_collection n = true →
     ∃ a, arguments n = Some a
          ∧ ∀ t, ∃ data, get_filepaths env t a = Ret (ReplyData data)) →
  ∃ in_filepaths,
    _get_in_filepaths env process_graph [] w
    = (Ret (inr in_filepaths),
       with_tick (tick w + length (load_nodes process_graph))%nat w)
    ∧ in_filepaths.*1 = (load_nodes process_graph).*1.
Proof. apply in_filepaths_found. Qed.

Lemma in_filepaths_all_found_witness :
  (∀ name n, (name, n) ∈ sample_graph → is_load_collection n = true →
     ∃ a, arguments n = Some a
          ∧ ∀ t, ∃ data, get_filepaths (sample_env silent) t a = Ret (ReplyData data))
  ∧ ∃ in_filepaths,
      _get_in_filepaths (sample_env silent) sample_graph []
        (sample_world (Some JobStatus.created) [])
      = (Ret (inr in_filepaths),
         with_tick (0 + length (load_nodes sample_graph))%nat
           (sample_world (Some JobStatus.created) []))
      ∧ in_filepaths.*1 = ["dc"; "dc2"]%string.
Proof.
  assert (H : ∀ name n, (name, n) ∈ sample_graph → is_load_collection n = true →
     ∃ a, arguments n = Some a
          ∧ ∀ t, ∃ data, get_filepaths (sample_env silent) t a = Ret (ReplyData data)).
  { intros name n Hin Hl. apply list_elem_of_In in Hin. cbn in Hin.
    destruct Hin as [[= <- <-]|[[= <- <-]|[[= <- <-]|[]]]]; try discriminate Hl;
      (eexists; split; [reflexivity|]; intros t; eexists; reflexivity). }
  split; [exact H|].
  exact (in_filepaths_all_found (sample_env silent) sample_graph
           (sample_world (Some JobStatus.created) []) H).
Defined.

(** X5. The first error reply of the data service ends the lookup: it is
    returned as it came, and no node after the failing one is looked up. *)
Theorem in_filepaths_first_error env (pre post : ProcessGraph) name n a d w :
  (∀ name' n', (name', n') ∈ pre → is_load_collection n' = true →
     ∃ a', arguments n' = Some a'
           ∧ ∀ t, ∃ data, get_filepaths env t a' = Ret (ReplyData data)) →
  is_load_collection n = true → arguments n = Some a →
  get_filepaths env (tick w + length (load_nodes pre))%nat a = Ret (ReplyError d) →
  _get_in_filepaths env (pre ++ (name, n) :: post) [] w
  = (Ret (inl d), with_tick (S (tick w + length (load_nodes pre)))%nat w).
Proof.
  intros Hok Hl Ha Hd. destruct (in_filepaths_prefix env pre Hok [] w)
    as (found & _ & Heq).
  rewrite Heq, (in_filepaths_load _ _ _ a) by assumption.
  cbn [tick with_tick]. rewrite Hd. now destruct w.
Qed.

Lemma in_filepaths_first_error_witness :
  get_filepaths (with_get_filepaths (λ _ _, Ret (ReplyError sample_error))
                   (sample_env silent)) 0 sample_area
  = Ret (ReplyError sample_error)
  ∧ _get_in_filepaths (with_get_filepaths (λ _ _, Ret (ReplyError sample_error))
                         (sample_env silent))
      sample_graph [] (sample_world (Some JobStatus.created) [])
    = (Ret (inl sample_error),
       with_tick 1 (sample_world (Some JobStatus.created) [])).
Proof.
  split; [reflexivity|].
  apply (in_filepaths_first_error _ [] [("ndvi"%string, mkNode "ndvi" None);
           ("dc2"%string, mkNode "load_collection" (Some sample_area))]
           "dc" (mkNode "load_collection" (Some sample_area)) sample_area);
    try reflexivity.
  intros name' n' Hin. inversion Hin.
Defined.

(** ** Operations that only reconcile *)

Lemma extends_quietly_refl w : extends_quietly w w.
Proof.
  repeat split. exists []. now rewrite app_nil_r.
Qed.

Lemma extends_quietly_trans w1 w2 w3 :
  extends_quietly w1 w2 → extends_quietly w2 w3 → extends_quietly w1 w3.
Proof.
  intros (Hf & Hb & Ht & a & Ha & Hqa) (Hf' & Hb' & Ht' & b & Hb2 & Hqb).
  split; [congruence|]. split; [congruence|]. split; [congruence|].
  exists (a ++ b). split.
  - now rewrite Hb2, Ha, app_assoc.
  - now rewrite forallb_app, Hqa, Hqb.
Qed.

Lemma quiet_ret {A} (a : A) : quiet (ret a).
Proof. intros w o w' [= _ <-]. apply extends_quietly_refl. Qed.

Lemma quiet_raise {A} e : quiet (raise (A:=A) e).
Proof. intros w o w' [= _ <-]. apply extends_quietly_refl. Qed.

Lemma quiet_lift {A} (x : Outcome A) : quiet (lift x).
Proof. intros w o w' [= _ <-]. apply extends_quietly_refl. Qed.

Lemma quiet_bind {A B} (m : M A) (k : A → M B) :
  quiet m → (∀ a, quiet (k a)) → quiet (bind m k).
Proof.
  intros Hm Hk w o w' H. unfold bind in H.
  destruct (m w) as [[a|e|] w1] eqn:E.
  - eapply extends_quietly_trans; [exact (Hm _ _ _ E)|exact (Hk _ _ _ _ H)].
  - injection H as _ <-. exact (Hm _ _ _ E).
  - injection H as _ <-. exact (Hm _ _ _ E).
Qed.

Lemma quiet_field {A} (f : World → Outcome A) (g : World → World) :
  (∀ w, folders (g w) = folders w ∧ backups (g w) = backups w
        ∧ threads (g w) = threads w ∧ trace (g w) = trace w) →
  quiet (λ w, (f w, g w)).
Proof.
  intros Hg w o w' [= _ <-]. destruct (Hg w) as (? & ? & ? & Ht).
  repeat split; try assumption. exists []. now rewrite app_nil_r.
Qed.

Lemma quiet_next_tick : quiet next_tick.
Proof. apply (quiet_field (λ w, Ret (tick w))). now intros w. Qed.

Lemma quiet_call {A} (f : nat → Outcome A) : quiet (call f).
Proof. apply quiet_bind; [apply quiet_next_tick|intros; apply quiet_lift]. Qed.

Lemma quiet_db_query_first job : quiet (db_query_first job).
Proof. apply (quiet_field (λ w, Ret (working w !! job)) (λ w, w)). now intros w. Qed.

Lemma quiet_db_assign job f : quiet (db_assign job f).
Proof. apply (quiet_field (λ _, Ret tt)). now intros w. Qed.

Lemma quiet_job_attr {A} job (f : Job → A) : quiet (job_attr job f).
Proof.
  intros w o w' H. unfold job_attr in H.
  destruct (working w !! job); injection H as _ <-; apply extends_quietly_refl.
Qed.

Lemma quiet_emit e : is_reconcile_event e = true → quiet (emit e).
Proof.
  intros He w o w' [= _ <-]. repeat split. exists [e]. split; [reflexivity|].
  cbn. now rewrite He.
Qed.

Lemma quiet_db_commit : quiet db_commit.
Proof.
  intros w o w' [= _ <-]. repeat split. exists [DbCommit]. now split.
Qed.

Lemma quiet_check_dag_status env dag_id : quiet (airflow_check_dag_status env dag_id).
Proof.
  apply quiet_bind; [apply quiet_next_tick|intros t].
  apply quiet_bind; [now apply quiet_emit|intros _; apply quiet_ret].
Qed.

Lemma quiet_utcnow env : quiet (datetime_utcnow env).
Proof. apply quiet_bind; [apply quiet_next_tick|intros t; apply quiet_ret]. Qed.

Lemma quiet_collect env job dag_ids : ∀ ss ts, quiet (collect env job dag_ids ss ts).
Proof.
  induction dag_ids as [|d rest IH]; intros ss ts; cbn [collect].
  - apply quiet_ret.
  - apply quiet_bind; [apply quiet_check_dag_status|intros [[s|] t]]; cbn [fst snd].
    + destruct job as [j|]; [|apply quiet_raise].
      destruct (eligible j (Some s, t)); apply IH.
    + apply IH.
Qed.

Lemma quiet_update_job_status env job_id : quiet (_update_job_status env job_id).
Proof.
  unfold _update_job_status.
  apply quiet_bind; [apply quiet_db_query_first|intros job].
  apply quiet_bind; [apply quiet_collect|intros [ss ts]].
  apply quiet_bind.
  - destruct ss as [|s0 ss]; [apply quiet_ret|].
    apply quiet_bind; [apply quiet_lift|intros s].
    apply quiet_bind; [apply quiet_db_assign|intros _].
    apply quiet_bind; [apply quiet_utcnow|intros t].
    apply quiet_bind; [apply quiet_db_assign|intros _; apply quiet_db_commit].
  - intros _. destruct job; [apply quiet_ret|apply quiet_raise].
Qed.

Lemma quiet_handle user links m : quiet m → quiet (handle user links m).
Proof.
  intros Hm w o w' H. unfold handle in H.
  destruct (m w) as [[r|e|] w1] eqn:E; injection H as _ <-; exact (Hm _ _ _ E).
Qed.

Lemma quiet_authorized user job_id k : quiet k → quiet (authorized user job_id k).
Proof.
  intros Hk. unfold authorized.
  apply quiet_bind; [apply quiet_db_query_first|intros job].
  destruct (authorize user job_id job); [apply quiet_ret|exact Hk].
Qed.

Ltac quiet :=
  repeat first
    [ apply quiet_ret
    | apply quiet_raise
    | apply quiet_lift
    | apply quiet_call
    | apply quiet_job_attr
    | apply quiet_db_assign
    | apply quiet_db_commit
    | apply quiet_update_job_status
    | apply quiet_handle
    | apply quiet_authorized
    | apply quiet_bind; [|intros ?]
    | match goal with
      | |- quiet (match ?x with _ => _ end) => destruct x
      | |- quiet (if ?x then _ else _) => destruct x
      end ].

(** X6. [get], [modify] and [get_results] touch no job folder and no
    backup folder, start no thread and never act on the orchestrator
    except to read unit statuses, whatever the job, the caller and the
    answers of the other services: the events they add to the trace are
    status reads and database commits.  The requests they send to the
    processes and the files service are no trace events and are outside
    this statement, the graph that [modify] stores in the processes
    service among them. *)
Theorem reading_operations_are_quiet env user job_id job_args api_spec :
  quiet (get env user job_id)
  ∧ quiet (modify env user job_id job_args)
  ∧ quiet (get_results env user job_id api_spec).
Proof.
  split; [|split].
  - unfold get. quiet.
  - unfold modify. quiet.
  - unfold get_results. quiet.
Qed.

(** ** What the guarded operations do *)

(** X7. [modify] and [process] on a queued or running job of the caller
    stop at the guard: they end in the very world reconciliation left, so
    nothing of the request is stored, no result folder is set up and no
    unit is written or triggered. *)
Theorem locked_job_untouched env user job_id job job_args w w1 j1 :
  working w !! job_id = Some job → user_id job = user →
  _update_job_status env job_id w = (Ret tt, w1) →
  working w1 !! job_id = Some j1 → locked_status (status j1) →
  (modify env user job_id job_args w).2 = w1
  ∧ (process env user job_id w).2 = w1.
Proof.
  intros Hjob Hown Hup Hj1 Hl. apply status_in_queued_running in Hl.
  unfold modify, process. rewrite !(guarded_eq _ _ _ _ job) by assumption.
  rewrite Hup, Hj1, Hl. now split.
Qed.

Lemma locked_job_untouched_witness :
  working (sample_world (Some JobStatus.created) []) !! "j1"%string
  = Some (sample_job (Some JobStatus.created))
  ∧ (process (sample_env all_running) "alice" "j1"
       (sample_world (Some JobStatus.created) [])).2
    = (_update_job_status (sample_env all_running) "j1"
         (sample_world (Some JobStatus.created) [])).2.
Proof.
  split; [reflexivity|].
  apply (locked_job_untouched (sample_env all_running) "alice" "j1"
           (sample_job (Some JobStatus.created)) no_args
           (sample_world (Some JobStatus.created) []) _
           (set_status_updated_at 102 (sample_job (Some JobStatus.running))));
    first [reflexivity | vm_compute; reflexivity | now right].
Defined.

(** X8. [modify] without a new process graph and with no budget, or with
    a budget of 0, which counts as none, on a job of the caller that is
    neither queued nor running, answers 204 and commits the row with the
    given title, description and plan (an absent key keeps the old
    value).  Budget, status, timestamp, owner and process graph stay as
    reconciliation left them. *)
Theorem modify_updates_metadata env user job_id job job_args w w1 j1 :
  working w !! job_id = Some job → user_id job = user →
  _update_job_status env job_id w = (Ret tt, w1) →
  working w1 !! job_id = Some j1 → ¬ locked_status (status j1) →
  arg_process job_args = None →
  arg_budget job_args = None ∨ arg_budget job_args = Some 0 →
  ∃ w' row,
    modify env user job_id job_args w = (Ret (Success 204 NoBody), w')
    ∧ committed w' !! job_id = Some row ∧ working w' = committed w'
    ∧ title row = default (title j1) (arg_title job_args)
    ∧ description row = default (description j1) (arg_description job_args)
    ∧ plan row = default (plan j1) (arg_plan job_args)
    ∧ budget row = budget j1
    ∧ status row = status j1 ∧ status_updated_at row = status_updated_at j1
    ∧ user_id row = user_id j1 ∧ process_graph_id row = process_graph_id j1.
Proof.
  intros Hjob Hown Hup Hj1 Hn Hp Hb.
  unfold modify. rewrite (guarded_eq _ _ _ _ job) by assumption.
  rewrite Hup, Hj1, (status_in_queued_running_false _ Hn), Hp.
  eexists _, _. split; [reflexivity|]. cbn [committed working with_trace with_committed
    with_working]. rewrite lookup_alter_eq, Hj1. cbn.
  split; [reflexivity|]. split; [reflexivity|].
  repeat (split; [reflexivity|]).
  split; [destruct Hb as [-> | ->]; reflexivity|]. now repeat split.
Qed.

Lemma modify_updates_metadata_witness :
  working (sample_world (Some JobStatus.finished) []) !! "j1"%string
  = Some (sample_job (Some JobStatus.finished))
  ∧ ∃ w' row,
      modify (sample_env silent) "alice" "j1"
        (mkJobArgs None (Some (Some "NDVI"%string)) None None (Some 0))
        (sample_world (Some JobStatus.finished) [])
      = (Ret (Success 204 NoBody), w')
      ∧ committed w' !! "j1"%string = Some row
      ∧ title row = Some "NDVI"%string ∧ budget row = None
      ∧ status row = Some JobStatus.finished.
Proof.
  split; [reflexivity|].
  destruct (modify_updates_metadata (sample_env silent) "alice" "j1"
              (sample_job (Some JobStatus.finished))
              (mkJobArgs None (Some (Some "NDVI"%string)) None None (Some 0))
              (sample_world (Some JobStatus.finished) [])
              (after_reads ["j1_prep"%string; "j1_parallel"%string]
                 (sample_world (Some JobStatus.finished) []))
              (sample_job (Some JobStatus.finished))
              eq_refl eq_refl eq_refl eq_refl)
    as (w' & row & Hm & Hrow & _ & Ht & _ & _ & Hb & Hs & _);
    [intros [H|H]; discriminate H|reflexivity|now right|].
  exists w', row. split; [exact Hm|]. split; [exact Hrow|].
  split; [exact Ht|]. split; [exact Hb|exact Hs].
Defined.

(** X9. When the processes service rejects the new process graph,
    [modify] passes its error on as it came and nothing of the request is
    stored: rows and session are as reconciliation left them.  The graph
    is sent under the id it carries or, when it carries none, under an id
    generated for it. *)
Theorem modify_rejected_graph env user job_id job job_args w w1 j1 graph d :
  working w !! job_id = Some job → user_id job = user →
  _update_job_status env job_id w = (Ret tt, w1) →
  working w1 !! job_id = Some j1 → ¬ locked_status (status j1) →
  arg_process job_args = Some graph →
  let graph_id := default (generate_alphanumeric_id env (tick w1)) (given_id graph) in
  let asked := match given_id graph with
               | Some _ => tick w1
               | None => S (tick w1)
               end in
  put_user_defined env asked user graph_id graph = Ret (ReplyError d) →
  modify env user job_id job_args w = (Ret (Forwarded d), with_tick (S asked) w1).
Proof.
  intros Hjob Hown Hup Hj1 Hn Hp graph_id asked Hput. subst graph_id asked.
  unfold modify. rewrite (guarded_eq _ _ _ _ job) by assumption.
  rewrite Hup, Hj1, (status_in_queued_running_false _ Hn), Hp.
  apply handle_ret. unfold bind at 1. unfold bind at 1.
  destruct (given_id graph) as [i|]; unfold default in Hput; cbn [from_option id] in Hput.
  - unfold ret at 1. unfold bind at 1. rewrite call_eq, Hput. reflexivity.
  - unfold bind at 1. rewrite call_eq. unfold bind at 1. rewrite call_eq.
    cbn [tick with_tick]. rewrite Hput. destruct w1; reflexivity.
Qed.

(** A graph without an id: it is sent under the generated one. *)
Lemma modify_rejected_graph_witness :
  working (sample_world (Some JobStatus.created) []) !! "j1"%string
  = Some (sample_job (Some JobStatus.created))
  ∧ modify (with_put_user_defined
              (λ _ _ graph_id _,
                 if String.eqb graph_id "abcdefgh" then Ret (ReplyError sample_error)
                 else Ret (ReplyData tt))
              (sample_env silent)) "alice" "j1"
      (mkJobArgs (Some (mkProcessArgs None sample_graph)) (Some (Some "NDVI"%string))
         None None None)
      (sample_world (Some JobStatus.created) [])
    = (Ret (Forwarded sample_error),
       with_tick 4 (after_reads ["j1_prep"%string; "j1_parallel"%string]
                      (sample_world (Some JobStatus.created) []))).
Proof.
  split; [reflexivity|].
  apply (modify_rejected_graph
           (with_put_user_defined
              (λ _ _ graph_id _,
                 if String.eqb graph_id "abcdefgh" then Ret (ReplyError sample_error)
                 else Ret (ReplyData tt))
              (sample_env silent)) "alice" "j1"
           (sample_job (Some JobStatus.created))
           (mkJobArgs (Some (mkProcessArgs None sample_graph)) (Some (Some "NDVI"%string))
              None None None)
           (sample_world (Some JobStatus.created) [])
           (after_reads ["j1_prep"%string; "j1_parallel"%string]
              (sample_world (Some JobStatus.created) []))
           (sample_job (Some JobStatus.created)) (mkProcessArgs None sample_graph)
           sample_error);
    try reflexivity.
  intros [H|H]; discriminate H.
Defined.

(** X10. [get] on a job of the caller answers 200 with the row as
    reconciliation left it and the process graph the processes service
    holds under the row's graph id; an error of that service is passed on
    as it came.  Either way one request is made to it and nothing else
    changes. *)
Theorem get_reports_reconciled_row env user job_id job w w1 j1 reply :
  working w !! job_id = Some job → user_id job = user →
  _update_job_status env job_id w = (Ret tt, w1) →
  working w1 !! job_id = Some j1 →
  get_user_defined env (tick w1) user (process_graph_id j1) = Ret reply →
  get env user job_id w
  = (Ret match reply with
         | ReplyData process => Success 200 (JobInfo j1 process)
         | ReplyError d => Forwarded d
         end,
     with_tick (S (tick w1)) w1).
Proof.
  intros Hjob Hown Hup Hj1 Hreply. unfold get. apply handle_ret.
  rewrite (authorized_pass _ _ job) by assumption.
  unfold bind at 1. rewrite Hup.
  unfold bind at 1. unfold job_attr at 1. rewrite Hj1.
  unfold bind at 1. rewrite call_eq, Hreply.
  destruct reply as [d|process]; [reflexivity|].
  unfold bind, job_attr. cbn [working with_tick]. now rewrite Hj1.
Qed.

Lemma get_reports_reconciled_row_witness :
  working (sample_world (Some JobStatus.created) []) !! "j1"%string
  = Some (sample_job (Some JobStatus.created))
  ∧ get (with_get_user_defined (λ _ _ _, Ret (ReplyData sample_graph))
           (sample_env all_running)) "alice" "j1"
      (sample_world (Some JobStatus.created) [])
    = (Ret (Success 200
              (JobInfo (set_status_updated_at 102 (sample_job (Some JobStatus.running)))
                       sample_graph)),
       with_tick 4
         (_update_job_status (sample_env all_running) "j1"
            (sample_world (Some JobStatus.created) [])).2).
Proof.
  split; [reflexivity|].
  exact (get_reports_reconciled_row
           (with_get_user_defined (λ _ _ _, Ret (ReplyData sample_graph))
              (sample_env all_running)) "alice" "j1"
           (sample_job (Some JobStatus.created))
           (sample_world (Some JobStatus.created) [])
           (_update_job_status (sample_env all_running) "j1"
              (sample_world (Some JobStatus.created) [])).2
           (set_status_updated_at 102 (sample_job (Some JobStatus.running)))
           (ReplyData sample_graph) eq_refl eq_refl eq_refl eq_refl eq_refl).
Defined.

(** ** Results *)

(** X11. [get_results] on a job of the caller that reconciliation leaves
    in error answers 424 with the job's stored error text, and on one left
    canceled answers 400; both are [internal = false], and neither asks
    the files service or changes anything after reconciliation. *)
Theorem failed_or_canceled_results env user job_id api_spec job w w1 j1 :
  working w !! job_id = Some job → user_id job = user →
  _update_job_status env job_id w = (Ret tt, w1) →
  working w1 !! job_id = Some j1 →
  (status j1 = Some JobStatus.error →
   get_results env user job_id api_spec w
   = (Ret (Error (mkErr "jobs" 424 user (MsgJobError (error j1)) false [])), w1))
  ∧ (status j1 = Some JobStatus.canceled →
     get_results env user job_id api_spec w
     = (Ret (Error (mkErr "jobs" 400 user (MsgWasCanceled job_id) false [])), w1)).
Proof.
  intros Hjob Hown Hup Hj1.
  unfold get_results. rewrite (guarded_eq _ _ _ _ job) by assumption.
  rewrite Hup, Hj1. split; intros ->; apply handle_ret; cbn [option_eqb JobStatus.eqb].
  - unfold bind, job_attr. now rewrite Hj1.
  - reflexivity.
Qed.

Lemma failed_or_canceled_results_witness :
  working (sample_world (Some JobStatus.canceled) []) !! "j1"%string
  = Some (sample_job (Some JobStatus.canceled))
  ∧ get_results (sample_env silent) "alice" "j1" sample_api
      (sample_world (Some JobStatus.canceled) [])
    = (Ret (Error (mkErr "jobs" 400 "alice" (MsgWasCanceled "j1") false [])),
       after_reads ["j1_prep"%string; "j1_parallel"%string]
         (sample_world (Some JobStatus.canceled) [])).
Proof.
  split; [reflexivity|].
  apply (failed_or_canceled_results (sample_env silent) "alice" "j1" sample_api
           (sample_job (Some JobStatus.canceled))
           (sample_world (Some JobStatus.canceled) []) _
           (sample_job (Some JobStatus.canceled)));
    reflexivity.
Defined.

Lemma assets_lookup env url (files : list string) i f :
  files !! i = Some f →
  map (λ f, mkAsset (_get_download_url env url f) (os_path_basename f)) files !! i
  = Some (mkAsset (_get_download_url env url f) (os_path_basename f)).
Proof.
  intros H. change (map ?g files) with (g <$> files).
  now rewrite list_lookup_fmap, H.
Qed.

(** X12. [get_results] on a finished job of the caller, when the files
    service lists the output and the metadata file loads with a ['type']
    entry and without an ['assets'] entry (so that updating the answer
    with the metadata replaces no asset and the ['type'] of the answer can
    be read), answers 200, and the assets it has given the job are one per
    listed file, in the order listed: the [href] is the download url built
    on the first server of the API description, the [name] the file's last
    path component, which is also the last component of the [href]. *)
Theorem finished_results_assets env user job_id api_spec job w w1 j1
    out file metadata url others :
  working w !! job_id = Some job → user_id job = user →
  _update_job_status env job_id w = (Ret tt, w1) →
  working w1 !! job_id = Some j1 → status j1 = Some JobStatus.finished →
  get_job_output env (tick w1) user job_id = Ret (ReplyData out) →
  metadata_file out = Some file →
  load_metadata env (S (tick w1)) file = Ret metadata →
  (∃ v, ("type"%string, v) ∈ metadata) → (∀ v, ("assets"%string, v) ∉ metadata) →
  servers api_spec = url :: others →
  ∃ assets,
    get_results env user job_id api_spec w
    = (Ret (Success 200 (Results j1 assets (stac_version api_spec) metadata)),
       with_tick (S (S (tick w1))) w1)
    ∧ length assets = length (file_list out)
    ∧ ∀ i f, file_list out !! i = Some f →
        ∃ a, assets !! i = Some a
             ∧ href a = _get_download_url env url f
             ∧ name a = os_path_basename f
             ∧ os_path_basename (href a) = name a.
Proof.
  intros Hjob Hown Hup Hj1 Hfin Hout Hfile Hmeta _ _ Hurl.
  exists (map (λ f, mkAsset (_get_download_url env url f) (os_path_basename f))
            (file_list out)).
  split; [|split].
  - unfold get_results. rewrite (guarded_eq _ _ _ _ job) by assumption.
    rewrite Hup, Hj1, Hfin. apply handle_ret. cbn [option_eqb JobStatus.eqb status_in existsb orb].
    unfold bind at 1. rewrite call_eq, Hout, Hfile.
    unfold bind at 1. rewrite call_eq. cbn [tick with_tick]. rewrite Hmeta, Hurl.
    unfold bind at 1.
    destruct (file_list out) as [|f fs]; unfold ret at 1;
      unfold bind, job_attr; cbn [working with_tick]; rewrite Hj1;
      destruct w1; reflexivity.
  - apply length_map.
  - intros i f Hf.
    exists (mkAsset (_get_download_url env url f) (os_path_basename f)).
    split; [exact (assets_lookup env url _ i f Hf)|].
    cbn. split; [reflexivity|]. split; [reflexivity|].
    apply basename_of_download_url.
Qed.

Lemma finished_results_assets_witness :
  working (sample_world (Some JobStatus.finished) []) !! "j1"%string
  = Some (sample_job (Some JobStatus.finished))
  ∧ ∃ assets,
      get_results (with_load_metadata (λ _ _, Ret [("type", "Feature")]%string)
                     (with_get_job_output (λ _ _ _, Ret (ReplyData sample_output))
                        (sample_env silent))) "alice" "j1" sample_api
        (sample_world (Some JobStatus.finished) [])
      = (Ret (Success 200 (Results (sample_job (Some JobStatus.finished)) assets
                             "0.9.0" [("type", "Feature")]%string)),
         with_tick 4 (after_reads ["j1_prep"%string; "j1_parallel"%string]
                        (sample_world (Some JobStatus.finished) [])))
      ∧ length assets = 2%nat.
Proof.
  split; [reflexivity|].
  destruct (finished_results_assets
              (with_load_metadata (λ _ _, Ret [("type", "Feature")]%string)
                 (with_get_job_output (λ _ _ _, Ret (ReplyData sample_output))
                    (sample_env silent))) "alice" "j1" sample_api
              (sample_job (Some JobStatus.finished))
              (sample_world (Some JobStatus.finished) [])
              (after_reads ["j1_prep"%string; "j1_parallel"%string]
                 (sample_world (Some JobStatus.finished) []))
              (sample_job (Some JobStatus.finished)) sample_output
              "/data/alice/jobs/j1/result/results_metadata.json"
              [("type", "Feature")]%string
              "https://openeo.example.org" []
              eq_refl eq_refl eq_refl eq_refl eq_refl eq_refl eq_refl eq_refl)
    as (assets & Hres & Hlen & _).
  - exists "Feature"%string. left.
  - intros v Hv. apply list_elem_of_singleton in Hv. discriminate Hv.
  - reflexivity.
  - exists assets. split; [exact Hres|exact Hlen].
Defined.

(** ** Starting a job *)

Lemma setup_jobs_result_folder_eq user job_id w :
  FilesService.setup_jobs_result_folder user job_id w
  = (Ret tt, with_result_folder user job_id w).
Proof.
  unfold FilesService.setup_jobs_result_folder, with_result_folder.
  destruct (folders w !! (user, job_id)); reflexivity.
Qed.

Lemma with_result_folder_frame user job_id w :
  committed (with_result_folder user job_id w) = committed w
  ∧ working (with_result_folder user job_id w) = working w
  ∧ tick (with_result_folder user job_id w) = tick w
  ∧ trace (with_result_folder user job_id w) = trace w
  ∧ threads (with_result_folder user job_id w) = threads w.
Proof.
  unfold with_result_folder. destruct (folders w !! (user, job_id)); now cbn.
Qed.

Lemma with_tick_with_tick n m w : with_tick n (with_tick m w) = with_tick n w.
Proof. reflexivity. Qed.

(** [process] up to the answer of the trigger, when everything before it
    succeeds. *)
Lemma process_until_trigger env user job_id job w w1 j1 processes graph folder b :
  working w !! job_id = Some job → user_id job = user →
  _update_job_status env job_id w = (Ret tt, w1) →
  working w1 !! job_id = Some j1 → ¬ locked_status (status j1) →
  (∀ t, get_all_predefined env t = Ret (ReplyData processes)) →
  (∀ t, get_user_defined env t user (process_graph_id j1) = Ret (ReplyData graph)) →
  (∀ name n, (name, n) ∈ graph → is_load_collection n = true →
     ∃ a, arguments n = Some a
          ∧ ∀ t, ∃ data, get_filepaths env t a = Ret (ReplyData data)) →
  (∀ t, get_latest_job_run_folder_name env t user job_id = Ret folder) →
  (∀ t, write_and_move_job env t job_id graph = Ret tt) →
  (∀ t, trigger_dag env t (get_preparation_dag_id env job_id) = Ret b) →
  process env user job_id w
  = handle user []
      (if negb b then
         ret (Error (to_dict (mkExc 500 user (MsgCouldNotStart job_id) default_internal [])))
       else
         _update_job_status env job_id ;;
         call (λ t, delete_old_job_runs env t user job_id) ;;
         ret (Success 202 NoBody))
      (triggered env user job_id (5 + length (load_nodes graph)) w1).
Proof.
  intros Hjob Hown Hup Hj1 Hn Hproc Hgraph Hload Hfolder Hwrite Htrig.
  unfold process. rewrite (guarded_eq _ _ _ _ job) by assumption.
  rewrite Hup, Hj1, (status_in_queued_running_false _ Hn).
  destruct (with_result_folder_frame user job_id w1) as (Hc & Hw & Htk & Htr & Hth).
  unfold handle. f_equal.
  unfold bind at 1. rewrite setup_jobs_result_folder_eq.
  unfold bind at 1. rewrite call_eq, Hproc.
  unfold bind at 1. unfold job_attr at 1. cbn [working with_tick]. rewrite Hw, Hj1.
  unfold bind at 1. rewrite call_eq, Hgraph.
  unfold bind at 1.
  destruct (in_filepaths_found env graph
              (with_tick (S (tick (with_tick (S (tick (with_result_folder user job_id w1)))
                                     (with_result_folder user job_id w1))))
                 (with_tick (S (tick (with_result_folder user job_id w1)))
                    (with_result_folder user job_id w1))) Hload)
    as (paths & -> & _).
  unfold bind at 1. rewrite call_eq, Hfolder.
  unfold bind at 1. rewrite call_eq, Hwrite.
  unfold bind at 1. unfold emit at 1.
  unfold bind at 1. unfold emit at 1.
  unfold bind at 1. rewrite call_eq, Htrig.
  cbn [tick trace with_tick with_trace]. rewrite Htk, Htr.
  replace (triggered env user job_id (5 + length (load_nodes graph)) w1)
    with (with_tick (S (S (S (S (S (tick w1 + length (load_nodes graph)))))))
            (with_trace ((trace w1 ++ [WriteDag job_id])
                         ++ [TriggerDag (get_preparation_dag_id env job_id)])
               (with_result_folder user job_id w1))); [reflexivity|].
  unfold triggered. rewrite <- app_assoc. cbn [app].
  destruct (with_result_folder user job_id w1); unfold with_tick, with_trace; cbn.
  f_equal. lia.
Qed.

(** X13. When everything before the trigger succeeds but the orchestrator
    refuses it, [process] answers with the 500 error "could not be
    started": by then the result folder is set up and the units are
    written, but there is no second reconciliation and nothing was
    committed since the first. *)
Theorem process_trigger_refused env user job_id job w w1 j1 processes graph folder :
  working w !! job_id = Some job → user_id job = user →
  _update_job_status env job_id w = (Ret tt, w1) →
  working w1 !! job_id = Some j1 → ¬ locked_status (status j1) →
  (∀ t, get_all_predefined env t = Ret (ReplyData processes)) →
  (∀ t, get_user_defined env t user (process_graph_id j1) = Ret (ReplyData graph)) →
  (∀ name n, (name, n) ∈ graph → is_load_collection n = true →
     ∃ a, arguments n = Some a
          ∧ ∀ t, ∃ data, get_filepaths env t a = Ret (ReplyData data)) →
  (∀ t, get_latest_job_run_folder_name env t user job_id = Ret folder) →
  (∀ t, write_and_move_job env t job_id graph = Ret tt) →
  (∀ t, trigger_dag env t (get_preparation_dag_id env job_id) = Ret false) →
  ∃ w',
    process env user job_id w
    = (Ret (Error (to_dict (mkExc 500 user (MsgCouldNotStart job_id)
                             default_internal []))), w')
    ∧ trace w' = trace w1 ++ [WriteDag job_id;
                              TriggerDag (get_preparation_dag_id env job_id)]
    ∧ committed w' = committed w1 ∧ working w' = working w1
    ∧ is_Some (folders w' !! (user, job_id)).
Proof.
  intros Hjob Hown Hup Hj1 Hn Hproc Hgraph Hload Hfolder Hwrite Htrig.
  eexists. split.
  - rewrite (process_until_trigger env user job_id job w w1 j1 processes graph folder false)
      by assumption.
    reflexivity.
  - destruct (with_result_folder_frame user job_id w1) as (Hc & Hw & _).
    cbn. split; [reflexivity|]. split; [exact Hc|]. split; [exact Hw|].
    unfold with_result_folder. destruct (folders w1 !! (user, job_id)) eqn:E.
    + now rewrite E.
    + cbn. rewrite lookup_insert_eq. now eexists.
Qed.

Lemma process_trigger_refused_witness :
  working (sample_world (Some JobStatus.created) []) !! "j1"%string
  = Some (sample_job (Some JobStatus.created))
  ∧ ∃ w',
      process (with_trigger_dag (λ _ _, Ret false) (sample_env silent)) "alice" "j1"
        (sample_world (Some JobStatus.created) [])
      = (Ret (Error (to_dict (mkExc 500 "alice" (MsgCouldNotStart "j1")
                               default_internal []))), w')
      ∧ committed w' = committed (sample_world (Some JobStatus.created) []).
Proof.
  split; [reflexivity|].
  destruct (process_trigger_refused
              (with_trigger_dag (λ _ _, Ret false) (sample_env silent)) "alice" "j1"
              (sample_job (Some JobStatus.created))
              (sample_world (Some JobStatus.created) [])
              (after_reads ["j1_prep"%string; "j1_parallel"%string]
                 (sample_world (Some JobStatus.created) []))
              (sample_job (Some JobStatus.created)) [] [] "run1"
              eq_refl eq_refl eq_refl eq_refl)
    as (w' & Hp & _ & Hc & _); try (intros; reflexivity).
  - intros [H|H]; discriminate H.
  - intros name n Hin. inversion Hin.
  - exists w'. split; [exact Hp|exact Hc].
Defined.

(** X14. When everything succeeds and the orchestrator accepts the
    trigger, [process] writes the units, triggers the preparation unit and
    no other, reconciles once more and answers 202: the status it leaves
    is the one this second reconciliation finds. *)
Theorem process_started env user job_id job w w1 j1 processes graph folder w3 :
  working w !! job_id = Some job → user_id job = user →
  _update_job_status env job_id w = (Ret tt, w1) →
  working w1 !! job_id = Some j1 → ¬ locked_status (status j1) →
  (∀ t, get_all_predefined env t = Ret (ReplyData processes)) →
  (∀ t, get_user_defined env t user (process_graph_id j1) = Ret (ReplyData graph)) →
  (∀ name n, (name, n) ∈ graph → is_load_collection n = true →
     ∃ a, arguments n = Some a
          ∧ ∀ t, ∃ data, get_filepaths env t a = Ret (ReplyData data)) →
  (∀ t, get_latest_job_run_folder_name env t user job_id = Ret folder) →
  (∀ t, write_and_move_job env t job_id graph = Ret tt) →
  (∀ t, trigger_dag env t (get_preparation_dag_id env job_id) = Ret true) →
  (∀ t, delete_old_job_runs env t user job_id = Ret tt) →
  _update_job_status env job_id
    (triggered env user job_id (5 + length (load_nodes graph)) w1) = (Ret tt, w3) →
  process env user job_id w = (Ret (Success 202 NoBody), with_tick (S (tick w3)) w3).
Proof.
  intros Hjob Hown Hup Hj1 Hn Hproc Hgraph Hload Hfolder Hwrite Htrig Hold Hup2.
  rewrite (process_until_trigger env user job_id job w w1 j1 processes graph folder true)
    by assumption.
  apply handle_ret. cbn [negb]. unfold bind at 1. rewrite Hup2.
  unfold bind at 1. now rewrite call_eq, Hold.
Qed.

Lemma process_started_witness :
  working (sample_world (Some JobStatus.created) []) !! "j1"%string
  = Some (sample_job (Some JobStatus.created))
  ∧ ∃ w',
      process (sample_env queued_after_trigger) "alice" "j1"
        (sample_world (Some JobStatus.created) [])
      = (Ret (Success 202 NoBody), w')
      ∧ status_of (committed w') "j1" = Some JobStatus.queued
      ∧ trace w' = [CheckDagStatus "j1_prep"; CheckDagStatus "j1_parallel";
                    WriteDag "j1"; TriggerDag "j1_prep";
                    CheckDagStatus "j1_prep"; CheckDagStatus "j1_parallel"; DbCommit].
Proof.
  split; [reflexivity|].
  eexists. split; [|split].
  - apply (process_started (sample_env queued_after_trigger) "alice" "j1"
             (sample_job (Some JobStatus.created))
             (sample_world (Some JobStatus.created) [])
             (after_reads ["j1_prep"%string; "j1_parallel"%string]
                (sample_world (Some JobStatus.created) []))
             (sample_job (Some JobStatus.created)) [] [] "run1"
             (_update_job_status (sample_env queued_after_trigger) "j1"
                (triggered (sample_env queued_after_trigger) "alice" "j1" 5
                   (after_reads ["j1_prep"%string; "j1_parallel"%string]
                      (sample_world (Some JobStatus.created) [])))).2);
      try (intros; vm_compute; reflexivity).
    + intros [H|H]; discriminate H.
    + intros name n Hin. inversion Hin.
  - vm_compute. reflexivity.
  - vm_compute. reflexivity.
Defined.

(** ** Cancelling and deleting *)

(** X15. Cancelling a queued job of the caller whose folder exists writes
    the stop marker, polls once, removes everything from the job folder
    but the result files and sets the status to created, stamped and
    committed. *)
Theorem cancel_queued_resets_to_created env fuel user job_id job w w1 j1 f :
  working w !! job_id = Some job → user_id job = user →
  _update_job_status env job_id w = (Ret tt, w1) →
  working w1 !! job_id = Some j1 → status j1 = Some JobStatus.queued →
  folders w1 !! (user, job_id) = Some f → backups w1 !! (user, job_id) = None →
  ∃ w', cancel_processing env (S fuel) user job_id w = (Ret (Success 204 NoBody), w')
        ∧ committed w' !! job_id
          = Some (set_status_updated_at (utcnow env (S (tick w1)))
                    (set_status (Some JobStatus.created) j1))
        ∧ folders w' !! (user, job_id) = Some (mkFolder (result_files f) [])
        ∧ trace w' = trace w1 ++ [UploadStopFile user job_id; Sleep check_stop_interval;
                                  CheckDagStatus job_id; DbCommit; DbCommit].
Proof.
  intros Hjob Hown Hup Hj1 Hq Hf Hb.
  unfold cancel_processing.
  rewrite (guarded_eq _ _ _ _ job) by assumption. rewrite Hup, Hj1, Hq.
  cbn [status_in existsb JobStatus.eqb orb].
  destruct (delete_job_without_results_eq user job_id (marked f) (stopped user job_id f w1))
    as (w2 & Hdel & Hf2 & Hc2 & Hw2 & Hth2 & Htr2 & Htk2).
  { cbn. apply lookup_insert_eq. }
  { exact Hb. }
  assert (Hj2 : working w2 !! job_id = Some j1) by (rewrite Hw2; exact Hj1).
  eexists. split.
  - apply handle_ret. unfold bind at 1. unfold bind at 1.
    rewrite (stop_airflow_job_eq _ _ _ _ f) by exact Hf.
    unfold bind at 1. rewrite Hdel.
    unfold bind at 1. unfold job_attr. rewrite Hj2, Hq.
    cbn [option_eqb JobStatus.eqb andb].
    unfold bind at 1. rewrite (set_job_status_eq _ _ j1) by exact Hj2.
    unfold bind, db_commit, ret. reflexivity.
  - unfold store_status. wsimpl. split; [|split].
    + rewrite !lookup_alter_eq, Hj2, Htk2. reflexivity.
    + exact Hf2.
    + rewrite Htr2. cbn. now rewrite <- !app_assoc.
Qed.

Lemma cancel_queued_resets_to_created_witness :
  working (sample_world (Some JobStatus.queued) ["old.tif"%string]) !! "j1"%string
  = Some (sample_job (Some JobStatus.queued))
  ∧ ∃ w', cancel_processing (sample_env silent) 1 "alice" "j1"
            (sample_world (Some JobStatus.queued) ["old.tif"%string])
          = (Ret (Success 204 NoBody), w')
          ∧ committed w' !! "j1"%string
            = Some (set_status_updated_at 103
                      (set_status (Some JobStatus.created)
                         (sample_job (Some JobStatus.queued))))
          ∧ folders w' !! ("alice"%string, "j1"%string)
            = Some (mkFolder ["old.tif"%string] []).
Proof.
  split; [reflexivity|].
  destruct (cancel_queued_resets_to_created (sample_env silent) 0 "alice" "j1"
              (sample_job (Some JobStatus.queued))
              (sample_world (Some JobStatus.queued) ["old.tif"%string])
              (after_reads ["j1_prep"%string; "j1_parallel"%string]
                 (sample_world (Some JobStatus.queued) ["old.tif"%string]))
              (sample_job (Some JobStatus.queued))
              (mkFolder ["old.tif"%string] ["dag.py"%string])
              eq_refl eq_refl eq_refl eq_refl eq_refl eq_refl eq_refl)
    as (w' & Hc & Hrow & Hf & _).
  exists w'. split; [exact Hc|]. split; [exact Hrow|exact Hf].
Defined.

(** X16. [delete] without delay on a job of the caller that is neither
    queued nor running and has a folder answers 204: the folder is gone,
    the units are removed from the dag folder and from the orchestrator,
    the row is deleted and the deletion committed; the other rows of the
    session are untouched and no thread is started. *)
Theorem delete_removes_everything env fuel user job_id job w w1 j1 f :
  working w !! job_id = Some job → user_id job = user →
  _update_job_status env job_id w = (Ret tt, w1) →
  working w1 !! job_id = Some j1 → ¬ locked_status (status j1) →
  folders w1 !! (user, job_id) = Some f →
  ∃ w',
    delete env fuel user job_id false w = (Ret (Success 204 NoBody), w')
    ∧ committed w' = base.delete job_id (working w1)
    ∧ working w' = committed w'
    ∧ folders w' = base.delete (user, job_id) (folders w1)
    ∧ threads w' = threads w1
    ∧ trace w' = trace w1 ++ [RemoveAllDags job_id]
                 ++ map AirflowDeleteDag (get_all_dag_ids env job_id) ++ [DbCommit].
Proof.
  intros Hjob Hown Hup Hj1 Hn Hf.
  unfold delete. rewrite (guarded_eq _ _ _ _ job) by assumption.
  rewrite Hup, Hj1. apply status_in_running_queued_false in Hn. rewrite Hn.
  eexists. split.
  - apply handle_ret. unfold bind at 1. unfold ret at 1.
    unfold bind at 1. unfold FilesService.delete_complete_job. rewrite Hf.
    unfold bind at 1. unfold emit at 1.
    unfold bind at 1. rewrite delete_dags_eq.
    unfold bind, db_delete, db_commit, ret. reflexivity.
  - wsimpl. repeat (split; [reflexivity|]). now rewrite <- !app_assoc.
Qed.

Lemma delete_removes_everything_witness :
  working (sample_world (Some JobStatus.finished) ["out.tif"%string]) !! "j1"%string
  = Some (sample_job (Some JobStatus.finished))
  ∧ ∃ w',
      delete (sample_env silent) 0 "alice" "j1" false
        (sample_world (Some JobStatus.finished) ["out.tif"%string])
      = (Ret (Success 204 NoBody), w')
      ∧ committed w' !! "j1"%string = None
      ∧ folders w' !! ("alice"%string, "j1"%string) = None.
Proof.
  split; [reflexivity|].
  destruct (delete_removes_everything (sample_env silent) 0 "alice" "j1"
              (sample_job (Some JobStatus.finished))
              (sample_world (Some JobStatus.finished) ["out.tif"%string])
              (after_reads ["j1_prep"%string; "j1_parallel"%string]
                 (sample_world (Some JobStatus.finished) ["out.tif"%string]))
              (sample_job (Some JobStatus.finished))
              (mkFolder ["out.tif"%string] ["dag.py"%string])
              eq_refl eq_refl eq_refl eq_refl)
    as (w' & Hd & Hc & _ & Hf & _); [intros [H|H]; discriminate H|reflexivity|].
  exists w'. split; [exact Hd|]. split.
  - rewrite Hc. apply lookup_delete_eq.
  - rewrite Hf. apply lookup_delete_eq.
Defined.

(** X17. [delete] without delay on a job of the caller that has no folder
    on disk (a job that was created and never processed has none) ends in
    the 500 error of [FileNotFoundError], whatever the job's status: the
    row is kept, the units are not removed, and the world is the one
    reconciliation left. *)
Theorem delete_without_folder_fails env fuel user job_id job w w1 j1 :
  working w !! job_id = Some job → user_id job = user →
  _update_job_status env job_id w = (Ret tt, w1) →
  working w1 !! job_id = Some j1 →
  folders w1 !! (user, job_id) = None →
  delete env fuel user job_id false w
  = (Ret (Error (to_dict (mkExc 500 user (MsgOfExc FileNotFoundError)
                           default_internal []))), w1).
Proof.
  intros Hjob Hown Hup Hj1 Hf.
  unfold delete. rewrite (guarded_eq _ _ _ _ job) by assumption.
  rewrite Hup, Hj1. unfold handle.
  destruct (status_in (status j1) [JobStatus.running; JobStatus.queued]).
  - unfold bind at 1. unfold _stop_airflow_job.
    unfold bind at 1. unfold FilesService.upload_stop_job_file. now rewrite Hf.
  - unfold bind at 1. unfold ret at 1.
    unfold bind at 1. unfold FilesService.delete_complete_job. now rewrite Hf.
Qed.

Lemma delete_without_folder_fails_witness :
  working unprocessed_world !! "j1"%string = Some (sample_job (Some JobStatus.created))
  ∧ folders unprocessed_world !! ("alice"%string, "j1"%string) = None
  ∧ delete (sample_env silent) 1 "alice" "j1" false unprocessed_world
    = (Ret (Error (to_dict (mkExc 500 "alice" (MsgOfExc FileNotFoundError)
                             default_internal []))),
       after_reads ["j1_prep"%string; "j1_parallel"%string] unprocessed_world).
Proof.
  split; [reflexivity|]. split; [reflexivity|].
  apply (delete_without_folder_fails (sample_env silent) 1 "alice" "j1"
           (sample_job (Some JobStatus.created)) unprocessed_world
           (after_reads ["j1_prep"%string; "j1_parallel"%string] unprocessed_world)
           (sample_job (Some JobStatus.created)));
    reflexivity.
Defined.

(** ** The job folder *)

(** X18. [delete_job_without_results] on a job folder without a left-over
    backup folder removes every entry of the job folder but the result
    files, the stop marker included, leaves no backup folder behind and
    answers [True]; other job folders, rows, threads and trace are
    untouched.  With no job folder it raises [FileNotFoundError], with a
    left-over backup folder [FileExistsError], and changes nothing. *)
Theorem delete_job_without_results_effect user job w :
  match folders w !! (user, job), backups w !! (user, job) with
  | None, _ =>
      FilesService.delete_job_without_results user job w = (Raise FileNotFoundError, w)
  | Some _, Some _ =>
      FilesService.delete_job_without_results user job w = (Raise FileExistsError, w)
  | Some f, None =>
      FilesService.delete_job_without_results user job w
      = (Ret true,
         with_backups (base.delete (user, job) (backups w))
           (with_folders (<[(user, job) := mkFolder (result_files f) []]> (folders w)) w))
  end.
Proof.
  destruct (folders w !! (user, job)) as [f|] eqn:Hf;
    [destruct (backups w !! (user, job)) as [old|] eqn:Hb|];
    unfold FilesService.delete_job_without_results;
    unfold bind at 1; unfold FilesService.listdir_result at 1; rewrite Hf;
    [| |reflexivity];
    cbn [py_eq]; unfold bind at 1; unfold bind at 1;
    unfold FilesService.makedirs_backup; rewrite Hb; [reflexivity|].
  unfold bind at 1. unfold FilesService.rename_result_to_backup. wsimpl. rewrite Hf.
  unfold bind at 1. unfold FilesService.delete_complete_job. wsimpl.
  rewrite lookup_insert_eq.
  unfold bind at 1. unfold FilesService.setup_jobs_result_folder. wsimpl.
  rewrite lookup_delete_eq.
  unfold bind at 1. unfold FilesService.rename_backup_to_result. wsimpl.
  rewrite !lookup_insert_eq.
  unfold FilesService.rmtree_backup_if_dir. wsimpl.
  unfold bind, FilesService.listdir_result. wsimpl.
  rewrite lookup_insert_eq. unfold ret. cbn [py_ne py_eq negb result_files other_files].
  f_equal. destruct w; unfold with_backups, with_folders; cbn in *. f_equal.
  - rewrite insert_insert_eq, insert_delete_eq, insert_insert_eq. reflexivity.
  - apply map_eq. intros k. destruct (decide (k = (user, job))) as [->|Hk].
    + now rewrite !lookup_delete_eq.
    + now rewrite !lookup_delete_ne, !lookup_insert_ne by congruence.
Qed.

(** ** The order of effects of [process] *)

Lemma run_phases_app step p a b :
  run_phases step p (a ++ b)
  = match run_phases step p a with
    | Some q => run_phases step q b
    | None => None
    end.
Proof.
  revert p. induction a as [|e a IH]; intros p; cbn; [reflexivity|].
  destruct (step p e); [apply IH|reflexivity].
Qed.

Lemma advances_trans step p q r w1 w2 w3 :
  advances step p q w1 w2 → advances step q r w2 w3 → advances step p r w1 w3.
Proof.
  intros (Hb & Ht & Hf & a & Ha & Hra) (Hb' & Ht' & Hf' & b & Hb2 & Hrb).
  split; [congruence|]. split; [congruence|]. split; [auto|].
  exists (a ++ b). split.
  - now rewrite Hb2, Ha, app_assoc.
  - now rewrite run_phases_app, Hra.
Qed.

Lemma run_phases_reconcile job_id preparation p events :
  p = preparing ∨ p = started →
  forallb is_reconcile_event events = true →
  run_phases (process_phase job_id preparation) p events = Some p.
Proof.
  intros Hp. induction events as [|e es IH]; cbn; [reflexivity|].
  intros H. apply andb_true_iff in H as [He Hes].
  destruct Hp as [-> | ->]; destruct e; try discriminate He; cbn; auto.
Qed.

Lemma follows_quiet {A} job_id preparation p (m : M A) :
  p = preparing ∨ p = started →
  quiet m → follows (process_phase job_id preparation) p p m.
Proof.
  intros Hp Hm w o w' H. destruct (Hm _ _ _ H) as (Hf & Hb & Ht & added & Ha & Hq).
  exists p. split; [|reflexivity].
  split; [exact Hb|]. split; [exact Ht|]. split; [now rewrite Hf|].
  exists added. split; [exact Ha|]. now apply run_phases_reconcile.
Qed.

Lemma within_follows {A} step p p' (m : M A) : follows step p p' m → within step p m.
Proof. intros H w o w' E. destruct (H _ _ _ E) as (q & Hq & _). now exists q. Qed.

Lemma within_quiet {A} job_id preparation p (m : M A) :
  p = preparing ∨ p = started →
  quiet m → within (process_phase job_id preparation) p m.
Proof. intros Hp Hm. eapply within_follows, follows_quiet; eassumption. Qed.

Lemma within_bind {A B} step p p1 (m : M A) (k : A → M B) :
  follows step p p1 m → (∀ a, within step p1 (k a)) → within step p (bind m k).
Proof.
  intros Hm Hk w o w' H. unfold bind in H.
  destruct (m w) as [[a|e|] w1] eqn:E; destruct (Hm _ _ _ E) as (q & Hq & Hret).
  - rewrite (Hret a eq_refl) in Hq. destruct (Hk _ _ _ _ H) as (r & Hr).
    exists r. eapply advances_trans; eassumption.
  - injection H as _ <-. now exists q.
  - injection H as _ <-. now exists q.
Qed.

Lemma within_handle step p user links m :
  within step p m → within step p (handle user links m).
Proof.
  intros Hm w o w' H. unfold handle in H.
  destruct (m w) as [[r|e|] w1] eqn:E; injection H as _ <-; exact (Hm _ _ _ E).
Qed.

Lemma follows_emit step p q e : step p e = Some q → follows step p q (emit e).
Proof.
  intros He w o w' [= _ <-]. exists q. split; [|reflexivity].
  repeat split; auto. exists [e]. split; [reflexivity|]. cbn. now rewrite He.
Qed.

Lemma follows_setup_folder step p user job_id :
  follows step p p (FilesService.setup_jobs_result_folder user job_id).
Proof.
  intros w o w' H. rewrite setup_jobs_result_folder_eq in H. injection H as _ <-.
  exists p. split; [|reflexivity].
  destruct (with_result_folder_frame user job_id w) as (_ & _ & _ & Htr & Hth).
  split; [unfold with_result_folder; now destruct (folders w !! (user, job_id))|].
  split; [exact Hth|]. split.
  - intros k f Hk. unfold with_result_folder.
    destruct (folders w !! (user, job_id)) eqn:E; [exact Hk|].
    cbn. rewrite lookup_insert_ne; [exact Hk|]. intros <-. congruence.
  - exists []. rewrite app_nil_r. now split.
Qed.

Lemma quiet_in_filepaths env graph : ∀ acc, quiet (_get_in_filepaths env graph acc).
Proof.
  induction graph as [|[name n] rest IH]; intros acc; cbn [_get_in_filepaths].
  - apply quiet_ret.
  - destruct (String.eqb (process_id n) "load_collection"); [|apply IH].
    destruct (arguments n); [|apply quiet_raise].
    apply quiet_bind; [apply quiet_call|intros [d|data]]; [apply quiet_ret|apply IH].
Qed.

Lemma process_within env user job_id :
  within (process_phase job_id (get_preparation_dag_id env job_id)) preparing
    (process env user job_id).
Proof.
  set (step := process_phase job_id (get_preparation_dag_id env job_id)).
  assert (Hq : ∀ A (m : M A), quiet m → follows step preparing preparing m)
    by (intros; apply follows_quiet; auto).
  assert (Hs : ∀ (m : M Response), quiet m → within step started m)
    by (intros; apply within_quiet; auto).
  assert (Hp : ∀ (m : M Response), quiet m → within step preparing m)
    by (intros; apply within_quiet; auto).
  unfold process. apply within_handle. unfold authorized.
  eapply within_bind; [apply Hq, quiet_db_query_first|intros job].
  destruct (authorize user job_id job); [apply Hp, quiet_ret|].
  eapply within_bind; [apply Hq, quiet_update_job_status|intros _].
  eapply within_bind; [apply Hq, quiet_job_attr|intros st].
  destruct (status_in st _); [apply Hp, quiet_ret|].
  eapply within_bind; [apply follows_setup_folder|intros _].
  eapply within_bind; [apply Hq, quiet_call|intros [d|processes]];
    [apply Hp, quiet_ret|].
  eapply within_bind; [apply Hq, quiet_job_attr|intros graph_id].
  eapply within_bind; [apply Hq, quiet_call|intros [d|graph]];
    [apply Hp, quiet_ret|].
  eapply within_bind; [apply Hq, quiet_in_filepaths|intros [d|paths]];
    [apply Hp, quiet_ret|].
  eapply within_bind; [apply Hq, quiet_call|intros _].
  eapply within_bind; [apply Hq, quiet_call|intros _].
  eapply within_bind; [apply (follows_emit step preparing written)|intros _].
  { subst step. cbn. now rewrite String.eqb_refl. }
  eapply within_bind; [apply (follows_emit step written started)|intros _].
  { subst step. cbn. now rewrite String.eqb_refl. }
  eapply within_bind; [apply follows_quiet; [now right|apply quiet_call]|intros b].
  destruct (negb b); apply Hs; quiet.
Qed.


(** ** Rows of other jobs, and the row of the job itself *)

Lemma others_untouched_refl jid w : others_untouched jid w w.
Proof. intros other _. split; [reflexivity|now left]. Qed.

Lemma others_untouched_trans jid w1 w2 w3 :
  others_untouched jid w1 w2 → others_untouched jid w2 w3 → others_untouched jid w1 w3.
Proof.
  intros H12 H23 other Hne.
  destruct (H12 other Hne) as [Hw [Hc|Hc]], (H23 other Hne) as [Hw' [Hc'|Hc']];
    (split; [congruence|]); [left|right|right|right]; congruence.
Qed.

Lemma row_survives_refl jid w : row_survives jid w w.
Proof. intros j Hj. exists j. now split. Qed.

Lemma row_survives_trans jid w1 w2 w3 :
  row_survives jid w1 w2 → row_survives jid w2 w3 → row_survives jid w1 w3.
Proof.
  intros H12 H23 j Hj. destruct (H12 j Hj) as (j2 & Hj2 & Hi & Hu).
  destruct (H23 j2 Hj2) as (j3 & Hj3 & Hi' & Hu').
  exists j3. split; [exact Hj3|]. split; congruence.
Qed.

Section Keeps.

Variable R : World → World → Prop.
Hypothesis R_trans : ∀ w1 w2 w3, R w1 w2 → R w2 w3 → R w1 w3.
Hypothesis R_db : ∀ w w', working w' = working w → committed w' = committed w → R w w'.

Lemma keeps_bind {A B} (m : M A) (k : A → M B) :
  keeps R m → (∀ a, keeps R (k a)) → keeps R (bind m k).
Proof.
  intros Hm Hk w o w' H. unfold bind in H.
  destruct (m w) as [[a|e|] w1] eqn:E.
  - eapply R_trans; [exact (Hm _ _ _ E)|exact (Hk _ _ _ _ H)].
  - injection H as _ <-. exact (Hm _ _ _ E).
  - injection H as _ <-. exact (Hm _ _ _ E).
Qed.

Lemma keeps_db_frame {A} (m : M A) : db_frame m → keeps R m.
Proof. intros Hm w o w' H. destruct (Hm _ _ _ H). now apply R_db. Qed.

Lemma keeps_handle user links m : keeps R m → keeps R (handle user links m).
Proof.
  intros Hm w o w' H. unfold handle in H.
  destruct (m w) as [[r|e|] w1] eqn:E; injection H as _ <-; exact (Hm _ _ _ E).
Qed.

End Keeps.

Lemma db_frame_pure {A} (f : World → Outcome A) (g : World → World) :
  (∀ w, working (g w) = working w ∧ committed (g w) = committed w) →
  db_frame (λ w, (f w, g w)).
Proof. intros Hg w o w' [= _ <-]. apply Hg. Qed.

Lemma db_frame_bind {A B} (m : M A) (k : A → M B) :
  db_frame m → (∀ a, db_frame (k a)) → db_frame (bind m k).
Proof.
  intros Hm Hk w o w' H. unfold bind in H.
  destruct (m w) as [[a|e|] w1] eqn:E; destruct (Hm _ _ _ E) as [H1 H2].
  - destruct (Hk _ _ _ _ H). split; congruence.
  - injection H as _ <-. now split.
  - injection H as _ <-. now split.
Qed.

Lemma db_frame_ret {A} (a : A) : db_frame (ret a).
Proof. now apply (db_frame_pure (λ _, Ret a) (λ w, w)). Qed.

Lemma db_frame_raise {A} e : db_frame (raise (A:=A) e).
Proof. now apply (db_frame_pure (λ _, Raise e) (λ w, w)). Qed.

Lemma db_frame_hang {A} : db_frame (hang (A:=A)).
Proof. now apply (db_frame_pure (λ _, Hang) (λ w, w)). Qed.

Lemma db_frame_lift {A} (x : Outcome A) : db_frame (lift x).
Proof. now apply (db_frame_pure (λ _, x) (λ w, w)). Qed.

Lemma db_frame_call {A} (f : nat → Outcome A) : db_frame (call f).
Proof. intros w o w' H. rewrite call_eq in H. now injection H as _ <-. Qed.

Lemma db_frame_emit e : db_frame (emit e).
Proof. now apply (db_frame_pure (λ _, Ret tt)). Qed.

Lemma db_frame_job_attr {A} jid (f : Job → A) : db_frame (job_attr jid f).
Proof.
  intros w o w' H. unfold job_attr in H.
  destruct (working w !! jid); now injection H as _ <-.
Qed.

Lemma db_frame_query jid : db_frame (db_query_first jid).
Proof. now apply (db_frame_pure (λ w, Ret (working w !! jid)) (λ w, w)). Qed.

Lemma db_frame_thread_start th : db_frame (thread_start th).
Proof. now apply (db_frame_pure (λ _, Ret tt)). Qed.

Lemma db_frame_check env dag_id : db_frame (airflow_check_dag_status env dag_id).
Proof.
  intros w o w' H. unfold airflow_check_dag_status, bind, next_tick, emit, ret in H.
  now injection H as _ <-.
Qed.

Lemma db_frame_utcnow env : db_frame (datetime_utcnow env).
Proof.
  intros w o w' H. unfold datetime_utcnow, bind, next_tick, ret in H.
  now injection H as _ <-.
Qed.

Ltac db_frame_by_cases H :=
  repeat match type of H with
         | context [match ?x with _ => _ end] => destruct x
         end;
  injection H as _ <-; now split.

Lemma db_frame_setup user job : db_frame (FilesService.setup_jobs_result_folder user job).
Proof.
  intros w o w' H. unfold FilesService.setup_jobs_result_folder in H.
  db_frame_by_cases H.
Qed.

Lemma db_frame_upload_stop user job : db_frame (FilesService.upload_stop_job_file user job).
Proof.
  intros w o w' H. unfold FilesService.upload_stop_job_file in H.
  destruct (folders w !! (user, job)); now injection H as _ <-.
Qed.

Lemma db_frame_delete_complete user job : db_frame (FilesService.delete_complete_job user job).
Proof.
  intros w o w' H. unfold FilesService.delete_complete_job in H.
  db_frame_by_cases H.
Qed.

Lemma db_frame_delete_without_results user job :
  db_frame (FilesService.delete_job_without_results user job).
Proof.
  intros w o w' H.
  pose proof (delete_job_without_results_effect user job w) as E.
  destruct (folders w !! (user, job)), (backups w !! (user, job));
    rewrite E in H; now injection H as _ <-.
Qed.

Lemma db_frame_wait_stopped env fuel jid : ∀ stopped,
  db_frame (wait_stopped env fuel jid stopped).
Proof.
  induction fuel as [|fuel IH]; intros [|]; cbn [wait_stopped];
    try apply db_frame_ret; [apply db_frame_hang|].
  apply db_frame_bind; [apply db_frame_emit|intros _].
  apply db_frame_bind; [apply db_frame_check|intros r]. apply IH.
Qed.

Lemma db_frame_stop env fuel user jid : db_frame (_stop_airflow_job env fuel user jid).
Proof.
  apply db_frame_bind; [apply db_frame_upload_stop|intros _; apply db_frame_wait_stopped].
Qed.

Lemma db_frame_in_filepaths env graph : ∀ acc, db_frame (_get_in_filepaths env graph acc).
Proof.
  induction graph as [|[name n] rest IH]; intros acc; cbn [_get_in_filepaths].
  - apply db_frame_ret.
  - destruct (String.eqb (process_id n) "load_collection"); [|apply IH].
    destruct (arguments n); [|apply db_frame_raise].
    apply db_frame_bind; [apply db_frame_call|intros [d|data]];
      [apply db_frame_ret|apply IH].
Qed.

Lemma db_frame_delete_dags (dag_ids : list string) :
  db_frame (fold_right (λ dag_id k, emit (AirflowDeleteDag dag_id) ;; k) (ret tt) dag_ids).
Proof.
  induction dag_ids as [|d rest IH]; cbn [fold_right]; [apply db_frame_ret|].
  apply db_frame_bind; [apply db_frame_emit|intros _; exact IH].
Qed.

Ltac db_frame :=
  first
    [ apply db_frame_ret | apply db_frame_raise | apply db_frame_lift
    | apply db_frame_call | apply db_frame_emit | apply db_frame_job_attr
    | apply db_frame_query | apply db_frame_thread_start | apply db_frame_setup
    | apply db_frame_delete_complete | apply db_frame_delete_without_results
    | apply db_frame_stop | apply db_frame_in_filepaths | apply db_frame_delete_dags
    | apply db_frame_check | apply db_frame_utcnow ].

(** The relation kept by the five operations that do not delete. *)
Lemma contained_refl jid w : others_untouched jid w w ∧ row_survives jid w w.
Proof. split; [apply others_untouched_refl|apply row_survives_refl]. Qed.

Lemma contained_trans jid w1 w2 w3 :
  others_untouched jid w1 w2 ∧ row_survives jid w1 w2 →
  others_untouched jid w2 w3 ∧ row_survives jid w2 w3 →
  others_untouched jid w1 w3 ∧ row_survives jid w1 w3.
Proof.
  intros [H1 H2] [H3 H4]. split;
    [eapply others_untouched_trans|eapply row_survives_trans]; eassumption.
Qed.

Lemma contained_db jid w w' :
  working w' = working w → committed w' = committed w →
  others_untouched jid w w' ∧ row_survives jid w w'.
Proof.
  intros Hw Hc. split.
  - intros other _. rewrite Hw, Hc. split; [reflexivity|now left].
  - intros j Hj. exists j. rewrite Hw. now split.
Qed.

Lemma others_untouched_db jid w w' :
  working w' = working w → committed w' = committed w → others_untouched jid w w'.
Proof. intros Hw Hc. now apply contained_db. Qed.

Lemma contained_assign jid f :
  (∀ j, same_identity j (f j)) →
  keeps (λ w w', others_untouched jid w w' ∧ row_survives jid w w') (db_assign jid f).
Proof.
  intros Hf w o w' [= _ <-]. split.
  - intros other Hne. cbn. rewrite lookup_alter_ne by congruence.
    split; [reflexivity|now left].
  - intros j Hj. exists (f j). cbn. rewrite lookup_alter_eq, Hj. split; [reflexivity|apply Hf].
Qed.

Lemma contained_commit jid :
  keeps (λ w w', others_untouched jid w w' ∧ row_survives jid w w') db_commit.
Proof.
  intros w o w' [= _ <-]. split.
  - intros other _. cbn. split; [reflexivity|now right].
  - intros j Hj. exists j. now split.
Qed.

Lemma others_untouched_delete jid : keeps (others_untouched jid) (db_delete jid).
Proof.
  intros w o w' [= _ <-] other Hne. cbn. rewrite lookup_delete_ne by congruence.
  split; [reflexivity|now left].
Qed.

Ltac contained :=
  repeat first
    [ apply (keeps_db_frame _ (contained_db _)); db_frame
    | apply contained_commit
    | apply contained_assign; intros ?; now split
    | apply (keeps_handle _)
    | apply (keeps_bind _ (contained_trans _)); [|intros ?]
    | match goal with
      | |- keeps _ (match ?x with _ => _ end) => destruct x
      | |- keeps _ (if ?x then _ else _) => destruct x
      | |- keeps _ (let '(_, _) := ?x in _) => destruct x
      end ].

Lemma db_frame_collect env job : ∀ dag_ids ss ts, db_frame (collect env job dag_ids ss ts).
Proof.
  induction dag_ids as [|d rest IH]; intros ss ts; cbn [collect]; [apply db_frame_ret|].
  apply db_frame_bind; [apply db_frame_check|intros r].
  destruct (fst r); [|apply IH].
  destruct job as [j|]; [|apply db_frame_raise].
  destruct (eligible j r); apply IH.
Qed.

Lemma contained_update env jid :
  keeps (λ w w', others_untouched jid w w' ∧ row_survives jid w w')
        (_update_job_status env jid).
Proof.
  unfold _update_job_status.
  apply (keeps_bind _ (contained_trans _));
    [apply (keeps_db_frame _ (contained_db _)), db_frame_query|intros job].
  apply (keeps_bind _ (contained_trans _));
    [apply (keeps_db_frame _ (contained_db _)), db_frame_collect|intros [ss ts]].
  apply (keeps_bind _ (contained_trans _)); [|intros _].
  - destruct ss as [|s0 ss']; contained.
  - destruct job; contained.
Qed.

Lemma contained_set env jid st :
  keeps (λ w w', others_untouched jid w w' ∧ row_survives jid w w')
        (_set_job_status env jid st).
Proof. unfold _set_job_status. contained. Qed.

Lemma keeps_authorized (R : World → World → Prop) user jid k :
  (∀ w, R w w) → keeps R k → keeps R (authorized user jid k).
Proof.
  intros Hrefl Hk w o w' H. unfold authorized, bind, db_query_first in H.
  destruct (authorize user jid (working w !! jid)).
  - injection H as _ <-. apply Hrefl.
  - exact (Hk _ _ _ H).
Qed.

Ltac contained_op :=
  apply (keeps_handle _), keeps_authorized; [apply contained_refl|];
  apply (keeps_bind _ (contained_trans _));
    [apply contained_update|intros _];
  repeat first
    [ apply contained_update
    | apply contained_set
    | apply (keeps_db_frame _ (contained_db _)); db_frame
    | apply contained_commit
    | apply contained_assign; intros ?; now split
    | apply (keeps_bind _ (contained_trans _)); [|intros ?]
    | match goal with
      | |- keeps _ (match ?x with _ => _ end) => destruct x
      | |- keeps _ (if ?x then _ else _) => destruct x
      end ].

Lemma contained_get env user jid :
  keeps (λ w w', others_untouched jid w w' ∧ row_survives jid w w') (get env user jid).
Proof. unfold get. contained_op. Qed.

Lemma contained_modify env user jid args :
  keeps (λ w w', others_untouched jid w w' ∧ row_survives jid w w')
        (modify env user jid args).
Proof. unfold modify. contained_op. Qed.

Lemma contained_process env user jid :
  keeps (λ w w', others_untouched jid w w' ∧ row_survives jid w w') (process env user jid).
Proof. unfold process. contained_op. Qed.

Lemma contained_cancel env fuel user jid :
  keeps (λ w w', others_untouched jid w w' ∧ row_survives jid w w')
        (cancel_processing env fuel user jid).
Proof. unfold cancel_processing. contained_op. Qed.

Lemma contained_results env user jid api :
  keeps (λ w w', others_untouched jid w w' ∧ row_survives jid w w')
        (get_results env user jid api).
Proof. unfold get_results. contained_op. Qed.

Lemma keeps_weaken {A} (R R' : World → World → Prop) (m : M A) :
  (∀ w w', R w w' → R' w w') → keeps R m → keeps R' m.
Proof. intros HR Hm w o w' H. exact (HR _ _ (Hm _ _ _ H)). Qed.

Lemma others_untouched_commit jid : keeps (others_untouched jid) db_commit.
Proof. eapply keeps_weaken; [|apply (contained_commit jid)]. now intros ?? []. Qed.

Lemma others_untouched_delete_op env fuel user jid delayed :
  keeps (others_untouched jid) (delete env fuel user jid delayed).
Proof.
  unfold delete.
  apply (keeps_handle _), keeps_authorized; [apply others_untouched_refl|].
  apply (keeps_bind _ (others_untouched_trans _));
    [eapply keeps_weaken; [|apply contained_update]; now intros ?? []|intros _].
  repeat first
    [ apply (keeps_db_frame _ (others_untouched_db _)); db_frame
    | apply others_untouched_delete
    | apply others_untouched_commit
    | apply (keeps_bind _ (others_untouched_trans _)); [|intros ?]
    | match goal with
      | |- keeps _ (if ?x then _ else _) => destruct x
      end ].
Qed.

(** X20. An operation on one job leaves the rows of all other jobs alone.
    Whatever [get], [modify], [delete], [process], [cancel_processing] or
    [get_results] does on job [jid] and however it ends, every other job
    has in the session the row it had, and its committed row is either the
    one it had or, when the operation committed, the session's one. *)
Theorem other_jobs_untouched env fuel user jid args delayed api w other :
  other ≠ jid →
  ∀ w', w' ∈ [ (get env user jid w).2; (modify env user jid args w).2;
               (delete env fuel user jid delayed w).2; (process env user jid w).2;
               (cancel_processing env fuel user jid w).2;
               (get_results env user jid api w).2 ] →
    working w' !! other = working w !! other
    ∧ (committed w' !! other = committed w !! other
       ∨ committed w' !! other = working w !! other).
Proof.
  intros Hne w' Hin.
  assert (others_untouched jid w w') as H; [|exact (H other Hne)].
  apply list_elem_of_In in Hin. cbn in Hin.
  destruct Hin as [<- | [<- | [<- | [<- | [<- | [<- | []]]]]]].
  - eapply (contained_get env user jid w); apply surjective_pairing.
  - eapply (contained_modify env user jid args w); apply surjective_pairing.
  - eapply (others_untouched_delete_op env fuel user jid delayed w); apply surjective_pairing.
  - eapply (contained_process env user jid w); apply surjective_pairing.
  - eapply (contained_cancel env fuel user jid w); apply surjective_pairing.
  - eapply (contained_results env user jid api w); apply surjective_pairing.
Qed.

Lemma other_jobs_untouched_witness :
  let w := with_working (<["j2" := mkJob "j2" "bob" "pg2" (Some JobStatus.created) 10 None None None None ""]>
                           (working (sample_world (Some JobStatus.running) ["result.tif"])))
             (sample_world (Some JobStatus.running) ["result.tif"]) in
  let w' := (cancel_processing (sample_env all_running) 3 "alice" "j1" w).2 in
  working w' !! "j2" = working w !! "j2"
  ∧ (committed w' !! "j2" = committed w !! "j2"
     ∨ committed w' !! "j2" = working w !! "j2").
Proof.
  intros w w'.
  apply (other_jobs_untouched (sample_env all_running) 3 "alice" "j1" no_args false
           sample_api w "j2"); [discriminate|].
  apply list_elem_of_In. cbn. tauto.
Defined.

(** X21. No operation but [delete] removes the job's row or changes whose
    it is: after [get], [modify], [process], [cancel_processing] or
    [get_results] on a job that has a row, however the operation ends, the
    session still has a row for it, with the same identifier and owner. *)
Theorem job_row_survives env fuel user jid args api w j :
  working w !! jid = Some j →
  ∀ w', w' ∈ [ (get env user jid w).2; (modify env user jid args w).2;
               (process env user jid w).2;
               (cancel_processing env fuel user jid w).2;
               (get_results env user jid api w).2 ] →
    ∃ j', working w' !! jid = Some j'
          ∧ job_id j' = job_id j ∧ user_id j' = user_id j.
Proof.
  intros Hj w' Hin.
  assert (row_survives jid w w') as H; [|exact (H j Hj)].
  apply list_elem_of_In in Hin. cbn in Hin.
  destruct Hin as [<- | [<- | [<- | [<- | [<- | []]]]]].
  - eapply (contained_get env user jid w); apply surjective_pairing.
  - eapply (contained_modify env user jid args w); apply surjective_pairing.
  - eapply (contained_process env user jid w); apply surjective_pairing.
  - eapply (contained_cancel env fuel user jid w); apply surjective_pairing.
  - eapply (contained_results env user jid api w); apply surjective_pairing.
Qed.

Lemma job_row_survives_witness :
  let w := sample_world (Some JobStatus.running) ["result.tif"] in
  ∃ j', working (cancel_processing (sample_env all_running) 3 "alice" "j1" w).2 !! "j1"
          = Some j'
        ∧ job_id j' = job_id (sample_job (Some JobStatus.running))
        ∧ user_id j' = user_id (sample_job (Some JobStatus.running)).
Proof.
  intros w.
  apply (job_row_survives (sample_env all_running) 3 "alice" "j1" no_args sample_api w
           (sample_job (Some JobStatus.running))); [reflexivity|].
  apply list_elem_of_In. cbn. tauto.
Defined.

(** ** The files service: which paths are served *)

Lemma all_chars_impl (p q : Ascii.ascii → bool) s :
  (∀ c, p c = true → q c = true) →
  UserFiles.all_chars p s = true → UserFiles.all_chars q s = true.
Proof.
  intros Hpq. induction s as [|c s IH]; [reflexivity|]. cbn.
  intros [Hc Hs]%andb_prop. now rewrite (Hpq _ Hc), (IH Hs).
Qed.

Lemma all_chars_app p a b :
  UserFiles.all_chars p (a +:+ b) = UserFiles.all_chars p a && UserFiles.all_chars p b.
Proof.
  induction a as [|c a IH]; [reflexivity|].
  change (String c a +:+ b)%string with (String c (a +:+ b)). cbn.
  now rewrite IH, andb_assoc.
Qed.

Lemma cut_spec sep s before after :
  UserFiles.cut sep s = Some (before, after) → s = before +:+ String sep after.
Proof.
  revert before. induction s as [|c s IH]; intros before; [discriminate|]. cbn.
  destruct (Ascii.eqb_spec c sep) as [->|_].
  - now intros [= <- <-].
  - destruct (UserFiles.cut sep s) as [[b a]|]; [|discriminate].
    intros [= <- <-]. now rewrite (IH b eq_refl).
Qed.

Lemma name_char_plain c :
  UserFiles.name_char c = true →
  UserFiles.name_char c || Ascii.eqb c UserFiles.dot = true.
Proof. now intros ->. Qed.

Lemma alnum_name_char c : UserFiles.alnum c = true → UserFiles.name_char c = true.
Proof. unfold UserFiles.name_char. now intros ->. Qed.

Lemma name_char_not_dot c : UserFiles.name_char c = true → c ≠ UserFiles.dot.
Proof. intros H ->. discriminate H. Qed.

Lemma repeated_spec p lo hi s :
  UserFiles.repeated p lo hi s = true →
  UserFiles.all_chars p s = true ∧ (lo ≤ String.length s ≤ hi)%nat.
Proof.
  unfold UserFiles.repeated. intros [[H1 H2]%andb_prop H3]%andb_prop.
  apply Nat.leb_le in H2, H3. auto.
Qed.

Lemma starts_with_name_char c s :
  UserFiles.name_char c = true →
  String c s ≠ ""%string ∧ String c s ≠ "."%string ∧ String c s ≠ ".."%string.
Proof.
  intros Hc. pose proof (name_char_not_dot c Hc) as Hd.
  repeat split; try discriminate; intros [= Hcd _]; apply Hd; exact Hcd.
Qed.

Lemma allowed_dirname_plain s : UserFiles.allowed_dirname s = true → plain s.
Proof.
  intros [Hall [Hlen _]]%repeated_spec. split.
  - revert Hall. apply all_chars_impl, name_char_plain.
  - destruct s as [|c s]; [cbn in Hlen; lia|].
    apply starts_with_name_char. cbn in Hall. now apply andb_prop in Hall.
Qed.

Lemma allowed_filename_plain s : UserFiles.allowed_filename s = true → plain s.
Proof.
  unfold UserFiles.allowed_filename.
  destruct (UserFiles.cut UserFiles.dot s) as [[stem ext]|] eqn:E; [|discriminate].
  apply cut_spec in E. subst s.
  intros [[Hstem [Hlen _]]%repeated_spec [Hext _]%repeated_spec]%andb_prop. split.
  - rewrite all_chars_app. cbn [UserFiles.all_chars].
    rewrite (all_chars_impl _ _ _ name_char_plain Hstem).
    rewrite (all_chars_impl _ _ _ (λ c H, name_char_plain c (alnum_name_char c H)) Hext).
    rewrite Ascii.eqb_refl. now rewrite orb_true_r.
  - destruct stem as [|c stem]; [cbn in Hlen; lia|].
    change (String c stem +:+ String UserFiles.dot ext)%string
      with (String c (stem +:+ String UserFiles.dot ext)).
    apply starts_with_name_char. cbn in Hstem. now apply andb_prop in Hstem.
Qed.

Lemma pop_last_spec parts init last :
  UserFiles.pop_last parts = Some (init, last) → parts = init ++ [last].
Proof.
  revert init. induction parts as [|x rest IH]; intros init; [discriminate|].
  cbn. destruct rest as [|y rest'].
  - now intros [= <- <-].
  - destruct (UserFiles.pop_last (y :: rest')) as [[i l]|]; [|discriminate].
    intros [= <- <-]. now rewrite (IH i eq_refl).
Qed.

Lemma pop_last_none parts : UserFiles.pop_last parts = None → parts = [].
Proof.
  induction parts as [|x rest IH]; [reflexivity|]. cbn.
  destruct rest as [|y rest']; [discriminate|].
  destruct (UserFiles.pop_last (y :: rest')) as [[i l]|]; [discriminate|].
  intros _. now specialize (IH eq_refl).
Qed.

Lemma py_split_not_nil sep s : UserFiles.py_split sep s ≠ [].
Proof.
  destruct s as [|c s]; [discriminate|]. cbn.
  destruct (Ascii.eqb c sep); [discriminate|].
  destruct (UserFiles.py_split sep s); discriminate.
Qed.

Lemma py_join_cons part rest :
  rest ≠ [] → py_join (part :: rest) = part +:+ "/" +:+ py_join rest.
Proof. destruct rest; [congruence|reflexivity]. Qed.

Lemma py_join_split s : py_join (UserFiles.py_split slash s) = s.
Proof.
  induction s as [|c s IH]; [reflexivity|]. cbn [UserFiles.py_split].
  destruct (Ascii.eqb_spec c slash) as [->|Hc].
  - rewrite py_join_cons by apply py_split_not_nil. now rewrite IH.
  - destruct (UserFiles.py_split slash s) as [|part parts] eqn:E;
      [now apply py_split_not_nil in E|].
    rewrite <- IH. destruct parts as [|q parts]; reflexivity.
Qed.

Lemma plain_char_not_slash c :
  UserFiles.name_char c || Ascii.eqb c UserFiles.dot = true → Ascii.eqb c slash = false.
Proof.
  intros H. destruct (Ascii.eqb_spec c slash) as [->|_]; [discriminate H|reflexivity].
Qed.

Lemma no_slash_ends s :
  UserFiles.all_chars (λ c, negb (Ascii.eqb c slash)) s = true → ends_with_slash s = false.
Proof.
  induction s as [|c s IH]; [reflexivity|]. cbn [UserFiles.all_chars].
  intros [Hc Hs]%andb_prop. apply negb_true_iff in Hc.
  destruct s as [|c' s']; [exact Hc|]. exact (IH Hs).
Qed.

Lemma plain_edges part :
  plain part →
  starts_with_slash part = false ∧ ends_with_slash part = false
  ∧ ∃ c s, part = String c s.
Proof.
  intros (Hall & Hne & _).
  assert (UserFiles.all_chars (λ c, negb (Ascii.eqb c slash)) part = true) as Hns.
  { revert Hall. apply all_chars_impl. intros c Hc. now rewrite (plain_char_not_slash c Hc). }
  destruct part as [|c s]; [congruence|]. repeat split.
  - cbn in Hns. apply andb_prop in Hns as [Hc _]. now apply negb_true_iff in Hc.
  - now apply no_slash_ends.
  - now exists c, s.
Qed.

Lemma os_path_join2_relative a b :
  starts_with_slash b = false → a ≠ ""%string → ends_with_slash a = false →
  os_path_join2 a b = a +:+ "/" +:+ b.
Proof.
  intros Hb Ha He. unfold os_path_join2. rewrite Hb, He.
  destruct (String.eqb_spec a ""); [congruence|reflexivity].
Qed.

Lemma app_not_empty a c s : a +:+ String c s ≠ ""%string.
Proof. destruct a; discriminate. Qed.

Lemma os_path_join2_plain a part :
  plain part → a ≠ ""%string → ends_with_slash a = false →
  os_path_join2 a part = a +:+ "/" +:+ part
  ∧ os_path_join2 a part ≠ ""%string
  ∧ ends_with_slash (os_path_join2 a part) = false.
Proof.
  intros (Hs & He & c & s & ->)%plain_edges Ha Hea.
  rewrite (os_path_join2_relative a (String c s) Hs Ha Hea).
  rewrite <- string_app_assoc. repeat split.
  - apply app_not_empty.
  - now rewrite ends_with_slash_app.
Qed.

Lemma os_path_join_plain parts : ∀ a,
  parts ≠ [] → Forall plain parts → a ≠ ""%string → ends_with_slash a = false →
  os_path_join a parts = a +:+ "/" +:+ py_join parts.
Proof.
  induction parts as [|part rest IH]; intros a Hne Hall Ha Hea; [congruence|].
  apply Forall_cons in Hall as [Hp Hrest].
  destruct (os_path_join2_plain a part Hp Ha Hea) as (Hj & Hjne & Hje).
  unfold os_path_join in *. cbn [fold_left].
  destruct rest as [|q rest']; [exact Hj|].
  rewrite (IH _ ltac:(discriminate) Hrest Hjne Hje), Hj.
  rewrite (py_join_cons part (q :: rest')) by discriminate.
  now rewrite !string_app_assoc.
Qed.

(** The user's [files] and [jobs] folders are never empty names and never
    end with a slash. *)
Lemma os_path_join2_name y c s :
  ends_with_slash (String c s) = false →
  os_path_join2 y (String c s) ≠ ""%string
  ∧ ends_with_slash (os_path_join2 y (String c s)) = false.
Proof.
  intros He.
  assert (∃ z, os_path_join2 y (String c s) = z +:+ String c s) as [z ->].
  { unfold os_path_join2. destruct (starts_with_slash (String c s)); [now exists ""%string|].
    destruct (String.eqb y "" || ends_with_slash y); [now exists y|].
    exists (y +:+ "/")%string. now rewrite string_app_assoc. }
  split; [apply app_not_empty|now rewrite ends_with_slash_app].
Qed.

Section Paths.

Context {Disk : Type} (os : UserFiles.Os Disk).

Lemma out_dir_edges user source_dir :
  out_dir os user source_dir ≠ ""%string
  ∧ ends_with_slash (out_dir os user source_dir) = false.
Proof.
  unfold out_dir. destruct (String.eqb source_dir "files"); now apply os_path_join2_name.
Qed.

Lemma setup_user_folder_dirs user d dirs d' :
  UserFiles.setup_user_folder os user d = (Ret dirs, d') →
  dirs = (os_path_join2 (UserFiles.get_user_folder os user) "files",
          os_path_join2 (UserFiles.get_user_folder os user) "jobs").
Proof.
  unfold UserFiles.setup_user_folder, UserFiles.and_then, UserFiles.unit_.
  destruct (UserFiles.create_unless_exists os _ d) as [[[]|e|] d1]; try discriminate.
  destruct (UserFiles.create_unless_exists os _ d1) as [[[]|e|] d2]; try discriminate.
  now intros [= <- _].
Qed.

(** What [get_allowed_path] hands out once the user's folders are set
    up. *)
Lemma get_allowed_path_eq user parts source_dir d dirs d1 :
  UserFiles.setup_user_folder os user d = (Ret dirs, d1) →
  UserFiles.get_allowed_path os user parts source_dir d
  = match UserFiles.pop_last parts with
    | None => (Raise IndexError, d1)
    | Some (init, filename) =>
        (Ret (if forallb UserFiles.allowed_dirname init && UserFiles.allowed_filename filename
              then UserFiles.safe_join os (out_dir os user source_dir) (init ++ [filename])
              else None), d1)
    end.
Proof.
  intros E. pose proof (setup_user_folder_dirs _ _ _ _ E) as ->.
  unfold UserFiles.get_allowed_path, UserFiles.and_then. rewrite E.
  destruct (UserFiles.pop_last parts) as [[init filename]|]; [|reflexivity].
  unfold out_dir.
  destruct (forallb UserFiles.allowed_dirname init); cbn [negb andb]; [|reflexivity].
  destruct (UserFiles.allowed_filename filename); cbn [negb]; [|reflexivity].
  now destruct (String.eqb source_dir "files").
Qed.

Lemma allowed_parts_plain init filename :
  forallb UserFiles.allowed_dirname init && UserFiles.allowed_filename filename = true →
  Forall plain (init ++ [filename]).
Proof.
  intros [Hinit Hfile]%andb_prop. apply Forall_app. split.
  - apply Forall_forall. intros x Hx. apply allowed_dirname_plain.
    rewrite forallb_forall in Hinit. apply Hinit. now apply list_elem_of_In.
  - apply Forall_singleton. now apply allowed_filename_plain.
Qed.

Lemma authorize_file_inv user path source_dir d p d' :
  UserFiles.authorize_file os user path source_dir d = (Ret (inr p), d') →
  ∃ dirs init filename,
    UserFiles.setup_user_folder os user d = (Ret dirs, d')
    ∧ UserFiles.py_split slash path = init ++ [filename]
    ∧ forallb UserFiles.allowed_dirname init && UserFiles.allowed_filename filename = true
    ∧ UserFiles.safe_join os (out_dir os user (UserFiles.or_else source_dir "files"))
        (init ++ [filename]) = Some p
    ∧ UserFiles.path_isdir os d' p = false.
Proof.
  unfold UserFiles.authorize_file, UserFiles.and_then at 1.
  destruct (UserFiles.setup_user_folder os user d) as [[dirs|e|] d1] eqn:E.
  - rewrite (get_allowed_path_eq _ _ _ _ _ _ E).
    destruct (UserFiles.pop_last _) as [[init filename]|] eqn:Ep; [|discriminate].
    apply pop_last_spec in Ep.
    destruct (forallb _ init && _) eqn:Eok; [|discriminate].
    destruct (UserFiles.safe_join os _ _) as [[|c s]|] eqn:Ej; try discriminate.
    unfold UserFiles.and_then, UserFiles.look, UserFiles.unit_.
    destruct (UserFiles.path_isdir os d1 (String c s)) eqn:Edir; [discriminate|].
    intros [= <- <-]. now exists dirs, init, filename.
  - unfold UserFiles.get_allowed_path, UserFiles.and_then. rewrite E. discriminate.
  - unfold UserFiles.get_allowed_path, UserFiles.and_then. rewrite E. discriminate.
Qed.

End Paths.

Lemma not_plain_not_allowed part :
  ¬ plain part →
  UserFiles.allowed_dirname part = false ∧ UserFiles.allowed_filename part = false.
Proof.
  intros Hn. split.
  - destruct (UserFiles.allowed_dirname part) eqn:E; [|reflexivity].
    now apply allowed_dirname_plain in E.
  - destruct (UserFiles.allowed_filename part) eqn:E; [|reflexivity].
    now apply allowed_filename_plain in E.
Qed.

Lemma authorize_file_refuses {Disk} (os : UserFiles.Os Disk)
    user path source_dir d dirs d1 part :
  part ∈ UserFiles.py_split slash path → ¬ plain part →
  UserFiles.setup_user_folder os user d = (Ret dirs, d1) →
  UserFiles.authorize_file os user path source_dir d
  = (Ret (inl (UserFiles.FileOperationUnsupported 401 user
                 (path +:+ ": This path is not valid.") false [])), d1).
Proof.
  intros Hin Hn E. unfold UserFiles.authorize_file, UserFiles.and_then at 1.
  rewrite (get_allowed_path_eq _ _ _ _ _ _ _ E).
  destruct (UserFiles.pop_last _) as [[init filename]|] eqn:Ep.
  - apply pop_last_spec in Ep. rewrite Ep in Hin.
    destruct (not_plain_not_allowed part Hn) as [Hd Hf].
    assert (forallb UserFiles.allowed_dirname init && UserFiles.allowed_filename filename
            = false) as ->; [|reflexivity].
    apply elem_of_app in Hin as [Hin|Hin%list_elem_of_singleton].
    + apply andb_false_intro1.
      destruct (forallb UserFiles.allowed_dirname init) eqn:Eall; [|reflexivity].
      rewrite forallb_forall in Eall. rewrite <- Hd. symmetry. apply Eall.
      now apply list_elem_of_In.
    + subst part. rewrite Hf. apply andb_false_r.
  - apply pop_last_none in Ep. now apply py_split_not_nil in Ep.
Qed.

(** X22. A path with a component that is no plain name (an empty one as
    in an absolute path or a doubled slash, [.], [..], or one with any
    character besides letters, digits, [_], [-] and dots) is refused by
    [download], [delete] and [upload] with 401, not internal, once the
    user's folders are set up: nothing is looked up, joined or removed
    under that path, the disk is as the set-up left it, and [upload] only
    discards the temporary file. *)
Theorem unsafe_path_refused {Disk} (os : UserFiles.Os Disk)
    user path source_dir tmp_path d dirs d1 part :
  part ∈ UserFiles.py_split slash path → ¬ plain part →
  UserFiles.setup_user_folder os user d = (Ret dirs, d1) →
  let refusal :=
    UserFiles.Failed (mkErr "files" 401 user (MsgText (path +:+ ": This path is not valid."))
                        false []) in
  UserFiles.download os user path source_dir d = (Ret refusal, d1)
  ∧ UserFiles.delete os user path d = (Ret refusal, d1)
  ∧ ∀ d2, UserFiles.remove os tmp_path d1 = (Ret tt, d2) →
      UserFiles.upload os user path tmp_path d = (Ret refusal, d2).
Proof.
  intros Hin Hn E refusal.
  pose proof (λ sd, authorize_file_refuses os user path sd d dirs d1 part Hin Hn E) as Ha.
  repeat split.
  - unfold UserFiles.download, UserFiles.guarded, UserFiles.authorize_existing_file,
      UserFiles.and_then. now rewrite Ha.
  - unfold UserFiles.delete, UserFiles.guarded, UserFiles.authorize_existing_file,
      UserFiles.and_then. now rewrite Ha.
  - intros d2 Hr. unfold UserFiles.upload, UserFiles.guarded, UserFiles.and_then.
    now rewrite Ha, Hr.
Qed.

Lemma unsafe_path_refused_witness :
  let refusal :=
    UserFiles.Failed (mkErr "files" 401 "alice"
                        (MsgText ("../bob/files/area.json" +:+ ": This path is not valid."))
                        false []) in
  let disk := ["/data/bob/files/area.json"; "/tmp/upload1"]%string in
  UserFiles.download sample_os "alice" "../bob/files/area.json" None disk = (Ret refusal, disk)
  ∧ UserFiles.delete sample_os "alice" "../bob/files/area.json" disk = (Ret refusal, disk)
  ∧ ∀ d2, UserFiles.remove sample_os "/tmp/upload1" disk = (Ret tt, d2) →
      UserFiles.upload sample_os "alice" "../bob/files/area.json" "/tmp/upload1" disk
      = (Ret refusal, d2).
Proof.
  intros refusal disk.
  apply (unsafe_path_refused sample_os "alice" "../bob/files/area.json" None "/tmp/upload1"
           disk ("/data/alice/files", "/data/alice/jobs")%string disk ".."%string).
  - apply list_elem_of_In. vm_compute. tauto.
  - intros (_ & _ & _ & H). now apply H.
  - vm_compute. reflexivity.
Defined.

(** *** The public path of a stored file *)

Lemma prefix_app old s : String.prefix old (old +:+ s) = true.
Proof.
  induction old as [|c old IH]; [now destruct s|].
  change (String c old +:+ s)%string with (String c (old +:+ s)). cbn.
  destruct (Ascii.ascii_dec c c); [exact IH|congruence].
Qed.

Lemma prefix_true old : ∀ s, String.prefix old s = true → ∃ b, s = old +:+ b.
Proof.
  induction old as [|c old IH]; intros s H; [now exists s|].
  destruct s as [|c' s]; [discriminate|]. cbn in H.
  destruct (Ascii.ascii_dec c c') as [<-|]; [|discriminate].
  destruct (IH s H) as [b ->]. now exists b.
Qed.

Lemma remove_from_skip old x : ∀ s,
  UserFiles.remove_from old (String.length x) (x +:+ s) = UserFiles.remove_from old 0 s.
Proof.
  induction x as [|c x IH]; intros s; [reflexivity|].
  change (String c x +:+ s)%string with (String c (x +:+ s)). cbn. apply IH.
Qed.

Lemma remove_from_length old : ∀ s k,
  (String.length (UserFiles.remove_from old k s) ≤ String.length s)%nat.
Proof.
  induction s as [|c s IH]; intros k; [reflexivity|].
  cbn [UserFiles.remove_from]. destruct k as [|k].
  - destruct (String.prefix old (String c s)).
    + specialize (IH (Nat.pred (String.length old))). cbn [String.length]. lia.
    + specialize (IH 0%nat). cbn [String.length]. lia.
  - specialize (IH k). cbn [String.length]. lia.
Qed.

Lemma occurs_tail old c s :
  String.prefix old (String c s) = false → occurs old (String c s) → occurs old s.
Proof.
  intros Hp (a & b & E). destruct a as [|c' a].
  - change (""%string +:+ old +:+ b)%string with (old +:+ b)%string in E.
    rewrite E, prefix_app in Hp. discriminate.
  - change (String c' a +:+ old +:+ b)%string with (String c' (a +:+ old +:+ b)) in E.
    injection E as _ ->. now exists a, b.
Qed.

Lemma remove_from_absent old : ∀ s,
  ¬ occurs old s → UserFiles.remove_from old 0 s = s.
Proof.
  induction s as [|c s IH]; intros Hn; [reflexivity|]. cbn [UserFiles.remove_from].
  destruct (String.prefix old (String c s)) eqn:Hp.
  - destruct (prefix_true _ _ Hp) as [b E]. destruct Hn. now exists ""%string, b.
  - rewrite IH; [reflexivity|]. intros (a & b & ->). apply Hn.
    now exists (String c a), b.
Qed.

Lemma remove_from_present old c0 old' : ∀ s,
  old = String c0 old' → occurs old s →
  (String.length (UserFiles.remove_from old 0 s) < String.length s)%nat.
Proof.
  intros s Hold. induction s as [|c s IH]; intros Ho.
  - destruct Ho as (a & b & E). subst old. destruct a; discriminate E.
  - cbn [UserFiles.remove_from].
    destruct (String.prefix old (String c s)) eqn:Hp.
    + pose proof (remove_from_length old s (Nat.pred (String.length old))).
      cbn [String.length]. lia.
    + specialize (IH (occurs_tail _ _ _ Hp Ho)). cbn [String.length]. lia.
Qed.

Lemma py_remove_prefix c0 old' s :
  UserFiles.py_remove (String c0 old') (String c0 old' +:+ s)
  = UserFiles.remove_from (String c0 old') 0 s.
Proof.
  pose proof (prefix_app (String c0 old') s) as Hp.
  change (String c0 old' +:+ s)%string with (String c0 (old' +:+ s)) in *.
  unfold UserFiles.py_remove. cbn [UserFiles.remove_from]. rewrite Hp.
  cbn [String.length Nat.pred]. apply remove_from_skip.
Qed.

(** [s.replace(old, '')] on [old + s] gives [s] back exactly when [old]
    does not occur in [s]. *)
Lemma py_remove_round_trip old s :
  old ≠ ""%string → (UserFiles.py_remove old (old +:+ s) = s ↔ ¬ occurs old s).
Proof.
  intros Hne. destruct old as [|c0 old']; [congruence|].
  rewrite py_remove_prefix. split.
  - intros E Ho. pose proof (remove_from_present _ c0 old' s eq_refl Ho) as Hlt.
    rewrite E in Hlt. lia.
  - apply remove_from_absent.
Qed.

Lemma authorize_file_complete {Disk} (os : UserFiles.Os Disk)
    user path source_dir d p d' :
  joins_plain_names os →
  UserFiles.authorize_file os user path source_dir d = (Ret (inr p), d') →
  p = out_dir os user (UserFiles.or_else source_dir "files") +:+ "/" +:+ path
  ∧ Forall plain (UserFiles.py_split slash path)
  ∧ UserFiles.path_isdir os d' p = false.
Proof.
  intros Hjoin (dirs & init & filename & _ & Hsplit & Hok & Hp & Hdir)%authorize_file_inv.
  pose proof (allowed_parts_plain _ _ Hok) as Hplain.
  rewrite (Hjoin _ _ Hplain) in Hp. injection Hp as Hp.
  destruct (out_dir_edges os user (UserFiles.or_else source_dir "files")) as [Hne He].
  rewrite os_path_join_plain in Hp by (try assumption; now destruct init).
  rewrite <- Hsplit in Hp, Hplain. rewrite py_join_split in Hp.
  subst p. auto.
Qed.

(** X23. A path the files service authorizes lies inside the folder of
    the user: when [safe_join] joins plain names as [posixpath.join] does
    and [authorize_file] returns a complete path, that path is the user's
    [files] (or [jobs]) folder, a slash and the requested path as it was
    written; every component of the requested path is a plain name, so
    none is empty, [.] or [..], and the complete path is no directory. *)
Theorem authorized_path_is_inside {Disk} (os : UserFiles.Os Disk)
    user path source_dir d p d' :
  joins_plain_names os →
  UserFiles.authorize_file os user path source_dir d = (Ret (inr p), d') →
  p = out_dir os user (UserFiles.or_else source_dir "files") +:+ "/" +:+ path
  ∧ Forall plain (UserFiles.py_split slash path)
  ∧ UserFiles.path_isdir os d' p = false.
Proof. apply authorize_file_complete. Qed.

Lemma authorized_path_is_inside_witness :
  UserFiles.authorize_file sample_os "alice" "maps/area.json" None [] 
  = (Ret (inr "/data/alice/files/maps/area.json"%string), [])
  ∧ "/data/alice/files/maps/area.json"%string
    = out_dir sample_os "alice" "files" +:+ "/" +:+ "maps/area.json"
  ∧ Forall plain (UserFiles.py_split slash "maps/area.json").
Proof.
  assert (UserFiles.authorize_file sample_os "alice" "maps/area.json" None []
          = (Ret (inr "/data/alice/files/maps/area.json"%string), [])) as E
    by (vm_compute; reflexivity).
  split; [exact E|].
  destruct (authorized_path_is_inside sample_os "alice" "maps/area.json" None [] _ []
              (λ directory parts _, eq_refl) E) as (Hp & Hplain & _).
  split; [exact Hp|exact Hplain].
Defined.

(** X24. What [upload] reports as the stored file's path is the path it
    was asked to store under, except when that path itself contains the
    user's storage prefix [<user folder>/files/]: [complete_to_public_path]
    removes every occurrence of the prefix, not only the leading one.
    The user folder is taken to be a non-empty name without a slash at
    its end, so that its [files] folder is [<user folder>/files]. *)
Theorem upload_reports_requested_path {Disk} (os : UserFiles.Os Disk)
    user path tmp_path d reported size modified d' :
  joins_plain_names os →
  UserFiles.get_user_folder os user ≠ ""%string →
  ends_with_slash (UserFiles.get_user_folder os user) = false →
  UserFiles.upload os user path tmp_path d = (Ret (UserFiles.Uploaded reported size modified), d') →
  reported = path
  ↔ ¬ occurs (UserFiles.get_user_folder os user +:+ "/" +:+ "files" +:+ "/") path.
Proof.
  intros Hjoin Hne He Hup.
  set (prefix := (UserFiles.get_user_folder os user +:+ "/" +:+ "files" +:+ "/")%string).
  assert (reported = UserFiles.py_remove prefix (prefix +:+ path)) as ->.
  { unfold UserFiles.upload, UserFiles.guarded, UserFiles.and_then at 1 in Hup.
    destruct (UserFiles.authorize_file os user path None d) as [[[exc|complete]|e|] d1] eqn:Ea.
    - unfold UserFiles.and_then in Hup.
      destruct (UserFiles.remove os tmp_path d1) as [[[]|e|] d2]; discriminate Hup.
    - apply (authorize_file_complete os _ _ _ _ _ _ Hjoin) in Ea as (-> & _ & _).
      assert (out_dir os user (UserFiles.or_else None "files") +:+ "/" +:+ path
              = prefix +:+ path)%string as Eprefix.
      { unfold out_dir, prefix. cbn [UserFiles.or_else String.eqb Ascii.eqb Bool.eqb].
        rewrite (os_path_join2_relative _ "files" eq_refl Hne He).
        now rewrite !string_app_assoc. }
      rewrite Eprefix in Hup. unfold UserFiles.and_then, UserFiles.look,
        UserFiles.look_or_raise, UserFiles.unit_ in Hup.
      repeat match type of Hup with
             | context [match ?x with _ => _ end] =>
                 lazymatch x with
                 | context [match _ with _ => _ end] => fail
                 | _ => destruct x; try discriminate Hup
                 end
             end;
        now injection Hup as <- _ _ _.
    - discriminate Hup.
    - discriminate Hup. }
  apply py_remove_round_trip. unfold prefix.
  destruct (UserFiles.get_user_folder os user); [congruence|discriminate].
Qed.

Lemma upload_reports_requested_path_witness :
  UserFiles.upload sample_os "alice" "maps/area.json" "/tmp/upload1" ["/tmp/upload1"%string]
  = (Ret (UserFiles.Uploaded "maps/area.json" 1 0), ["/data/alice/files/maps/area.json"%string])
  ∧ ("maps/area.json"%string = "maps/area.json"%string
     ↔ ¬ occurs (UserFiles.get_user_folder sample_os "alice" +:+ "/" +:+ "files" +:+ "/")
           "maps/area.json").
Proof.
  assert (UserFiles.upload sample_os "alice" "maps/area.json" "/tmp/upload1"
            ["/tmp/upload1"%string]
          = (Ret (UserFiles.Uploaded "maps/area.json" 1 0),
             ["/data/alice/files/maps/area.json"%string])) as E
    by (vm_compute; reflexivity).
  split; [exact E|].
  apply (upload_reports_requested_path sample_os "alice" "maps/area.json" "/tmp/upload1"
           ["/tmp/upload1"%string] "maps/area.json" 1 0
           ["/data/alice/files/maps/area.json"%string]).
  - intros directory parts _. reflexivity.
  - vm_compute. discriminate.
  - vm_compute. reflexivity.
  - exact E.
Defined.

(** A path that contains the storage prefix is reported without it. *)
Example upload_reports_other_path :
  (UserFiles.upload sample_os "alice" "x/data/alice/files/y.json" "/tmp/upload1"
     ["/tmp/upload1"%string]).1
  = Ret (UserFiles.Uploaded "xy.json" 1 0).
Proof. vm_compute. reflexivity. Qed.

(** *** Results of a job, as this files service lists them *)

Lemma get_job_output_eq {Disk} (os : UserFiles.Os Disk) user job_id disk :
  UserFiles.get_job_output os user job_id disk
  = (Ret match UserFiles.glob os disk
                 (os_path_join2 (UserFiles.get_job_results_folder os user job_id) "*") with
         | [] => ReplyError (mkErr "files" 400 user
                   (MsgText "Job output folder is empty. No files generated.") true [])
         | f :: fs =>
             ReplyData (mkOutput (map (UserFiles.complete_to_public_path os user) (f :: fs))
                          None)
         end, disk).
Proof.
  unfold UserFiles.get_job_output, UserFiles.and_then, UserFiles.look, UserFiles.unit_.
  now destruct (UserFiles.glob os disk _).
Qed.

(** X25. With the files service of this repository behind it,
    [get_results] never delivers the results of a finished job: the
    reply of [get_job_output] has a [file_list] but no [metadata_file]
    entry, which [get_results] reads next, so the answer is the 500 of a
    [KeyError]; when the result folder lists nothing it is the files
    service's own 400, passed on as it came.  Nothing but the clock of
    the one call changes after reconciliation. *)
Theorem finished_results_need_metadata_file env {Disk} (os : UserFiles.Os Disk) disk
    user job_id api_spec job w w1 j1 :
  working w !! job_id = Some job → user_id job = user →
  _update_job_status env job_id w = (Ret tt, w1) →
  working w1 !! job_id = Some j1 → status j1 = Some JobStatus.finished →
  get_job_output env (tick w1) user job_id = (UserFiles.get_job_output os user job_id disk).1 →
  get_results env user job_id api_spec w
  = (Ret match UserFiles.glob os disk
                 (os_path_join2 (UserFiles.get_job_results_folder os user job_id) "*") with
         | [] => Forwarded (mkErr "files" 400 user
                   (MsgText "Job output folder is empty. No files generated.") true [])
         | _ => Error (to_dict (mkExc 500 user (MsgOfExc KeyError) default_internal []))
         end,
     with_tick (S (tick w1)) w1).
Proof.
  intros Hjob Hown Hup Hj1 Hfin Hout. rewrite get_job_output_eq in Hout. cbn [fst] in Hout.
  unfold get_results. rewrite (guarded_eq _ _ _ _ job) by assumption.
  rewrite Hup, Hj1, Hfin. cbn [option_eqb JobStatus.eqb status_in existsb orb].
  unfold handle, bind at 1. rewrite call_eq, Hout.
  now destruct (UserFiles.glob os disk _).
Qed.

Lemma finished_results_need_metadata_file_witness :
  let disk := ["/data/alice/jobs/j1/result/out.tif"%string] in
  let env :=
    with_get_job_output (λ _ user job_id, (UserFiles.get_job_output sample_os user job_id disk).1)
      (sample_env silent) in
  (UserFiles.get_job_output sample_os "alice" "j1" disk).1
  = Ret (ReplyData (mkOutput ["/data/alice/jobs/j1/result/out.tif"%string] None))
  ∧ get_results env "alice" "j1" sample_api (sample_world (Some JobStatus.finished) [])
    = (Ret (Error (mkErr "jobs" 500 "alice" (MsgOfExc KeyError) true [])),
       with_tick 3 (after_reads ["j1_prep"%string; "j1_parallel"%string]
                      (sample_world (Some JobStatus.finished) []))).
Proof.
  intros disk env. split; [vm_compute; reflexivity|].
  exact (finished_results_need_metadata_file env sample_os disk "alice" "j1" sample_api
           (sample_job (Some JobStatus.finished))
           (sample_world (Some JobStatus.finished) [])
           (after_reads ["j1_prep"%string; "j1_parallel"%string]
              (sample_world (Some JobStatus.finished) []))
           (sample_job (Some JobStatus.finished))
           eq_refl eq_refl eq_refl eq_refl eq_refl eq_refl).
Defined.

(** ** Creating a job and running one synchronously *)

Lemma bind_ret_inv {A B} (m : M A) (k : A → M B) w b w' :
  bind m k w = (Ret b, w') → ∃ a w1, m w = (Ret a, w1) ∧ k a w1 = (Ret b, w').
Proof.
  unfold bind. destruct (m w) as [[a|e|] w1]; try discriminate. intros H. now exists a, w1.
Qed.

Lemma job_status_inv (job : option Job) job_id w st w' :
  match job with
  | None => raise AttributeError
  | Some _ => job_attr job_id status
  end w = (Ret st, w') →
  w' = w ∧ ∃ j, working w !! job_id = Some j ∧ st = status j.
Proof.
  destruct job as [queried|]; [|discriminate]. unfold job_attr.
  destruct (working w !! job_id) as [j|]; [|discriminate].
  intros [= <- <-]. split; [reflexivity|]. now exists j.
Qed.

Lemma sync_wait_settled env job job_id : ∀ fuel w w',
  sync_wait env fuel job job_id w = (Ret tt, w') →
  ∃ j, working w' !! job_id = Some j
       ∧ status_in (status j) [JobStatus.queued; JobStatus.running] = false.
Proof.
  induction fuel as [|fuel IH]; intros w w' H; cbn [sync_wait] in H.
  - apply bind_ret_inv in H as (st & w1 & Hst & H).
    apply job_status_inv in Hst as (-> & row & Hrow & ->).
    destruct (status_in (status row) _) eqn:E; [discriminate H|].
    injection H as <-. now exists row.
  - apply bind_ret_inv in H as (st & w1 & Hst & H).
    apply job_status_inv in Hst as (-> & row & Hrow & ->).
    destruct (status_in (status row) _) eqn:E.
    + apply bind_ret_inv in H as ([] & w2 & _ & H).
      apply bind_ret_inv in H as ([] & w3 & _ & H). exact (IH _ _ H).
    + injection H as <-. now exists row.
Qed.

(** X26. The waiting loop of [process_sync] ends only on a settled job:
    when it returns, the job has a row whose status, as the last
    reconciliation left it, is neither queued nor running. *)
Theorem sync_wait_exits_settled env fuel job job_id w w' :
  sync_wait env fuel job job_id w = (Ret tt, w') →
  ∃ j, working w' !! job_id = Some j
       ∧ status_in (status j) [JobStatus.queued; JobStatus.running] = false.
Proof. apply sync_wait_settled. Qed.

Lemma sync_wait_exits_settled_witness :
  let w := sample_world (Some JobStatus.running) [] in
  ∃ w', sync_wait (sample_env (finished_from 3)) 5 (Some (sample_job (Some JobStatus.running)))
          "j1" w = (Ret tt, w')
        ∧ trace w' = [Sleep 10; CheckDagStatus "j1_prep"; CheckDagStatus "j1_parallel"; DbCommit;
                      Sleep 10; CheckDagStatus "j1_prep"; CheckDagStatus "j1_parallel"; DbCommit]
        ∧ ∃ j, working w' !! "j1" = Some j
               ∧ status_in (status j) [JobStatus.queued; JobStatus.running] = false.
Proof.
  intros w.
  exists (sync_wait (sample_env (finished_from 3)) 5 (Some (sample_job (Some JobStatus.running)))
            "j1" w).2.
  assert (sync_wait (sample_env (finished_from 3)) 5
            (Some (sample_job (Some JobStatus.running))) "j1" w
          = (Ret tt, (sync_wait (sample_env (finished_from 3)) 5
                        (Some (sample_job (Some JobStatus.running))) "j1" w).2)) as E
    by (vm_compute; reflexivity).
  split; [exact E|]. split; [vm_compute; reflexivity|].
  exact (sync_wait_exits_settled _ _ _ _ _ _ E).
Defined.

Lemma content_type_cases extension fmt entry :
  map_output_format extension = Ret fmt → dict_getitem type_map fmt = Ret entry →
  (extension ∈ ["Gtiff"; "GTiff"; "tif"; "tiff"]%string ∧ content_type entry = "image/tiff"%string)
  ∨ (extension ∈ ["jpg"; "jpeg"]%string ∧ content_type entry = "image/jpeg"%string)
  ∨ (extension = "png"%string ∧ content_type entry = "image/png"%string).
Proof.
  unfold map_output_format. cbn [out_map first_synonym].
  repeat case_bool_decide; intros [= <-]; cbn; intros [= <-]; cbn; auto.
  right. right. split; [|reflexivity].
  match goal with H : _ ∈ [_] |- _ => now apply list_elem_of_singleton in H end.
Qed.

Lemma lift_ret_inv {A} (x : Outcome A) w a w' :
  lift x w = (Ret a, w') → x = Ret a ∧ w' = w.
Proof. unfold lift. now intros [= -> <-]. Qed.

Lemma call_ret_inv {A} (f : nat → Outcome A) w a w' :
  call f w = (Ret a, w') → f (tick w) = Ret a ∧ w' = with_tick (S (tick w)) w.
Proof. rewrite call_eq. now intros [= -> <-]. Qed.

Lemma handle_envelope_inv user links body w r w' :
  handle_envelope user links body w = (Ret r, w') →
  (∀ d, r ≠ Plain (Error d)) → body w = (Ret r, w').
Proof.
  unfold handle_envelope. destruct (body w) as [[x|e|] w1]; intros H Hr.
  - exact H.
  - injection H as <- _. now destruct (Hr _ eq_refl).
  - discriminate H.
Qed.

(** X27. [process_sync] hands out a file only for a settled job and with
    a content type that fits the file: when it answers with a file, the
    costs are 0, the file's extension is one of the known synonyms and
    the content type is the one of its format, and the job was, after the
    last reconciliation, in none of queued, running, error and canceled;
    what follows the two calls for the output is [delete] with
    [delayed=True], whose answer is not looked at. *)
Theorem process_sync_file_reply env backend fuel user job_args w ct costs file w' :
  process_sync env backend fuel user job_args w = (Ret (File ct costs file), w') →
  costs = 0
  ∧ (∃ extension,
       py_last (UserFiles.py_split UserFiles.dot file) = Ret extension
       ∧ ((extension ∈ ["Gtiff"; "GTiff"; "tif"; "tiff"]%string ∧ ct = "image/tiff"%string)
          ∨ (extension ∈ ["jpg"; "jpeg"]%string ∧ ct = "image/jpeg"%string)
          ∨ (extension = "png"%string ∧ ct = "image/png"%string)))
  ∧ ∃ job_id w3 j,
      working w3 !! job_id = Some j
      ∧ status_in (status j) [JobStatus.queued; JobStatus.running;
                              JobStatus.error; JobStatus.canceled] = false
      ∧ w' = (delete env fuel user job_id true (with_tick (S (S (tick w3))) w3)).2.
Proof.
  intros H. unfold process_sync in H.
  apply handle_envelope_inv in H; [|discriminate].
  apply bind_ret_inv in H as (rc & w1 & _ & H).
  destruct rc as [[c b|d|d]|location ident|ct' c' f']; try discriminate H.
  apply bind_ret_inv in H as (job_id & w1' & [_ ->]%lift_ret_inv & H).
  apply bind_ret_inv in H as (job & w1' & [= _ <-] & H).
  apply bind_ret_inv in H as (rp & w2 & _ & H).
  destruct rp as [c b|d|d]; try discriminate H.
  apply bind_ret_inv in H as ([] & w2' & _ & H).
  apply bind_ret_inv in H as ([] & w3 & Hwait & H).
  apply sync_wait_settled in Hwait as (j & Hj & Hrun).
  apply bind_ret_inv in H as (st & w3' & Hst & H).
  apply job_status_inv in Hst as (-> & j' & Hj' & ->).
  rewrite Hj in Hj'. injection Hj' as <-.
  destruct (status_in (status j) [JobStatus.error; JobStatus.canceled]) eqn:Eerr;
    [discriminate H|].
  apply bind_ret_inv in H as ([] & w4 & [_ ->]%call_ret_inv & H).
  apply bind_ret_inv in H as (rf & w5 & [_ ->]%call_ret_inv & H).
  destruct rf as [d|out]; [discriminate H|].
  apply bind_ret_inv in H as (filepath & w6 & [_ ->]%lift_ret_inv & H).
  apply bind_ret_inv in H as (fmt & w6 & [Hfmt ->]%lift_ret_inv & H).
  apply bind_ret_inv in H as (rd & w7 & Hdel & H).
  apply bind_ret_inv in H as (entry & w8 & [Hentry ->]%lift_ret_inv & H).
  injection H as <- <- <- <-.
  split; [reflexivity|]. split.
  - destruct (py_last (UserFiles.py_split UserFiles.dot filepath)) as [extension|e|];
      try discriminate Hfmt.
    exists extension. split; [reflexivity|].
    exact (content_type_cases _ _ _ Hfmt Hentry).
  - exists job_id, w3, j. split; [exact Hj|]. split.
    + destruct (status j) as [[]|]; try reflexivity; discriminate.
    + change (with_tick _ (with_tick _ w3)) with (with_tick (S (S (tick w3))) w3) in Hdel.
      now rewrite Hdel.
Qed.

Lemma process_sync_file_reply_witness :
  let run :=
    process_sync (sample_env (unknown_until 9))
      (sample_backend "/data/alice/jobs/j2/result/out.tif") 3 "alice"
      (mkJobArgs (Some sample_process) None None None None)
      (sample_world (Some JobStatus.created) []) in
  run.1 = Ret (File "image/tiff" 0 "/data/alice/jobs/j2/result/out.tif")
  ∧ working run.2 !! "j2" = None
  ∧ ∃ extension,
      py_last (UserFiles.py_split UserFiles.dot "/data/alice/jobs/j2/result/out.tif")
      = Ret extension
      ∧ ((extension ∈ ["Gtiff"; "GTiff"; "tif"; "tiff"]%string
          ∧ "image/tiff"%string = "image/tiff"%string)
         ∨ (extension ∈ ["jpg"; "jpeg"]%string ∧ "image/tiff"%string = "image/jpeg"%string)
         ∨ (extension = "png"%string ∧ "image/tiff"%string = "image/png"%string)).
Proof.
  intros run.
  assert (run = (Ret (File "image/tiff" 0 "/data/alice/jobs/j2/result/out.tif"), run.2)) as E
    by (vm_compute; reflexivity).
  split; [now rewrite E|]. split; [vm_compute; reflexivity|].
  exact (proj1 (proj2 (process_sync_file_reply _ _ _ _ _ _ _ _ _ _ E))).
Defined.

Lemma py_split_no_sep sep s :
  UserFiles.all_chars (λ c, negb (Ascii.eqb c sep)) s = true → UserFiles.py_split sep s = [s].
Proof.
  induction s as [|c s IH]; [reflexivity|]. cbn.
  intros [Hc Hs]%andb_prop. apply negb_true_iff in Hc. now rewrite Hc, (IH Hs).
Qed.

Lemma location_round_trip identifier :
  UserFiles.all_chars (λ c, negb (Ascii.eqb c slash)) identifier = true →
  py_last (UserFiles.py_split slash ("jobs/" +:+ identifier)) = Ret identifier.
Proof.
  intros H.
  change (UserFiles.py_split slash ("jobs/" +:+ identifier))
    with ("jobs"%string :: UserFiles.py_split slash identifier).
  now rewrite (py_split_no_sep _ _ H).
Qed.

(** What [create] does to rows and threads. *)
Lemma create_cases env backend user job_args vrt_flag add_parallel_sensor w o w' :
  create env backend user job_args vrt_flag add_parallel_sensor w = (o, w') →
  threads w' = threads w
  ∧ ((∃ job,
        o = Ret (Created ("jobs/" +:+ job_id job) (job_id job))
        ∧ working w !! job_id job = None
        ∧ working w' = <[job_id job := job]> (working w)
        ∧ committed w' = working w')
     ∨ ((∀ location identifier, o ≠ Ret (Created location identifier))
        ∧ committed w' = committed w ∧ working w' = working w)).
Proof.
  intros H. unfold create, handle_envelope in H.
  destruct (arg_process job_args) as [process|];
    [|injection H as <- <-; split; [reflexivity|right; split; [discriminate|now split]]].
  unfold bind at 1 in H.
  set (chosen := match given_id process with
                 | Some i => ret i
                 | None => call (λ t, Ret (generate_alphanumeric_id env t))
                 end w) in H.
  assert (∃ graph_id w0, chosen = (Ret graph_id, w0) ∧ committed w0 = committed w
                         ∧ working w0 = working w ∧ threads w0 = threads w)
    as (graph_id & w0 & -> & Hc0 & Hw0 & Ht0).
  { subst chosen. destruct (given_id process) as [i|]; [now exists i, w|].
    rewrite call_eq. now eexists _, _. }
  unfold bind at 1 in H. rewrite call_eq in H.
  destruct (put_user_defined env (tick w0) user graph_id process) as [[d|[]]|e|];
    try (injection H as <- <-; split; [exact Ht0|right; split; [discriminate|now split]]).
  unfold bind at 1 in H. rewrite call_eq in H. cbn [tick with_tick] in H.
  destruct (JobCreateSchema_load backend _ job_args vrt_flag add_parallel_sensor graph_id user)
    as [job|e|];
    try (injection H as <- <-; split; [exact Ht0|right; split; [discriminate|now split]]).
  unfold bind at 1 in H. unfold db_add at 1 in H. cbn [working with_tick] in H.
  destruct (working w0 !! job_id job) eqn:Hfresh;
    [injection H as <- <-; split; [exact Ht0|right; split; [discriminate|now split]]|].
  unfold bind, db_commit, ret in H. injection H as <- <-.
  split; [exact Ht0|]. left. exists job. rewrite <- Hw0. now repeat split.
Qed.

(** X28. [create] stores a job or nothing: either it answers 201 with
    the location [jobs/<id>] and the identifier of a job whose id was not
    in the table, and that job is the one row added, in the session and
    committed; or it answers something else and the committed rows are as
    they were.  The location gives the identifier back as
    [process_sync] reads it, by its last segment, when the identifier has
    no slash. *)
Theorem create_all_or_nothing env backend user job_args vrt_flag add_parallel_sensor w o w' :
  create env backend user job_args vrt_flag add_parallel_sensor w = (o, w') →
  (∃ job,
     o = Ret (Created ("jobs/" +:+ job_id job) (job_id job))
     ∧ working w !! job_id job = None
     ∧ working w' = <[job_id job := job]> (working w)
     ∧ committed w' = working w'
     ∧ (UserFiles.all_chars (λ c, negb (Ascii.eqb c slash)) (job_id job) = true →
        py_last (UserFiles.py_split slash ("jobs/" +:+ job_id job)) = Ret (job_id job)))
  ∨ ((∀ location identifier, o ≠ Ret (Created location identifier))
     ∧ committed w' = committed w).
Proof.
  intros H.
  destruct (create_cases _ _ _ _ _ _ _ _ _ H)
    as [_ [(job & -> & Hfresh & Hw & Hc)|(Hne & Hc & _)]].
  - left. exists job. repeat split; try assumption. apply location_round_trip.
  - right. now split.
Qed.

Lemma create_all_or_nothing_witness :
  let run :=
    create (sample_env silent) (sample_backend "") "alice"
      (mkJobArgs (Some sample_process) None None None None) None None
      (sample_world (Some JobStatus.created) []) in
  run.1 = Ret (Created "jobs/j2" "j2")
  ∧ status <$> committed run.2 !! "j2" = Some (Some JobStatus.created)
  ∧ ((∃ job,
        run.1 = Ret (Created ("jobs/" +:+ job_id job) (job_id job))
        ∧ working (sample_world (Some JobStatus.created) []) !! job_id job = None
        ∧ working run.2
          = <[job_id job := job]> (working (sample_world (Some JobStatus.created) []))
        ∧ committed run.2 = working run.2
        ∧ (UserFiles.all_chars (λ c, negb (Ascii.eqb c slash)) (job_id job) = true →
           py_last (UserFiles.py_split slash ("jobs/" +:+ job_id job)) = Ret (job_id job)))
     ∨ ((∀ location identifier, run.1 ≠ Ret (Created location identifier))
        ∧ committed run.2 = committed (sample_world (Some JobStatus.created) []))).
Proof.
  intros run. split; [vm_compute; reflexivity|]. split; [vm_compute; reflexivity|].
  apply (create_all_or_nothing (sample_env silent) (sample_backend "") "alice"
           (mkJobArgs (Some sample_process) None None None None) None None
           (sample_world (Some JobStatus.created) []) run.1 run.2).
  apply surjective_pairing.
Defined.

(** ** What a synchronous run leaves behind when it fails *)

Lemma nothing_dropped_refl w : nothing_dropped w w.
Proof. now split. Qed.

Lemma nothing_dropped_trans w1 w2 w3 :
  nothing_dropped w1 w2 → nothing_dropped w2 w3 → nothing_dropped w1 w3.
Proof. intros [H1 H2] [H3 H4]. split; [congruence|auto]. Qed.

Lemma idle_keeps {A} (m : M A) : idle m → keeps nothing_dropped m.
Proof.
  intros Hm w o w' H. destruct (Hm _ _ _ H) as [Ht Hw]. split; [exact Ht|].
  intros id. now rewrite Hw.
Qed.

Lemma idle_pure {A} (f : World → Outcome A) (g : World → World) :
  (∀ w, threads (g w) = threads w ∧ working (g w) = working w) → idle (λ w, (f w, g w)).
Proof. intros Hg w o w' [= _ <-]. apply Hg. Qed.

Lemma idle_bind {A B} (m : M A) (k : A → M B) :
  idle m → (∀ a, idle (k a)) → idle (bind m k).
Proof.
  intros Hm Hk w o w' H. unfold bind in H.
  destruct (m w) as [[a|e|] w1] eqn:E; destruct (Hm _ _ _ E) as [H1 H2].
  - destruct (Hk _ _ _ _ H). split; congruence.
  - injection H as _ <-. now split.
  - injection H as _ <-. now split.
Qed.

Lemma idle_ret {A} (a : A) : idle (ret a).
Proof. now apply (idle_pure (λ _, Ret a) (λ w, w)). Qed.

Lemma idle_raise {A} e : idle (raise (A:=A) e).
Proof. now apply (idle_pure (λ _, Raise e) (λ w, w)). Qed.

Lemma idle_hang {A} : idle (hang (A:=A)).
Proof. now apply (idle_pure (λ _, Hang) (λ w, w)). Qed.

Lemma idle_lift {A} (x : Outcome A) : idle (lift x).
Proof. now apply (idle_pure (λ _, x) (λ w, w)). Qed.

Lemma idle_call {A} (f : nat → Outcome A) : idle (call f).
Proof. intros w o w' H. rewrite call_eq in H. now injection H as _ <-. Qed.

Lemma idle_emit e : idle (emit e).
Proof. now apply (idle_pure (λ _, Ret tt)). Qed.

Lemma idle_query jid : idle (db_query_first jid).
Proof. now apply (idle_pure (λ w, Ret (working w !! jid)) (λ w, w)). Qed.

Lemma idle_job_status (job : option Job) jid :
  idle match job with
       | None => raise AttributeError
       | Some _ => job_attr jid status
       end.
Proof.
  destruct job; [|apply idle_raise]. intros w o w' H. unfold job_attr in H.
  destruct (working w !! jid); now injection H as _ <-.
Qed.

Lemma idle_check env dag_id : idle (airflow_check_dag_status env dag_id).
Proof.
  intros w o w' H. unfold airflow_check_dag_status, bind, next_tick, emit, ret in H.
  now injection H as _ <-.
Qed.

Lemma idle_wait_stopped env fuel jid : ∀ stopped, idle (wait_stopped env fuel jid stopped).
Proof.
  induction fuel as [|fuel IH]; intros [|]; cbn [wait_stopped];
    try apply idle_ret; [apply idle_hang|].
  apply idle_bind; [apply idle_emit|intros _].
  apply idle_bind; [apply idle_check|intros r]. apply IH.
Qed.

Lemma idle_stop env fuel user jid : idle (_stop_airflow_job env fuel user jid).
Proof.
  apply idle_bind; [|intros _; apply idle_wait_stopped].
  intros w o w' H. unfold FilesService.upload_stop_job_file in H.
  destruct (folders w !! (user, jid)); now injection H as _ <-.
Qed.

Lemma nothing_dropped_update env jid : keeps nothing_dropped (_update_job_status env jid).
Proof.
  intros w o w' H. split.
  - now destruct (quiet_update_job_status env jid _ _ _ H) as (_ & _ & Ht & _).
  - destruct (contained_update env jid _ _ _ H) as [Ho Hr]. intros id [j Hj].
    destruct (decide (id = jid)) as [->|Hne].
    + destruct (Hr j Hj) as (j' & Hj' & _). now rewrite Hj'.
    + destruct (Ho id Hne) as [Hw _]. now rewrite Hw, Hj.
Qed.

Lemma nothing_dropped_process env user jid : keeps nothing_dropped (process env user jid).
Proof.
  intros w o w' H. split.
  - now destruct (process_within env user jid _ _ _ H) as (q & _ & Ht & _).
  - destruct (contained_process env user jid _ _ _ H) as [Ho Hr]. intros id [j Hj].
    destruct (decide (id = jid)) as [->|Hne].
    + destruct (Hr j Hj) as (j' & Hj' & _). now rewrite Hj'.
    + destruct (Ho id Hne) as [Hw _]. now rewrite Hw, Hj.
Qed.

Lemma nothing_dropped_sync_wait env job jid : ∀ fuel,
  keeps nothing_dropped (sync_wait env fuel job jid).
Proof.
  assert (∀ A B (m : M A) (k : A → M B),
            keeps nothing_dropped m → (∀ a, keeps nothing_dropped (k a)) →
            keeps nothing_dropped (bind m k)) as Hbind
    by (intros; now apply (keeps_bind _ nothing_dropped_trans)).
  induction fuel as [|fuel IH]; cbn [sync_wait];
    (apply Hbind; [apply idle_keeps, idle_job_status|intros st]);
    destruct (status_in st _); try apply idle_keeps, idle_ret.
  - apply idle_keeps, idle_hang.
  - apply Hbind; [apply idle_keeps, idle_emit|intros _].
    apply Hbind; [apply nothing_dropped_update|intros _]. exact IH.
Qed.

Lemma bind_hang_inv {A B} (m : M A) (k : A → M B) w w' :
  bind m k w = (Hang, w') →
  m w = (Hang, w') ∨ ∃ a w1, m w = (Ret a, w1) ∧ k a w1 = (Hang, w').
Proof.
  unfold bind. destruct (m w) as [[a|e|] w1]; intros H; [right; eauto|discriminate|].
  left. now injection H as <-.
Qed.

(** [delete] that does not return has started no thread and deleted no
    row: it is still waiting for the job to stop. *)
Lemma delete_hang env fuel user jid delayed w w' :
  delete env fuel user jid delayed w = (Hang, w') → nothing_dropped w w'.
Proof.
  unfold delete, handle. intros H.
  destruct (authorized user jid _ w) as [[r|e|] w0] eqn:E; try discriminate H.
  injection H as <-. unfold authorized in E. unfold bind at 1 in E. unfold db_query_first in E.
  destruct (authorize user jid (working w !! jid)); [discriminate E|].
  apply bind_hang_inv in E as [E|([] & w1 & E1 & E)];
    [exact (nothing_dropped_update env jid _ _ _ E)|].
  apply (nothing_dropped_trans _ w1); [exact (nothing_dropped_update env jid _ _ _ E1)|].
  apply bind_hang_inv in E as [E|(st & w2 & E2 & E)].
  { unfold job_attr in E. destruct (working w1 !! jid); discriminate E. }
  assert (w2 = w1) as ->.
  { unfold job_attr in E2. destruct (working w1 !! jid); now injection E2. }
  apply bind_hang_inv in E as [E|([] & w3 & E3 & E)].
  - refine (idle_keeps _ _ _ _ _ E).
    destruct (status_in st _); [apply idle_stop|apply idle_ret].
  - exfalso. clear E3.
    apply bind_hang_inv in E as [E|([] & w4 & _ & E)].
    { destruct delayed; [discriminate E|].
      unfold FilesService.delete_complete_job in E.
      destruct (folders w3 !! (user, jid)); discriminate E. }
    apply bind_hang_inv in E as [E|([] & w5 & _ & E)]; [discriminate E|].
    apply bind_hang_inv in E as [E|([] & w6 & _ & E)].
    { rewrite delete_dags_eq in E. discriminate E. }
    discriminate E.
Qed.

Lemma delete_never_raises env fuel user jid delayed w e w' :
  delete env fuel user jid delayed w ≠ (Raise e, w').
Proof.
  unfold delete, handle. now destruct (authorized user jid _ w) as [[r|e'|] w0].
Qed.

Lemma unless_file_bind {A} (m : M A) (k : A → M Envelope) :
  keeps nothing_dropped m → (∀ a, unless_file nothing_dropped (k a)) →
  unless_file nothing_dropped (bind m k).
Proof.
  intros Hm Hk w o w' H Ho. unfold bind in H.
  destruct (m w) as [[a|e|] w1] eqn:E.
  - eapply nothing_dropped_trans; [exact (Hm _ _ _ E)|exact (Hk _ _ _ _ H Ho)].
  - injection H as _ <-. exact (Hm _ _ _ E).
  - injection H as _ <-. exact (Hm _ _ _ E).
Qed.

Lemma unless_file_lift {A} (x : Outcome A) (k : A → M Envelope) :
  (∀ a, x = Ret a → unless_file nothing_dropped (k a)) →
  unless_file nothing_dropped (bind (lift x) k).
Proof.
  intros Hk w o w' H Ho. unfold bind, lift in H. destruct x as [a|e|].
  - exact (Hk a eq_refl _ _ _ H Ho).
  - injection H as _ <-. apply nothing_dropped_refl.
  - injection H as _ <-. apply nothing_dropped_refl.
Qed.

Lemma unless_file_keeps (m : M Envelope) :
  keeps nothing_dropped m → unless_file nothing_dropped m.
Proof. intros Hm w o w' H _. exact (Hm _ _ _ H). Qed.

(** After [delete], [process_sync] answers with the file: the answer of
    [delete] is not looked at and the format is one of the table. *)
Lemma unless_file_delete env fuel user jid extension fmt filepath :
  map_output_format extension = Ret fmt →
  unless_file nothing_dropped
    (delete env fuel user jid true ;;
     let! entry := lift (dict_getitem type_map fmt) in
     ret (File (content_type entry) 0 filepath)).
Proof.
  intros Hfmt w o w' H Ho. unfold bind at 1 in H.
  destruct (delete env fuel user jid true w) as [[r|e|] w1] eqn:E.
  - exfalso.
    assert (∃ entry, dict_getitem type_map fmt = Ret entry) as [entry Hentry]
      by (destruct (map_output_format_cases _ _ Hfmt) as [-> | [-> | ->]];
          eexists; vm_compute; reflexivity).
    unfold bind, lift, ret in H. rewrite Hentry in H. injection H as <- _.
    now apply (Ho (content_type entry) 0 filepath).
  - now apply delete_never_raises in E.
  - injection H as _ <-. exact (delete_hang _ _ _ _ _ _ _ E).
Qed.

Lemma process_sync_tail env backend fuel user location :
  unless_file nothing_dropped
    (let! job_id := lift (py_last (UserFiles.py_split slash location)) in
     let! job := db_query_first job_id in
     let! response_process := process env user job_id in
     match response_process with
     | Error _ | Forwarded _ => ret (Plain response_process)
     | Success _ _ =>
         _update_job_status env job_id ;;
         sync_wait env fuel job job_id ;;
         let! st :=
           match job with
           | None => raise AttributeError
           | Some _ => job_attr job_id status
           end in
         if status_in st [JobStatus.error; JobStatus.canceled] then
           ret (Plain (Error (to_dict
                  (mkExc 400 user
                     (MsgText ("Job " +:+ job_id +:+ " has status: "
                               +:+ status_str st +:+ "."))
                     default_internal []))))
         else
           call (λ t, unpause_dag backend t (get_non_parallel_dag_id backend job_id) false) ;;
           let! response_files :=
             call (λ t, get_job_output_internal backend t user job_id) in
           match response_files with
           | ReplyError d => ret (Plain (Forwarded d))
           | ReplyData out =>
               let! filepath := lift (py_getitem (file_list out) 0) in
               let! fmt :=
                 lift (match py_last (UserFiles.py_split UserFiles.dot filepath) with
                       | Ret extension => map_output_format extension
                       | Raise e => Raise e
                       | Hang => Hang
                       end) in
               delete env fuel user job_id true ;;
               let! entry := lift (dict_getitem type_map fmt) in
               ret (File (content_type entry) 0 filepath)
           end
     end).
Proof.
  apply unless_file_bind; [apply idle_keeps, idle_lift|intros job_id].
  apply unless_file_bind; [apply idle_keeps, idle_query|intros job].
  apply unless_file_bind; [apply nothing_dropped_process|intros [c b|d|d]];
    try apply unless_file_keeps, idle_keeps, idle_ret.
  apply unless_file_bind; [apply nothing_dropped_update|intros _].
  apply unless_file_bind; [apply nothing_dropped_sync_wait|intros _].
  apply unless_file_bind; [apply idle_keeps, idle_job_status|intros st].
  destruct (status_in st _); [apply unless_file_keeps, idle_keeps, idle_ret|].
  apply unless_file_bind; [apply idle_keeps, idle_call|intros _].
  apply unless_file_bind; [apply idle_keeps, idle_call|intros [d|out]];
    [apply unless_file_keeps, idle_keeps, idle_ret|].
  apply unless_file_bind; [apply idle_keeps, idle_lift|intros filepath].
  apply unless_file_lift. intros fmt Hfmt.
  destruct (py_last (UserFiles.py_split UserFiles.dot filepath)) as [extension|e|];
    try discriminate Hfmt.
  exact (unless_file_delete env fuel user job_id extension fmt filepath Hfmt).
Qed.

(** X29. A synchronous run that does not end with a file cleans nothing
    up: whatever the reason (the job fails or is canceled, the output
    cannot be listed, its format is not known, a collaborator raises, the
    wait for the stop does not end), no delayed deletion is started, no
    row has left the session, and the job that [create] stored for the
    run is still there. *)
Theorem failed_sync_run_keeps_job env backend fuel user job_args w o w' :
  process_sync env backend fuel user job_args w = (o, w') →
  (∀ ct costs file, o ≠ Ret (File ct costs file)) →
  threads w' = threads w
  ∧ (∀ id, is_Some (working w !! id) → is_Some (working w' !! id))
  ∧ ∀ location identifier w1,
      create env backend user job_args (Some false) (Some false) w
      = (Ret (Created location identifier), w1) →
      is_Some (working w' !! identifier).
Proof.
  intros H Ho. unfold process_sync, handle_envelope in H.
  match type of H with
  | match ?body w with _ => _ end = _ => destruct (body w) as [o0 wb] eqn:Hb
  end.
  assert (wb = w' ∧ ∀ ct costs file, o0 ≠ Ret (File ct costs file)) as [-> Ho0].
  { destruct o0 as [r|e|]; injection H as <- <-; (split; [reflexivity|]);
      intros ct costs file; [apply Ho|discriminate|discriminate]. }
  clear H Ho. unfold bind at 1 in Hb.
  destruct (create env backend user job_args (Some false) (Some false) w)
    as [oc w1] eqn:Hc.
  destruct (create_cases _ _ _ _ _ _ _ _ _ Hc) as [Ht Hrows].
  assert (nothing_dropped w w1 ∧ ∀ location identifier,
            oc = Ret (Created location identifier) → is_Some (working w1 !! identifier))
    as [Hnd Hrow].
  { destruct Hrows as [(job & -> & Hfresh & Hw & _)|(Hne & _ & Hw)].
    - split; [split; [exact Ht|]|].
      + intros id [j Hj]. rewrite Hw. destruct (decide (id = job_id job)) as [->|Hid];
          [now rewrite lookup_insert_eq|now rewrite lookup_insert_ne, Hj].
      + intros location identifier [= _ <-]. now rewrite Hw, lookup_insert_eq.
    - split; [split; [exact Ht|intros id; now rewrite Hw]|].
      intros location identifier ->. now destruct (Hne location identifier). }
  assert (nothing_dropped w1 w') as Htail.
  { destruct oc as [[[c b|d|d]|location identifier|ct costs file]|e|];
      try (injection Hb as _ <-; apply nothing_dropped_refl).
    exact (process_sync_tail env backend fuel user location _ _ _ Hb Ho0). }
  destruct (nothing_dropped_trans _ _ _ Hnd Htail) as [Hthreads Hkept].
  split; [exact Hthreads|]. split; [exact Hkept|].
  intros location identifier w1' [= -> <-]. apply Htail. now apply (Hrow location).
Qed.

Lemma failed_sync_run_keeps_job_witness :
  let run :=
    process_sync (sample_env (unknown_until 9))
      (sample_backend "/data/alice/jobs/j2/result/out.nc") 3 "alice"
      (mkJobArgs (Some sample_process) None None None None)
      (sample_world (Some JobStatus.created) []) in
  run.1 = Ret (Plain (Error (to_dict (mkExc 500 "alice" (MsgOfExc ValueError)
                                        default_internal []))))
  ∧ threads run.2 = []
  ∧ is_Some (working run.2 !! "j2").
Proof.
  intros run.
  assert (run.1 = Ret (Plain (Error (to_dict (mkExc 500 "alice" (MsgOfExc ValueError)
                                                default_internal []))))) as E
    by (vm_compute; reflexivity).
  destruct (failed_sync_run_keeps_job _ _ _ _ _ _ run.1 run.2 (surjective_pairing run))
    as (Ht & _ & Hrow).
  - rewrite E. discriminate.
  - split; [exact E|]. split; [exact Ht|].
    apply (Hrow "jobs/j2"%string "j2"%string
             (create (sample_env (unknown_until 9))
                (sample_backend "/data/alice/jobs/j2/result/out.nc") "alice"
                (mkJobArgs (Some sample_process) None None None None) (Some false) (Some false)
                (sample_world (Some JobStatus.created) [])).2).
    vm_compute. reflexivity.
Defined.

(** ** Reconciling twice *)

Lemma candidates_reported job rs :
  candidates job rs = List.filter (admits job) (reported rs).
Proof.
  induction rs as [|[[s|] t] rs IH]; cbn [candidates reported pick fst snd List.filter];
    [reflexivity| |exact IH].
  unfold admits at 1. cbn [fst snd].
  destruct (eligible job (Some s, t)); now rewrite IH.
Qed.

Lemma admits_upper job c c' t t' :
  admits job c = true → c.2 = Some t → c'.2 = Some t' → t ≤ t' → admits job c' = true.
Proof.
  unfold admits, eligible. destruct c as [s x], c' as [s' x']. cbn [fst snd truthy andb].
  intros H -> -> Hle. apply orb_true_iff in H as [H|H]; [now rewrite H|].
  apply orb_true_iff. right. apply Z.ltb_lt in H. apply Z.ltb_lt. lia.
Qed.

Lemma admits_nested job job' :
  (∀ c, admits job c = true → admits job' c = true)
  ∨ (∀ c, admits job' c = true → admits job c = true).
Proof.
  unfold admits, eligible.
  destruct (negb (truthy (status job'))
            || status_in (status job')
                 [JobStatus.created; JobStatus.queued; JobStatus.running; JobStatus.error])
    eqn:E'; [left; intros [s t] _; reflexivity|].
  destruct (negb (truthy (status job))
            || status_in (status job)
                 [JobStatus.created; JobStatus.queued; JobStatus.running; JobStatus.error])
    eqn:E; [right; intros [s t] _; reflexivity|].
  destruct (Z.le_gt_cases (status_updated_at job) (status_updated_at job')) as [Hle|Hgt].
  - right. intros [s [t|]]; cbn [fst snd truthy andb orb]; [|discriminate].
    intros H%Z.ltb_lt. apply Z.ltb_lt. lia.
  - left. intros [s [t|]]; cbn [fst snd truthy andb orb]; [|discriminate].
    intros H%Z.ltb_lt. apply Z.ltb_lt. lia.
Qed.

Lemma filter_nested {A} (P Q : A → bool) (l : list A) :
  (∀ x, P x = true → Q x = true) → List.filter P (List.filter Q l) = List.filter P l.
Proof.
  intros H. induction l as [|x l IH]; [reflexivity|]. cbn.
  destruct (Q x) eqn:Eq; cbn.
  - now rewrite IH.
  - destruct (P x) eqn:Ep; [|exact IH]. rewrite (H x Ep) in Eq. discriminate.
Qed.

Lemma py_max_from_ret l : ∀ cur m,
  py_max_from cur l = Ret m → l ≠ [] → is_Some cur ∧ ∀ x, x ∈ l → is_Some x.
Proof.
  induction l as [|x l IH]; intros cur m H Hne; [congruence|]. cbn in H.
  destruct x as [b|]; [|discriminate]. destruct cur as [a|]; [|discriminate].
  split; [eauto|]. intros y Hy. apply elem_of_cons in Hy as [->|Hy]; [eauto|].
  destruct l as [|z l']; [inversion Hy|].
  now apply (IH _ _ H).
Qed.

(** What a merge that returns has returned: the common status, or the
    status of the first candidate whose time is maximal. *)
Lemma merge_status_inv (cs : list (JobStatus.t * option Z)) s0 s :
  cs ≠ [] → merge_status s0 cs.*1 cs.*2 = Ret s →
  (∀ c, c ∈ cs → c.1 = s)
  ∨ ((∀ c, c ∈ cs → is_Some c.2) ∧ ∃ i m, first_latest cs i s m).
Proof.
  intros Hne H. destruct (forallb (λ x, JobStatus.eqb x s0) cs.*1) eqn:E.
  { left. unfold merge_status in H. rewrite E in H. injection H as <-.
    now apply forallb_same. }
  unfold merge_status in H. rewrite E in H.
  destruct (py_max cs.*2) as [m|e|] eqn:Em; try discriminate H.
  destruct cs as [|[s1 t1] [|[s2 t2] cs']]; [congruence| |].
  - left. cbn in Em. injection Em as <-. cbn in H.
    assert (option_eqb Z.eqb t1 t1 = true) as Ht
      by (destruct t1; [apply Z.eqb_refl|reflexivity]).
    rewrite Ht in H. cbn in H. injection H as <-.
    intros c Hc. apply list_elem_of_singleton in Hc. now subst c.
  - right.
    assert (∀ c, c ∈ (s1, t1) :: (s2, t2) :: cs' → is_Some c.2) as Hall.
    { cbn [fmap list_fmap snd py_max] in Em.
      destruct (py_max_from_ret _ _ _ Em ltac:(discriminate)) as [H1 H2].
      intros c Hc. apply elem_of_cons in Hc as [->|Hc]; [exact H1|].
      apply H2. change (t2 :: cs'.*2) with (((s2, t2) :: cs').*2).
      apply list_elem_of_fmap. now exists c. }
    split; [exact Hall|].
    destruct (merge_status_latest _ s0 Hne Hall E) as (i & s' & m' & Hm & Hfl).
    unfold merge_status in Hm. rewrite E, Em in Hm. rewrite Hm in H.
    injection H as <-. now exists i, m'.
Qed.

Lemma first_latest_unique cs i s m i' s' m' :
  first_latest cs i s m → first_latest cs i' s' m' → s = s'.
Proof.
  intros (Hi & Hmax & Hlt) (Hi' & Hmax' & Hlt').
  destruct (lt_eq_lt_dec i i') as [[H|H]|H].
  - pose proof (Hlt' _ _ _ H Hi). pose proof (Hmax _ _ _ Hi'). lia.
  - subst i'. congruence.
  - pose proof (Hlt _ _ _ H Hi'). pose proof (Hmax' _ _ _ Hi). lia.
Qed.

Lemma filter_lookup_split {A} (P : A → bool) (l : list A) i x :
  l !! i = Some x → P x = true →
  List.filter P l !! length (List.filter P (take i l)) = Some x
  ∧ ∀ j y, (j < length (List.filter P (take i l)))%nat →
      List.filter P l !! j = Some y → ∃ k, (k < i)%nat ∧ l !! k = Some y.
Proof.
  intros Hi Hx.
  assert (List.filter P l
          = List.filter P (take i l) ++ x :: List.filter P (drop (S i) l)) as ->.
  { rewrite <- (take_drop_middle l i x Hi) at 1.
    rewrite List.filter_app. cbn [List.filter]. now rewrite Hx. }
  split.
  - rewrite lookup_app_r by lia. now rewrite Nat.sub_diag.
  - intros j y Hj Hy. rewrite lookup_app_l in Hy by exact Hj.
    apply list_elem_of_lookup_2, list_elem_of_In, filter_In in Hy as [Hy _].
    apply list_elem_of_In, list_elem_of_lookup in Hy as [k Hk].
    pose proof (lookup_lt_Some _ _ _ Hk) as Hlen. rewrite length_take in Hlen.
    exists k. split; [lia|]. now rewrite lookup_take_lt in Hk by lia.
Qed.

Lemma first_latest_filter (P : JobStatus.t * option Z → bool) cs i s m :
  first_latest cs i s m → P (s, Some m) = true →
  ∃ i', first_latest (List.filter P cs) i' s m.
Proof.
  intros (Hi & Hmax & Hlt) HP.
  destruct (filter_lookup_split P cs i _ Hi HP) as [Hat Hbefore].
  exists (length (List.filter P (take i cs))). split; [exact Hat|]. split.
  - intros j c t Hj.
    apply list_elem_of_lookup_2, list_elem_of_In, filter_In in Hj as [Hj _].
    apply list_elem_of_In, list_elem_of_lookup in Hj as [k Hk]. exact (Hmax _ _ _ Hk).
  - intros j c t Hj Hc. destruct (Hbefore _ _ Hj Hc) as (k & Hk & Hl).
    exact (Hlt _ _ _ Hk Hl).
Qed.

(** The merge of the pairs a filter keeps agrees with the merge of all
    of them, when the filter keeps every pair that is at least as late as
    one it keeps. *)
Lemma merge_status_filtered (P : JobStatus.t * option Z → bool) big s0 s0' a b :
  (∀ c c' t t', P c = true → c.2 = Some t → c'.2 = Some t' → t ≤ t' → P c' = true) →
  List.filter P big ≠ [] →
  merge_status s0 big.*1 big.*2 = Ret b →
  merge_status s0' (List.filter P big).*1 (List.filter P big).*2 = Ret a →
  a = b.
Proof.
  intros Hup Hne Hb Ha.
  assert (big ≠ []) as Hbig by (intros ->; now apply Hne).
  assert (∃ e, e ∈ List.filter P big ∧ e.1 = a) as (e & He & Hea).
  { destruct (merge_status_inv _ _ _ Hne Ha) as [Hsame|(_ & i & m & Hi & _)].
    - destruct (List.filter P big) as [|e l]; [congruence|].
      exists e. split; [left|apply Hsame; left].
    - exists (a, Some m). split; [eapply list_elem_of_lookup_2, Hi|reflexivity]. }
  assert (e ∈ big ∧ P e = true) as [Hebig HPe]
    by (apply list_elem_of_In, filter_In in He as [? ?]; split;
        [now apply list_elem_of_In|assumption]).
  destruct (merge_status_inv _ _ _ Hbig Hb) as [Hsame|(Hall & i & m & Hfl)].
  - rewrite <- Hea. now apply Hsame.
  - destruct (Hall e Hebig) as [t Ht].
    assert (t ≤ m) as Hle.
    { destruct Hfl as (_ & Hmax & _).
      apply list_elem_of_lookup in Hebig as [k Hk]. destruct e as [s t0]. cbn in Ht.
      subst t0. exact (Hmax _ _ _ Hk). }
    assert (P (b, Some m) = true) as HPb by (apply (Hup e (b, Some m) t m); auto).
    destruct (first_latest_filter P big i b m Hfl HPb) as [i' Hfl'].
    destruct (merge_status_inv _ _ _ Hne Ha) as [Hsame|(_ & j & m' & Hj)].
    + symmetry. apply (Hsame (b, Some m)). destruct Hfl' as (H & _).
      eapply list_elem_of_lookup_2, H.
    + exact (first_latest_unique _ _ _ _ _ _ _ Hj Hfl').
Qed.

(** Two jobs that both have candidates among the same readings get the
    same merged status, whatever their own status and time stamp. *)
Lemma merge_status_same_readings job job' rs s0 s0' a b :
  candidates job rs ≠ [] → candidates job' rs ≠ [] →
  merge_status s0 (candidates job rs).*1 (candidates job rs).*2 = Ret a →
  merge_status s0' (candidates job' rs).*1 (candidates job' rs).*2 = Ret b →
  a = b.
Proof.
  rewrite !candidates_reported. intros Hne Hne' Ha Hb.
  destruct (admits_nested job job') as [Hsub|Hsub].
  - rewrite <- (filter_nested _ _ (reported rs) Hsub) in Hne, Ha.
    exact (merge_status_filtered _ _ _ _ _ _ (admits_upper job) Hne Hb Ha).
  - rewrite <- (filter_nested _ _ (reported rs) Hsub) in Hne', Hb.
    symmetry. exact (merge_status_filtered _ _ _ _ _ _ (admits_upper job') Hne' Ha Hb).
Qed.

Lemma after_reads_working dag_ids w : working (after_reads dag_ids w) = working w.
Proof. reflexivity. Qed.

(** X30. Reconciling again on the same answers changes no status: when
    [_update_job_status] has returned and the orchestrator reports for
    the job's units what it reported before, a second reconciliation
    leaves the job's status as the first one set it, whatever the clock
    says and whether or not the second one stores anything or raises.
    The merged status does not depend on the status and the time stamp
    the job has when it is reconciled, as long as some unit qualifies. *)
Theorem reconciliation_is_stable env job_id job w w1 :
  working w !! job_id = Some job →
  _update_job_status env job_id w = (Ret tt, w1) →
  readings_from env (tick w1) (get_all_dag_ids env job_id)
  = readings_from env (tick w) (get_all_dag_ids env job_id) →
  status_of (working (_update_job_status env job_id w1).2) job_id
  = status_of (working w1) job_id.
Proof.
  intros Hjob H1 Hrs. rewrite (update_job_status_eq _ _ job) in H1 by exact Hjob.
  unfold reconciled in H1.
  set (rs := readings_from env (tick w) (get_all_dag_ids env job_id)) in *.
  set (wr := after_reads (get_all_dag_ids env job_id) w) in *.
  destruct (candidates job rs) as [|[s0 t0] cs'] eqn:Ecs.
  - injection H1 as <-.
    rewrite (update_job_status_eq _ _ job) by exact Hjob.
    unfold reconciled. rewrite Hrs. fold rs. now rewrite Ecs.
  - cbn [fmap list_fmap fst] in H1.
    change (s0 :: cs'.*1) with (((s0, t0) :: cs').*1) in H1.
    change (t0 :: cs'.*2) with (((s0, t0) :: cs').*2) in H1.
    destruct (merge_status s0 _ _) as [s1|e|] eqn:Em; try discriminate H1.
    injection H1 as <-.
    set (job1 := set_status_updated_at (utcnow env (tick wr)) (set_status (Some s1) job)).
    assert (working (store_status (utcnow env (tick wr)) job_id s1 wr) !! job_id = Some job1)
      as Hjob1 by (now apply store_status_working).
    assert (status_of (working (store_status (utcnow env (tick wr)) job_id s1 wr)) job_id
            = Some s1) as Hs1 by (now apply (status_of_store _ _ _ job)).
    rewrite (update_job_status_eq _ _ job1) by exact Hjob1.
    unfold reconciled. rewrite Hrs. fold rs.
    destruct (candidates job1 rs) as [|[s0' t0'] cs2] eqn:Ecs2; [reflexivity|].
    cbn [fmap list_fmap fst].
    change (s0' :: cs2.*1) with (((s0', t0') :: cs2).*1).
    change (t0' :: cs2.*2) with (((s0', t0') :: cs2).*2).
    destruct (merge_status s0' _ _) as [s2|e|] eqn:Em2; try reflexivity.
    cbn [snd]. rewrite (status_of_store _ _ _ job1) by exact Hjob1.
    transitivity (Some s1); [|symmetry; exact Hs1]. f_equal.
    assert (merge_status s0 (candidates job rs).*1 (candidates job rs).*2 = Ret s1) as Em'
      by (rewrite Ecs; exact Em).
    assert (merge_status s0' (candidates job1 rs).*1 (candidates job1 rs).*2 = Ret s2) as Em2'
      by (rewrite Ecs2; exact Em2).
    apply (merge_status_same_readings job1 job rs s0' s0); try assumption;
      [rewrite Ecs2|rewrite Ecs]; discriminate.
Qed.

Lemma reconciliation_is_stable_witness :
  let env := sample_env parallel_running in
  let w := sample_world (Some JobStatus.finished) [] in
  let w1 := (_update_job_status env "j1" w).2 in
  status_of (working w1) "j1" = Some JobStatus.running
  ∧ status_of (working (_update_job_status env "j1" w1).2) "j1"
    = status_of (working w1) "j1".
Proof.
  intros env w w1. split; [vm_compute; reflexivity|].
  apply (reconciliation_is_stable env "j1" (sample_job (Some JobStatus.finished)) w w1).
  - reflexivity.
  - vm_compute. reflexivity.
  - vm_compute. reflexivity.
Defined.
